(** * build_meta.py: merge, deduplication and analysis of review datasets

    A shallow embedding of [src/build_meta.py] and the properties its
    specification states about it.

    Python values are modelled as follows.
    - A [str] is the list of its Unicode code points, so [length] is Python's
      [len] and the lexicographic order on lists is Python's order on [str].
    - A [dict] is an association list in insertion order with unique keys
      ([odict]); assigning to a present key keeps its position, assigning to
      an absent key appends, as in Python.
    - A [set] of strings is a duplicate-free list.
    - JSON scalars are the inductive type [json]; a missing key and [null]
      are both [JNull] (or [None] for the fields read as text), because the
      script reads every field with [dict.get].
    - What the script takes from the Python runtime and its libraries (float
      arithmetic, the Unicode character database outside ASCII, SHA-1,
      [repr] of a float, [round]) is a parameter of the model: a class
      ([PyFloat], [UnicodeDB]) or a section variable.  Theorems are stated
      for every such runtime; worked examples use the instances [ieee]
      (binary64), [exact] (rationals) and [czech_db] defined below. *)

From Stdlib Require Import List ZArith NArith Bool Lia String Ascii.
From Stdlib Require Import Sorted Permutation.
From Stdlib Require Floats QArith Qround DecimalString.
Import ListNotations.

Local Open Scope N_scope.
Local Open Scope list_scope.

(** ** Python strings *)

Definition char := N.
Definition str := list char.

(** A literal is written as its UTF-8 bytes and decoded to code points. *)
Fixpoint bytes_of (s : string) : list N :=
  match s with
  | EmptyString => []
  | String a r => N_of_ascii a :: bytes_of r
  end.

Fixpoint utf8_decode (bs : list N) : str :=
  match bs with
  | [] => []
  | b :: r =>
      if b <? 128 then b :: utf8_decode r
      else if b <? 224 then
        match r with
        | c1 :: r' =>
            N.lor (N.shiftl (N.land b 31) 6) (N.land c1 63) :: utf8_decode r'
        | [] => []
        end
      else if b <? 240 then
        match r with
        | c1 :: c2 :: r' =>
            N.lor (N.shiftl (N.land b 15) 12)
              (N.lor (N.shiftl (N.land c1 63) 6) (N.land c2 63))
            :: utf8_decode r'
        | _ => []
        end
      else
        match r with
        | c1 :: c2 :: c3 :: r' =>
            N.lor (N.shiftl (N.land b 7) 18)
              (N.lor (N.shiftl (N.land c1 63) 12)
                 (N.lor (N.shiftl (N.land c2 63) 6) (N.land c3 63)))
            :: utf8_decode r'
        | _ => []
        end
  end.

Definition u (s : string) : str := utf8_decode (bytes_of s).

Fixpoint str_eqb (a b : str) : bool :=
  match a, b with
  | [], [] => true
  | x :: a', y :: b' => (x =? y) && str_eqb a' b'
  | _, _ => false
  end.

(** [a < b] on [str]: lexicographic on code points. *)
Fixpoint str_ltb (a b : str) : bool :=
  match a, b with
  | _, [] => false
  | [], _ :: _ => true
  | x :: a', y :: b' => (x <? y) || ((x =? y) && str_ltb a' b')
  end.

(** [len(s)] *)
Definition len (s : str) : nat := List.length s.

Definition opt_str_eqb (a b : option str) : bool :=
  match a, b with
  | Some x, Some y => str_eqb x y
  | None, None => true
  | _, _ => false
  end.

(** Truthiness of a [str]: non-empty. *)
Definition nonempty (s : str) : bool :=
  match s with [] => false | _ :: _ => true end.

(** Truthiness of [d.get(key)] for a text field: present, not null, not empty. *)
Definition truthy_s (o : option str) : bool :=
  match o with Some s => nonempty s | None => false end.

(** [x or ""] for a text field. *)
Definition or_empty (o : option str) : str :=
  match o with Some (c :: s) => c :: s | _ => [] end.

(** [str.isspace] of one character, which is also the class [\s] of [re] on
    [str] patterns. *)
Definition isspace (c : char) : bool :=
  ((9 <=? c) && (c <=? 13)) || ((28 <=? c) && (c <=? 32))
  || (c =? 133) || (c =? 160) || (c =? 5760)
  || ((8192 <=? c) && (c <=? 8202))
  || (c =? 8232) || (c =? 8233) || (c =? 8239) || (c =? 8287) || (c =? 12288).

Fixpoint lstrip_by (p : char -> bool) (s : str) : str :=
  match s with
  | [] => []
  | c :: r => if p c then lstrip_by p r else s
  end.

Definition rstrip_by (p : char -> bool) (s : str) : str :=
  rev (lstrip_by p (rev s)).

Definition strip_by (p : char -> bool) (s : str) : str :=
  rstrip_by p (lstrip_by p s).

(** [s.strip()] *)
Definition strip (s : str) : str := strip_by isspace s.

(** [re.sub(X+, rep, s)] for a character class [X] given as [p]: every maximal
    run of [p]-characters is replaced by [rep].  [in_run] tells that the
    previous character belonged to a run that is already replaced. *)
Fixpoint sub_plus (p : char -> bool) (rep : str) (in_run : bool) (s : str) : str :=
  match s with
  | [] => []
  | c :: r =>
      if p c then
        if in_run then sub_plus p rep true r
        else rep ++ sub_plus p rep true r
      else c :: sub_plus p rep false r
  end.

(** [re.sub(X{2,}, rep, s)]: maximal runs of at least two [p]-characters are
    replaced, a single one is kept. *)
Fixpoint sub_two_plus (p : char -> bool) (rep : str) (in_run : bool) (s : str) : str :=
  match s with
  | [] => []
  | c :: r =>
      if p c then
        if in_run then sub_two_plus p rep true r
        else
          match r with
          | d :: _ =>
              if p d then rep ++ sub_two_plus p rep true r
              else c :: sub_two_plus p rep false r
          | [] => [c]
          end
      else c :: sub_two_plus p rep false r
  end.

Fixpoint startswith (p s : str) : bool :=
  match p, s with
  | [], _ => true
  | a :: p', b :: s' => (a =? b) && startswith p' s'
  | _ :: _, [] => false
  end.

(** [needle in hay] *)
Fixpoint contains (needle hay : str) : bool :=
  startswith needle hay
  || match hay with
     | [] => false
     | _ :: r => contains needle r
     end.

(** [s.split(sep)[0]] for a one-character separator. *)
Fixpoint before_sep (sep : char) (s : str) : str :=
  match s with
  | [] => []
  | c :: r => if c =? sep then [] else c :: before_sep sep r
  end.

(** [re.sub(r"^https?://", "", s)] *)
Definition strip_scheme (s : str) : str :=
  if startswith (u "http://") s then skipn 7 s
  else if startswith (u "https://") s then skipn 8 s
  else s.

Definition is_ascii_upper (c : char) : bool := (65 <=? c) && (c <=? 90).
Definition is_ascii_lower (c : char) : bool := (97 <=? c) && (c <=? 122).
Definition is_ascii_digit (c : char) : bool := (48 <=? c) && (c <=? 57).

(** The class [[a-zA-Z0-9]] of the slug pattern. *)
Definition is_ascii_alnum (c : char) : bool :=
  is_ascii_lower c || is_ascii_upper c || is_ascii_digit c.

Definition ascii_lower (c : char) : char :=
  if is_ascii_upper c then c + 32 else c.

Definition hyphen : char := 45.
Definition is_hyphen (c : char) : bool := c =? hyphen.

(** ** The Unicode character database

    On ASCII the three tables are fixed by the model: lower-casing is
    [ascii_lower], no character decomposes and none is a combining mark.
    Outside ASCII they are the runtime's.  Lower-casing of a character may
    depend on its context ([str.lower] applies the final-sigma rule), so the
    table receives the text before (reversed) and after the character. *)
Class UnicodeDB := {
  db_lower : str -> char -> str -> str;
  db_decomp : char -> str;
  db_ccc : char -> N
}.

Section Unicode.
Context {U : UnicodeDB}.

Definition lower_cp (before_rev : str) (c : char) (after : str) : str :=
  if c <? 128 then [ascii_lower c] else db_lower before_rev c after.

Fixpoint lower_from (before_rev : str) (s : str) : str :=
  match s with
  | [] => []
  | c :: r => lower_cp before_rev c r ++ lower_from (c :: before_rev) r
  end.

(** [s.lower()] *)
Definition lower (s : str) : str := lower_from [] s.

(** Full compatibility decomposition of one character. *)
Definition decomp_cp (c : char) : str :=
  if c <? 128 then [c] else db_decomp c.

(** [unicodedata.combining(ch)]: the canonical combining class. *)
Definition combining (c : char) : N :=
  if c <? 128 then 0 else db_ccc c.

(** Canonical ordering: a mark moves left past the marks of a larger class
    that stand immediately before it.  [acc_rev] is the ordered text so
    far, reversed. *)
Fixpoint reorder_insert (c : char) (acc_rev : str) : str :=
  match acc_rev with
  | d :: r =>
      if (0 <? combining c) && (combining c <? combining d)
      then d :: reorder_insert c r
      else c :: acc_rev
  | [] => [c]
  end.

Definition canonical_order (s : str) : str :=
  rev (fold_left (fun acc c => reorder_insert c acc) s []).

(** [unicodedata.normalize("NFKD", s)] *)
Definition nfkd (s : str) : str := canonical_order (flat_map decomp_cp s).

End Unicode.

(** ** Ordered dictionaries *)

Section ODict.
Context {V : Type}.

Definition odict := list (str * V).

(** [d.get(k)] *)
Fixpoint od_get (k : str) (d : odict) : option V :=
  match d with
  | [] => None
  | (k', v) :: r => if str_eqb k k' then Some v else od_get k r
  end.

(** [k in d] *)
Definition od_mem (k : str) (d : odict) : bool :=
  match od_get k d with Some _ => true | None => false end.

(** [d[k] = v] *)
Fixpoint od_set (k : str) (v : V) (d : odict) : odict :=
  match d with
  | [] => [(k, v)]
  | (k', v') :: r =>
      if str_eqb k k' then (k, v) :: r else (k', v') :: od_set k v r
  end.

Definition od_keys (d : odict) : list str := map fst d.

(** [list(d.values())] *)
Definition od_values (d : odict) : list V := map snd d.

End ODict.

Arguments odict V : clear implicits.

(** ** Python numbers

    [float] arithmetic is the runtime's.  Division is modelled as Python
    defines it: it raises [ZeroDivisionError] on a zero divisor, so a function
    that divides returns in the [result] monad.  The operations of the class
    are total: the [OverflowError] of CPython for an integer quotient beyond
    the range of [float] is outside the model. *)

Class PyFloat := {
  float : Type;
  float_of_int : Z -> float;      (* the conversion of mixed arithmetic *)
  int_truediv : Z -> Z -> float;  (* a / b on int, b non-zero *)
  fdiv : float -> float -> float; (* x / y on float, y non-zero *)
  fmul : float -> float -> float;
  fadd : float -> float -> float;
  fneg : float -> float;
  feqb : float -> float -> bool;  (* x == y *)
  fltb : float -> float -> bool   (* x < y *)
}.

Inductive exn := ZeroDivisionError.

Inductive result (A : Type) :=
| Ok (a : A)
| Raise (e : exn).
Arguments Ok {A} a.
Arguments Raise {A} e.

Definition bind {A B : Type} (m : result A) (k : A -> result B) : result B :=
  match m with
  | Ok a => k a
  | Raise e => Raise e
  end.

Notation "x <- m ;; k" := (bind m (fun x => k))
  (at level 61, m at next level, right associativity).

Fixpoint mapM {A B : Type} (f : A -> result B) (l : list A) : result (list B) :=
  match l with
  | [] => Ok []
  | a :: r => b <- f a ;; bs <- mapM f r ;; Ok (b :: bs)
  end.

Section Numbers.
Context {F : PyFloat}.

(** An [int] or a [float]. *)
Inductive num :=
| NInt (z : Z)
| NFloat (x : float).

(** A JSON scalar as [json.loads] returns it. *)
Inductive json :=
| JNull
| JBool (b : bool)
| JInt (z : Z)
| JFloat (x : float)
| JStr (s : str).

(** [isinstance(v, (int, float))], with the value as a number.  [bool] is a
    subclass of [int] in Python: [True] is 1 and [False] is 0. *)
Definition as_number (v : json) : option num :=
  match v with
  | JBool b => Some (NInt (if b then 1 else 0)%Z)
  | JInt z => Some (NInt z)
  | JFloat x => Some (NFloat x)
  | JNull | JStr _ => None
  end.

Definition is_number (v : json) : bool :=
  match as_number v with Some _ => true | None => false end.

Definition to_float (a : num) : float :=
  match a with
  | NInt z => float_of_int z
  | NFloat x => x
  end.

(** Truthiness of a number: it is not zero. *)
Definition num_truthy (a : num) : bool :=
  match a with
  | NInt z => negb (z =? 0)%Z
  | NFloat x => negb (feqb x (float_of_int 0))
  end.

(** Truthiness of a JSON scalar. *)
Definition truthy (v : json) : bool :=
  match v with
  | JNull => false
  | JBool b => b
  | JInt z => negb (z =? 0)%Z
  | JFloat x => negb (feqb x (float_of_int 0))
  | JStr s => nonempty s
  end.

Definition is_none (v : json) : bool :=
  match v with JNull => true | _ => false end.

(** [a / b] *)
Definition truediv (a b : num) : result float :=
  if num_truthy b then
    match a, b with
    | NInt x, NInt y => Ok (int_truediv x y)
    | _, _ => Ok (fdiv (to_float a) (to_float b))
    end
  else Raise ZeroDivisionError.

(** [a + b] *)
Definition num_add (a b : num) : num :=
  match a, b with
  | NInt x, NInt y => NInt (x + y)
  | _, _ => NFloat (fadd (to_float a) (to_float b))
  end.

(** [sum(l)]: left to right from the integer 0. *)
Definition py_sum (l : list num) : num := fold_left num_add l (NInt 0).

End Numbers.

(** [str(z)] for an [int]. *)
Definition str_of_int (z : Z) : str :=
  bytes_of (DecimalString.NilEmpty.string_of_int (Z.to_int z)).

(** ** Sorting and sets *)

Section Sorting.
Context {A : Type}.
Variable lt : A -> A -> bool.

(** [x] goes after the elements smaller than it and before the others, which
    stood behind it in the input. *)
Fixpoint insert_sorted (x : A) (l : list A) : list A :=
  match l with
  | [] => [x]
  | y :: r => if lt y x then y :: insert_sorted x r else x :: l
  end.

(** [sorted(l)] and [l.sort()], which are stable and compare with [<] only.
    Where [<] totally preorders the elements the stable sorted arrangement
    is unique, so every stable sort returns it. *)
Definition py_sorted (l : list A) : list A := fold_right insert_sorted [] l.

End Sorting.

(** [s.add(x)] on a set of strings. *)
Definition set_add (x : str) (s : list str) : list str :=
  if existsb (str_eqb x) s then s else s ++ [x].

(** ** The records of the input, of the index and of the output *)

Section Script.
Context {F : PyFloat} {U : UnicodeDB}.

(** [hashlib.sha1(s.encode("utf-8")).hexdigest()] *)
Variable sha1_hexdigest : str -> str.
(** [str(x)] for a float *)
Variable float_repr : float -> str.

Record review := mk_review {
  platform : option str;
  review_id : json;
  author_name : option str;
  rating_value : json;
  rating_scale : json;
  date_published : option str;
  date_raw : option str;
  review_text : option str;
  source_url : option str;
  sentiment_label : option str;
  sentiment_score : json
}.

Record profile := mk_profile {
  pp_platform : option str;
  pp_source_url : option str
}.

Record office := mk_office {
  o_city : option str;
  o_address : option str;
  o_platform_profiles : list profile;  (* [] when absent or null *)
  o_reviews : list review
}.

Record firm := mk_firm {
  f_firm_name : option str;
  f_website : option str;
  f_firm_id : option str;
  f_offices : list office
}.

(** A source document is read through [ds.get("firms", []) or []] only. *)
Definition dataset := list firm.

(** The index built while merging. *)
Record moffice := mk_moffice {
  mo_city : option str;
  mo_address : option str;
  mo_platform_profiles : list (str * option str);
  mo_reviews_map : odict review
}.

Record mfirm := mk_mfirm {
  mf_firm_name : option str;
  mf_website : option str;
  mf_firm_ids : list str;
  mf_offices : odict moffice
}.

(** The exported shape.  An optional key of an output object is an [option]. *)
Record office_obj := mk_office_obj {
  oo_city : option str;
  oo_address : option str;
  oo_platform_profiles : option (list (str * option str));
  oo_reviews : list review
}.

Record collection_summary := mk_summary {
  reviews_collected_total : nat;
  platforms_used : list str;
  cities_covered : list str;
  warnings : option (list str)
}.

Record firm_obj := mk_firm_obj {
  fo_firm_id : str;
  fo_firm_name : option str;
  fo_offices : list office_obj;
  fo_collection_summary : collection_summary;
  fo_website : option str
}.

Record dataset_quality := mk_quality {
  firms_collected : nat;
  reviews_collected : nat;
  firms_below_min_reviews : list str;
  known_limitations : list str
}.

Definition REVIEWS_PER_FIRM_MIN : nat := 10.

(** ** Keys and normalisation *)

(** [str(v)] *)
Definition py_str (v : json) : str :=
  match v with
  | JNull => u "None"
  | JBool true => u "True"
  | JBool false => u "False"
  | JInt z => str_of_int z
  | JFloat x => float_repr x
  | JStr s => s
  end.

Definition norm_platform (p : option str) : str :=
  if negb (truthy_s p) then u "Other"
  else
    let x := lower (or_empty p) in
    if contains (u "google") x then u "Google Maps"
    else if contains (u "firmy") x then u "Firmy.cz"
    else if contains (u "facebook") x then u "Facebook"
    else u "Other".

Definition slugify (s : str) : str :=
  let s := nfkd s in
  let s := filter (fun ch => combining ch =? 0) s in
  let s := lower (strip_by is_hyphen
                    (sub_plus (fun c => negb (is_ascii_alnum c)) (u "-") false s)) in
  let s := sub_two_plus is_hyphen (u "-") false s in
  if nonempty s then s else u "unknown".

Definition firm_key (f : firm) : str :=
  let w := lower (strip (or_empty (f_website f))) in
  if nonempty w then u "w:" ++ w
  else
    let n := sub_plus isspace (u " ") false
               (lower (strip (or_empty (f_firm_name f)))) in
    u "n:" ++ n.

Definition office_key (o : office) : str :=
  let city := lower (strip (or_empty (o_city o))) in
  let addr := lower (strip (or_empty (o_address o))) in
  if nonempty city && nonempty addr then city ++ u "|" ++ addr
  else if nonempty city then city
  else if nonempty addr then u "addr:" ++ addr
  else u "unknown".

Definition norm_text (t : str) : str :=
  lower (sub_plus isspace (u " ") false (strip t)).

Definition review_dedupe_key (r : review) : str :=
  let plat := norm_platform (platform r) in
  if truthy (review_id r) then plat ++ u "|rid:" ++ py_str (review_id r)
  else
    let author := norm_text (or_empty (author_name r)) in
    let dp := or_empty (date_published r) in
    let dr := or_empty (date_raw r) in
    let rv := if is_none (rating_value r) then [] else py_str (rating_value r) in
    let rs := if is_none (rating_scale r) then [] else py_str (rating_scale r) in
    let text := norm_text (or_empty (review_text r)) in
    let url := norm_text (or_empty (source_url r)) in
    let h := if nonempty text then sha1_hexdigest text else u "no_text" in
    let uh := if nonempty url then sha1_hexdigest url else u "no_url" in
    plat ++ u "|a:" ++ author ++ u "|dp:" ++ dp ++ u "|dr:" ++ dr
         ++ u "|r:" ++ rv ++ u "/" ++ rs ++ u "|t:" ++ h ++ u "|u:" ++ uh.

Definition completeness_score (r : review) : Z :=
  let s := 0%Z in
  let s := if truthy (review_id r) then (s + 4)%Z else s in
  let s := if truthy_s (date_published r) then (s + 2)%Z else s in
  let s := if negb (is_none (rating_value r)) && negb (is_none (rating_scale r))
           then (s + 2)%Z else s in
  let s := if nonempty (strip (or_empty (review_text r))) then (s + 2)%Z else s in
  let s := if truthy_s (author_name r) then (s + 1)%Z else s in
  let s := if truthy_s (source_url r) then (s + 1)%Z else s in
  s.

Definition normalize_review (r : review) : review :=
  mk_review (Some (norm_platform (platform r))) (review_id r) (author_name r)
    (rating_value r) (rating_scale r) (date_published r) (date_raw r)
    (review_text r) (source_url r) (sentiment_label r) (sentiment_score r).

Definition normalize_profile (p : profile) : str * option str :=
  (norm_platform (pp_platform p), pp_source_url p).

(** ** The merge engine *)

(** The body of [for r in o.get("reviews", []) or []]. *)
Definition merge_review (reviews_map : odict review) (r : review) : odict review :=
  let nr := normalize_review r in
  let k := review_dedupe_key nr in
  match od_get k reviews_map with
  | None => od_set k nr reviews_map
  | Some old =>
      if (completeness_score nr >? completeness_score old)%Z
      then od_set k nr reviews_map
      else reviews_map
  end.

(** The body of [for pp in o.get("platform_profiles", []) or []]. *)
Definition merge_profile (pps : list (str * option str)) (pp : profile)
  : list (str * option str) :=
  let npp := normalize_profile pp in
  if truthy_s (snd npp) then pps ++ [npp] else pps.

Definition new_office (o : office) : moffice :=
  mk_moffice (o_city o) (o_address o) [] [].

(** The body of [for o in f.get("offices", []) or []]; [offices] is
    [mf["offices"]]. *)
Definition merge_office (offices : odict moffice) (o : office) : odict moffice :=
  let ok := office_key o in
  let mo := match od_get ok offices with
            | Some mo => mo
            | None => new_office o
            end in
  let city := if negb (truthy_s (mo_city mo)) && truthy_s (o_city o)
              then o_city o else mo_city mo in
  let address := if negb (truthy_s (mo_address mo)) && truthy_s (o_address o)
                 then o_address o else mo_address mo in
  let pps := fold_left merge_profile (o_platform_profiles o)
               (mo_platform_profiles mo) in
  let rm := fold_left merge_review (o_reviews o) (mo_reviews_map mo) in
  od_set ok (mk_moffice city address pps rm) offices.

Definition new_firm (f : firm) : mfirm :=
  mk_mfirm (f_firm_name f) (f_website f)
    (if truthy_s (f_firm_id f) then [or_empty (f_firm_id f)] else []) [].

(** The body of [for f in ds.get("firms", []) or []]. *)
Definition merge_firm (firms_map : odict mfirm) (f : firm) : odict mfirm :=
  let fk := firm_key f in
  let mf := match od_get fk firms_map with
            | Some mf => mf
            | None => new_firm f
            end in
  let name :=
    if truthy_s (f_firm_name f)
       && (negb (truthy_s (mf_firm_name mf))
           || (len (or_empty (mf_firm_name mf))
               <? len (or_empty (f_firm_name f)))%nat)
    then f_firm_name f else mf_firm_name mf in
  let website := if negb (truthy_s (mf_website mf)) && truthy_s (f_website f)
                 then f_website f else mf_website mf in
  let ids := if truthy_s (f_firm_id f)
             then set_add (or_empty (f_firm_id f)) (mf_firm_ids mf)
             else mf_firm_ids mf in
  let offices := fold_left merge_office (f_offices f) (mf_offices mf) in
  od_set fk (mk_mfirm name website ids offices) firms_map.

(** The first loop of [merge_datasets]: the index after all sources. *)
Definition merge_index (datasets : list (str * dataset)) : odict mfirm :=
  fold_left (fun firms_map src => fold_left merge_firm (snd src) firms_map)
    datasets [].

(** ** The dataset finaliser *)

(** The key of [sorted(fid_candidates, key=lambda x: (len(x), x))]. *)
Definition id_lt (x y : str) : bool :=
  if negb (len x =? len y)%nat then (len x <? len y)%nat
  else str_ltb x y.

(** One step of the loop that removes repeated platform profiles; the keys
    seen so far are those of the profiles kept so far. *)
Definition dedup_profile (pps : list (str * option str)) (pp : str * option str)
  : list (str * option str) :=
  if existsb (fun q => str_eqb (fst q) (fst pp)
                       && opt_str_eqb (snd q) (snd pp)) pps
  then pps
  else if truthy_s (snd pp) then pps ++ [pp] else pps.

Definition finalize_office (o : moffice) : office_obj :=
  let pps := fold_left dedup_profile (mo_platform_profiles o) [] in
  let reviews := od_values (mo_reviews_map o) in
  mk_office_obj
    (if truthy_s (mo_city o) then mo_city o else None)
    (if truthy_s (mo_address o) then mo_address o else None)
    (match pps with [] => None | _ :: _ => Some pps end)
    reviews.

Definition office_platforms (platforms : list str) (o : moffice) : list str :=
  fold_left (fun acc r => if truthy_s (platform r)
                          then set_add (or_empty (platform r)) acc else acc)
    (od_values (mo_reviews_map o)) platforms.

Definition office_cities (cities : list str) (o : moffice) : list str :=
  if truthy_s (mo_city o) then set_add (or_empty (mo_city o)) cities else cities.

Definition finalize_firm (f : mfirm) : firm_obj :=
  let base :=
    if truthy_s (mf_website f)
    then slugify (before_sep 47 (strip_scheme (or_empty (mf_website f))))
    else slugify (if truthy_s (mf_firm_name f) then or_empty (mf_firm_name f)
                  else u "unknown") in
  let fid_candidates := filter nonempty (mf_firm_ids f) in
  let firm_id := match py_sorted id_lt fid_candidates with
                 | x :: _ => x
                 | [] => base
                 end in
  let offices := od_values (mf_offices f) in
  let offices_out := map finalize_office offices in
  let reviews_total :=
    fold_left (fun n o => (n + List.length (od_values (mo_reviews_map o)))%nat)
      offices 0%nat in
  let platforms := fold_left office_platforms offices [] in
  let cities := fold_left office_cities offices [] in
  mk_firm_obj firm_id (mf_firm_name f) offices_out
    (mk_summary reviews_total (py_sorted str_ltb platforms)
       (py_sorted str_ltb cities)
       (if (reviews_total =? 0)%nat
        then Some [u "No reviews present in merged sources."] else None))
    (if truthy_s (mf_website f) then mf_website f else None).

Definition merge_datasets (datasets : list (str * dataset))
  : list firm_obj * dataset_quality :=
  let firms_map := merge_index datasets in
  let merged_firms := map finalize_firm (od_values firms_map) in
  let total x := reviews_collected_total (fo_collection_summary x) in
  (merged_firms,
   mk_quality (List.length merged_firms)
     (fold_left (fun n x => (n + total x)%nat) merged_firms 0%nat)
     (map fo_firm_id
        (filter (fun x => (total x <? REVIEWS_PER_FIRM_MIN)%nat) merged_firms))
     [u "Merged from provided JSON sources; public review availability varies widely by firm."]).

(** ** The analysis engine *)

Definition rating_to5 (r : review) : result (option float) :=
  let rv := rating_value r in
  let rs := rating_scale r in
  match as_number rv, as_number rs with
  | Some a, Some b =>
      if num_truthy b
      then x <- truediv a b ;; Ok (Some (fmul x (float_of_int 5)))
      else Ok None
  | _, _ => Ok None
  end.

(** The keyword taxonomy, in the order of its declaration. *)
Definition TAX : odict (list str) :=
  [ (u "communication_responsiveness",
      [u "komunik"; u "neodpov"; u "email"; u "telefon"; u "call"; u "reply";
       u "respond"; u "dovolat"]);
    (u "professionalism_competence",
      [u "profesion"; u "expert"; u "kvalit"; u "professionals"; u "excellent";
       u "brilliant"; u "neprofesion"; u "lajd"]);
    (u "ethics_trust",
      [u "etika"; u "ethic"; u "nefér"; u "podvod"; u "lži"; u "lies";
       u "slander"; u "dirty"; u "zneuž"; u "zatajuj"; u "neserióz";
       u "without ethics"]);
    (u "fees_value_transparency",
      [u "cena"; u "náklad"; u "cost"; u "fees"; u "price"; u "záloha";
       u "prachy"; u "peníze"; u "value"; u "finance"; u "majetek"]);
    (u "speed_timeliness",
      [u "rychl"; u "fast"; u "delay"; u "zpožd"; u "roky"; u "late"; u "pozd";
       u "nikam se nepohnul"]);
    (u "outcome_effectiveness",
      [u "vyřeš"; u "solution"; u "help"; u "pomoc"; u "nepomoh"; u "result";
       u "success"; u "spravedlnost"; u "pokrok"]);
    (u "empathy_human_approach",
      [u "přístup"; u "human"; u "arrog"; u "arogant"; u "poniž"; u "zesměš";
       u "unpleasant"; u "reception"]);
    (u "enforcement_debt_mass_mail",
      [u "dluh"; u "vymáh"; u "exekuc"; u "pojist"; u "předžalob"; u "automatiz";
       u "picrights"; u "copyright"; u "mass"; u "threat"]) ].

(** [any(kw.lower() in t for kw in kws)] *)
Definition matches (t : str) (kws : list str) : bool :=
  existsb (fun kw => contains (lower kw) t) kws.

Definition categorize (text : str) : list str :=
  let t := norm_text text in
  if negb (nonempty t) then []
  else
    let out := map fst (filter (fun entry => matches t (snd entry)) TAX) in
    firstn 3 out.

Record firm_stat := mk_firm_stat {
  fs_firm_id : str;
  fs_firm_name : option str;
  reviews_n : nat;
  ratings_n : nat;
  avg_rating_5 : option float;
  scored_n : nat;
  avg_sentiment_score : option float
}.

(** [c[k] += 1] on a [Counter]. *)
Definition counter_incr (k : str) (c : odict nat) : odict nat :=
  od_set k (match od_get k c with Some n => n + 1 | None => 1 end)%nat c.

(** [r.get("sentiment_label") or "unknown"] *)
Definition label_of (r : review) : str :=
  if truthy_s (sentiment_label r) then or_empty (sentiment_label r)
  else u "unknown".

(** [[x for x in l if x is not None]] *)
Definition somes {A : Type} (l : list (option A)) : list A :=
  flat_map (fun x => match x with Some a => [a] | None => [] end) l.

(** [(sum(l) / len(l)) if l else None] *)
Definition average (l : list num) : result (option float) :=
  match l with
  | [] => Ok None
  | _ :: _ =>
      x <- truediv (py_sum l) (NInt (Z.of_nat (List.length l))) ;; Ok (Some x)
  end.

Definition firm_reviews (f : firm_obj) : list review :=
  flat_map oo_reviews (fo_offices f).

(** The body of [for f in merged_firms], on the statistics collected so far
    and the global sentiment counter.  The theme counters and the quotes,
    which no other output reads, are left out of the model. *)
Definition analyse_firm (st : list firm_stat * odict nat) (f : firm_obj)
  : result (list firm_stat * odict nat) :=
  let reviews := firm_reviews f in
  ratings <- mapM rating_to5 reviews ;;
  let ratings := somes ratings in
  let sentiments := somes (map (fun r => as_number (sentiment_score r)) reviews) in
  let sentiment_dist :=
    fold_left (fun c r => counter_incr (label_of r) c) reviews (snd st) in
  avg_r <- average (map NFloat ratings) ;;
  avg_s <- average sentiments ;;
  Ok (fst st ++ [mk_firm_stat (fo_firm_id f) (fo_firm_name f)
                   (List.length reviews) (List.length ratings) avg_r
                   (List.length sentiments) avg_s],
      sentiment_dist).

Fixpoint foldM {A B : Type} (f : A -> B -> result A) (l : list B) (a : A)
  : result A :=
  match l with
  | [] => Ok a
  | b :: r => a' <- f a b ;; foldM f r a'
  end.

(** [<] on the sort keys [(-average, -n, firm_name or "")], as Python compares
    tuples: at the first component that differs. *)
Definition rank_key : Type := float * Z * str.

Definition rank_key_lt (k1 k2 : rank_key) : bool :=
  let '(a1, n1, s1) := k1 in
  let '(a2, n2, s2) := k2 in
  if negb (feqb a1 a2) then fltb a1 a2
  else if negb (n1 =? n2)%Z then (n1 <? n2)%Z
  else str_ltb s1 s2.

(** A ranked firm: its statistics with the average and the sample size the
    ranking is about. *)
Record candidate := mk_candidate {
  c_stat : firm_stat;
  c_avg : float;
  c_n : nat
}.

Definition candidate_key (c : candidate) : rank_key :=
  (fneg (c_avg c), (- Z.of_nat (c_n c))%Z, or_empty (fs_firm_name (c_stat c))).

Definition candidate_lt (x y : candidate) : bool :=
  rank_key_lt (candidate_key x) (candidate_key y).

(** [[x for x in firm_stats if n(x) >= 3 and avg(x) is not None]] *)
Definition qualifying (n : firm_stat -> nat) (avg : firm_stat -> option float)
    (firm_stats : list firm_stat) : list candidate :=
  flat_map (fun x => match avg x with
                     | Some a => if (3 <=? n x)%nat then [mk_candidate x a (n x)] else []
                     | None => []
                     end) firm_stats.

(** The list above after [.sort(key=...)]. *)
Definition rank_by (n : firm_stat -> nat) (avg : firm_stat -> option float)
    (firm_stats : list firm_stat) : list candidate :=
  py_sorted candidate_lt (qualifying n avg firm_stats).

(** [round(x, ndigits)] *)
Variable py_round : float -> Z -> float.

Record ranking_entry := mk_entry {
  re_firm_id : str;
  re_firm_name : option str;
  re_score : float;
  re_n : nat;
  re_reviews_n : nat
}.

Definition entry_of (c : candidate) : ranking_entry :=
  mk_entry (fs_firm_id (c_stat c)) (fs_firm_name (c_stat c))
    (py_round (c_avg c) 3) (c_n c) (reviews_n (c_stat c)).

Record coverage := mk_coverage {
  firms_total : nat;
  reviews_total : nat;
  reviews_with_text : nat;
  reviews_with_rating : nat;
  cov_platforms_used : list str;
  cov_cities_covered : list str
}.

Record analysis := mk_analysis {
  a_coverage : coverage;
  by_avg_rating_5 : list ranking_entry;
  by_avg_sentiment_score : list ranking_entry;
  sentiment_distribution : odict nat;
  limitations : list str
}.

Definition build_analysis (merged_firms : list firm_obj)
    (dq : dataset_quality) (skipped_sources : list str) : result analysis :=
  st <- foldM analyse_firm merged_firms ([], []) ;;
  let firm_stats := fst st in
  let sentiment_dist := snd st in
  let rank_by_rating := rank_by ratings_n avg_rating_5 firm_stats in
  let rank_by_sent := rank_by scored_n avg_sentiment_score firm_stats in
  let all_reviews := flat_map firm_reviews merged_firms in
  rated <- mapM rating_to5 all_reviews ;;
  let cov :=
    mk_coverage (firms_collected dq) (reviews_collected dq)
      (List.length (filter (fun r => nonempty (strip (or_empty (review_text r))))
                      all_reviews))
      (List.length (somes rated))
      (py_sorted str_ltb
         (fold_left (fun s r => if truthy_s (platform r)
                                then set_add (or_empty (platform r)) s else s)
            all_reviews []))
      (py_sorted str_ltb
         (fold_left (fun s o => if truthy_s (oo_city o)
                                then set_add (or_empty (oo_city o)) s else s)
            (flat_map fo_offices merged_firms) [])) in
  Ok (mk_analysis cov
        (map entry_of (firstn 30 rank_by_rating))
        (map entry_of (firstn 30 rank_by_sent))
        sentiment_dist
        (map (fun x => u "Skipped invalid JSON input: " ++ x) skipped_sources
         ++ [u "Most firms have limited or zero publicly captured reviews in the provided inputs; rankings may be unstable for low n."])).

End Script.

(** ** Runtimes for worked examples *)

(** IEEE 754 binary64, the [float] of CPython.  The quotient of two integers
    is rounded once, as [int.__truediv__] does.  (CPython raises
    [OverflowError] where this conversion gives an infinity.) *)
Definition sf_of_int (z : Z) : SpecFloat.spec_float :=
  match z with
  | Z0 => SpecFloat.S754_zero false
  | Zpos p => SpecFloat.S754_finite false p 0
  | Zneg p => SpecFloat.S754_finite true p 0
  end.

Definition ieee : PyFloat := {|
  float := PrimFloat.float;
  float_of_int z :=
    FloatOps.SF2Prim (SpecFloat.binary_normalize FloatOps.prec FloatOps.emax z 0 false);
  int_truediv a b :=
    FloatOps.SF2Prim (SpecFloat.SFdiv FloatOps.prec FloatOps.emax (sf_of_int a) (sf_of_int b));
  fdiv := PrimFloat.div;
  fmul := PrimFloat.mul;
  fadd := PrimFloat.add;
  fneg := PrimFloat.opp;
  feqb := PrimFloat.eqb;
  fltb := PrimFloat.ltb
|}.

(** Exact rational arithmetic on reduced fractions: the numbers of the JSON
    documents without rounding. *)
Definition exact : PyFloat := {|
  float := QArith_base.Q;
  float_of_int z := QArith_base.inject_Z z;
  int_truediv a b :=
    Qreduction.Qred (QArith_base.Qdiv (QArith_base.inject_Z a) (QArith_base.inject_Z b));
  fdiv x y := Qreduction.Qred (QArith_base.Qdiv x y);
  fmul x y := Qreduction.Qred (QArith_base.Qmult x y);
  fadd x y := Qreduction.Qred (QArith_base.Qplus x y);
  fneg x := QArith_base.Qopp x;
  feqb x y := QArith_base.Qeq_bool x y;
  fltb x y := negb (QArith_base.Qle_bool y x)
|}.

(** [round(x, ndigits)] on rationals: to the nearest multiple of
    [10^-ndigits], halves to the even one. *)
Definition exact_round (x : QArith_base.Q) (ndigits : Z) : QArith_base.Q :=
  let scale := if (0 <=? ndigits)%Z
               then QArith_base.inject_Z (10 ^ ndigits)
               else QArith_base.Qinv (QArith_base.inject_Z (10 ^ (- ndigits))) in
  let y := QArith_base.Qmult x scale in
  let n := Qround.Qfloor y in
  let twice_frac := QArith_base.Qmult (QArith_base.inject_Z 2)
                      (QArith_base.Qminus y (QArith_base.inject_Z n)) in
  let one := QArith_base.inject_Z 1 in
  let r := if negb (QArith_base.Qle_bool one twice_frac) then n
           else if negb (QArith_base.Qle_bool twice_frac one) then (n + 1)%Z
           else if Z.even n then n else (n + 1)%Z in
  Qreduction.Qred (QArith_base.Qdiv (QArith_base.inject_Z r) scale).

(** The character database on the Czech alphabet, the language of the
    reviews: the accented Czech letters with their lower case and their
    decomposition, and the combining marks U+0300 to U+0314.  Every other
    character is taken as caseless and undecomposable. *)
Definition czech_upper_latin1 (c : char) : bool :=
  existsb (N.eqb c) [193; 201; 205; 211; 218; 221].

Definition czech_upper_ext (c : char) : bool :=
  existsb (N.eqb c) [268; 270; 282; 327; 344; 352; 356; 366; 381].

Definition czech_lower_cp (c : char) : char :=
  if czech_upper_latin1 c then c + 32
  else if czech_upper_ext c then c + 1
  else c.

Definition czech_decomp : list (char * str) :=
  [ (225, [97; 769]); (233, [101; 769]); (237, [105; 769]); (243, [111; 769]);
    (250, [117; 769]); (253, [121; 769]); (269, [99; 780]); (271, [100; 780]);
    (283, [101; 780]); (328, [110; 780]); (345, [114; 780]); (353, [115; 780]);
    (357, [116; 780]); (367, [117; 778]); (382, [122; 780]);
    (193, [65; 769]); (201, [69; 769]); (205, [73; 769]); (211, [79; 769]);
    (218, [85; 769]); (221, [89; 769]); (268, [67; 780]); (270, [68; 780]);
    (282, [69; 780]); (327, [78; 780]); (344, [82; 780]); (352, [83; 780]);
    (356, [84; 780]); (366, [85; 778]); (381, [90; 780]) ].

Definition czech_db : UnicodeDB := {|
  db_lower _ c _ := [czech_lower_cp c];
  db_decomp c :=
    match find (fun e => fst e =? c) czech_decomp with
    | Some e => snd e
    | None => [c]
    end;
  db_ccc c := if (768 <=? c) && (c <=? 788) then 230 else 0
|}.

(** ** Data of the worked examples *)

(** A review with nothing but a rating. *)
Definition rated {F : PyFloat} (rv rs : json) : review :=
  mk_review None JNull None rv rs None None None None None JNull.

(** ** Auxiliary definitions of the statements *)

(** [n] points when [b] holds. *)
Definition points (b : bool) (n : Z) : Z := if b then n else 0%Z.

(** What [rating_to5] returns, the exception apart. *)
Definition rating_value5 {F : PyFloat} (r : review) : option float :=
  match rating_to5 r with
  | Ok x => x
  | Raise _ => None
  end.

(** The invariant of a review map: keys are unique, and every review is
    stored under its own dedup key. *)
Definition review_map_ok {F : PyFloat} (key : review -> str)
    (rm : odict review) : Prop :=
  NoDup (od_keys rm) /\ Forall (fun kr => key (snd kr) = fst kr) rm.

Definition offices_ok {F : PyFloat} (key : review -> str)
    (offices : odict moffice) : Prop :=
  Forall (fun ko => review_map_ok key (mo_reviews_map (snd ko))) offices.

Definition index_ok {F : PyFloat} (key : review -> str)
    (firms_map : odict mfirm) : Prop :=
  Forall (fun kf => offices_ok key (mf_offices (snd kf))) firms_map.

(** [sum(c.values())] of a counter. *)
Definition counter_total (c : odict nat) : nat :=
  fold_right Nat.add 0%nat (od_values c).

(** What [average] returns, the exception apart. *)
Definition average_value {F : PyFloat} (l : list num) : option float :=
  match average l with
  | Ok x => x
  | Raise _ => None
  end.

(** The statistics [analyse_firm] appends for a firm. *)
Definition firm_stat_of {F : PyFloat} (f : firm_obj) : firm_stat :=
  let reviews := firm_reviews f in
  let ratings := somes (map rating_value5 reviews) in
  let sentiments := somes (map (fun r => as_number (sentiment_score r)) reviews) in
  mk_firm_stat (fo_firm_id f) (fo_firm_name f) (List.length reviews)
    (List.length ratings) (average_value (map NFloat ratings))
    (List.length sentiments) (average_value sentiments).

(** The sentiment counter after the reviews [l]. *)
Definition tally {F : PyFloat} (l : list review) (c : odict nat) : odict nat :=
  fold_left (fun c r => counter_incr (label_of r) c) l c.

(** [c[k]] of a counter: 0 for a key it does not hold. *)
Definition counter_get (k : str) (c : odict nat) : nat :=
  match od_get k c with Some n => n | None => 0%nat end.

(** The number of reviews of [l] tallied under the label [lab]. *)
Definition count_label {F : PyFloat} (lab : str) (l : list review) : nat :=
  List.length (filter (fun r => str_eqb (label_of r) lab) l).

(** What [build_analysis] returns, the exception apart. *)
Definition analysis_of {F : PyFloat} (py_round : float -> Z -> float)
    (merged_firms : list firm_obj) (dq : dataset_quality)
    (skipped_sources : list str) : analysis :=
  let firm_stats := map firm_stat_of merged_firms in
  let all_reviews := flat_map firm_reviews merged_firms in
  mk_analysis
    (mk_coverage (firms_collected dq) (reviews_collected dq)
       (List.length (filter (fun r => nonempty (strip (or_empty (review_text r))))
                       all_reviews))
       (List.length (somes (map rating_value5 all_reviews)))
       (py_sorted str_ltb
          (fold_left (fun s r => if truthy_s (platform r)
                                 then set_add (or_empty (platform r)) s else s)
             all_reviews []))
       (py_sorted str_ltb
          (fold_left (fun s o => if truthy_s (oo_city o)
                                 then set_add (or_empty (oo_city o)) s else s)
             (flat_map fo_offices merged_firms) [])))
    (map (entry_of py_round) (firstn 30 (rank_by ratings_n avg_rating_5 firm_stats)))
    (map (entry_of py_round)
       (firstn 30 (rank_by scored_n avg_sentiment_score firm_stats)))
    (tally all_reviews [])
    (map (fun x => u "Skipped invalid JSON input: " ++ x) skipped_sources
     ++ [u "Most firms have limited or zero publicly captured reviews in the provided inputs; rankings may be unstable for low n."]).

(** [s.split()]: the maximal runs of characters that are not whitespace.
    [cur_rev] is the word being read, reversed. *)
Fixpoint split_ws (cur_rev : str) (s : str) : list str :=
  match s with
  | [] => match cur_rev with [] => [] | _ :: _ => [rev cur_rev] end
  | c :: r =>
      if isspace c then
        match cur_rev with
        | [] => split_ws [] r
        | _ :: _ => rev cur_rev :: split_ws [] r
        end
      else split_ws (c :: cur_rev) r
  end.

Definition words (s : str) : list str := split_ws [] s.

(** [sep.join(l)] *)
Fixpoint join (sep : str) (l : list str) : str :=
  match l with
  | [] => []
  | w :: r => match r with [] => w | _ :: _ => w ++ sep ++ join sep r end
  end.

(** The normalisation the specification words: the words of the text, each
    separated by one space, in lower case. *)
Definition norm_text_spec {U : UnicodeDB} (t : str) : str :=
  lower (join (u " ") (words t)).

(** Removal of the characters [p] from the right end, by recursion on the
    text. *)
Fixpoint rstrip_rec (p : char -> bool) (s : str) : str :=
  match s with
  | [] => []
  | c :: r =>
      match rstrip_rec p r with
      | [] => if p c then [] else [c]
      | r' => c :: r'
      end
  end.

(** Decomposition followed by the removal of the combining marks, as
    [slugify] does it: what remains of a text when its diacritics are
    ignored. *)
Definition strip_marks {U : UnicodeDB} (s : str) : str :=
  filter (fun ch => combining ch =? 0) (nfkd s).

(** [a] is [b] with some elements left out, the order kept. *)
Inductive Subseq {A : Type} : list A -> list A -> Prop :=
| Subseq_nil : Subseq [] []
| Subseq_skip a b x : Subseq a b -> Subseq a (x :: b)
| Subseq_keep a b x : Subseq a b -> Subseq (x :: a) (x :: b).

(** The categories of the taxonomy one of whose keywords occurs in the
    normalised text [t], in the order of the taxonomy. *)
Definition matched_categories {U : UnicodeDB} (t : str) : list str :=
  map fst (filter (fun entry => matches t (snd entry)) TAX).

(** The keywords of a category. *)
Definition keywords_of (cat : str) : list str :=
  match od_get cat TAX with Some kws => kws | None => [] end.

Definition empathy : str := u "empathy_human_approach".

Definition is_ascii (c : char) : bool := c <? 128.

(** A text about arrogance that also mentions e-mail, experts and prices. *)
Definition crowded_text : str := u "email expert cena arogantní přístup".

(** The entries of the taxonomy declared before [empathy_human_approach]. *)
Definition before_empathy : odict (list str) := firstn 6 TAX.

Definition solid (s : str) : bool := forallb (fun c => negb (isspace c)) s.

(** [x] may stand before [y] in a list sorted by [lt]: [y] is not smaller
    than [x]. *)
Definition not_after {A : Type} (lt : A -> A -> bool) (x y : A) : Prop :=
  lt y x = false.

(** [x] is shorter than [y], or as long and not after it in the order of
    strings. *)
Definition id_le (x y : str) : Prop :=
  (len x < len y)%nat \/ (len x = len y /\ (x = y \/ str_ltb x y = true)).

(** The part of a website the slug is made of: what stands before the first
    slash once a leading [http://] or [https://] is removed. *)
Definition host_component (website : str) : str :=
  before_sep 47 (strip_scheme website).

(** The slug as the specification words it: diacritics stripped, every run of
    characters that are not ASCII letters or digits collapsed to one hyphen,
    hyphens trimmed from both ends, lower-cased, "unknown" when empty. *)
Definition slug_spec {U : UnicodeDB} (s : str) : str :=
  let stripped := filter (fun ch => combining ch =? 0) (flat_map decomp_cp s) in
  let collapsed := sub_plus (fun c => negb (is_ascii_alnum c)) (u "-") false stripped in
  let trimmed := strip_by is_hyphen collapsed in
  let lowered := map ascii_lower trimmed in
  if nonempty lowered then lowered else u "unknown".

(** A text of ASCII letters, digits and hyphens in which no hyphen follows a
    hyphen; [prev_hyphen] tells that a hyphen stands before the text. *)
Fixpoint slug_shape (prev_hyphen : bool) (z : str) : bool :=
  match z with
  | [] => true
  | c :: r =>
      if is_hyphen c then negb prev_hyphen && slug_shape true r
      else is_ascii_alnum c && slug_shape false r
  end.

Definition is_slug_char (c : char) : bool :=
  is_ascii_lower c || is_ascii_digit c || is_hyphen c.

(** The comparisons of [float] on values that are not NaN: [==] is
    symmetric, [<] is asymmetric, two values are equal or one is smaller, and
    negation reverses the order. *)
Class FloatOrder (F : PyFloat) : Prop := {
  feqb_sym : forall x y : float, feqb x y = feqb y x;
  fltb_asym : forall x y : float, fltb x y = true -> fltb y x = false;
  fltb_total : forall x y : float, feqb x y = false -> fltb x y = false -> fltb y x = true;
  fneg_ltb : forall x y : float, fltb (fneg x) (fneg y) = fltb y x;
  fneg_eqb : forall x y : float, feqb (fneg x) (fneg y) = feqb x y
}.

(** [x] ranks before [y]: its average is greater, or the averages are equal
    and its sample is larger, or these are equal too and its name is not
    after the name of [y]. *)
Definition ranks_before {F : PyFloat} (x y : candidate) : Prop :=
  fltb (c_avg y) (c_avg x) = true
  \/ (feqb (c_avg x) (c_avg y) = true
      /\ ((c_n y < c_n x)%nat
          \/ (c_n x = c_n y
              /\ (or_empty (fs_firm_name (c_stat x)) = or_empty (fs_firm_name (c_stat y))
                  \/ str_ltb (or_empty (fs_firm_name (c_stat x)))
                       (or_empty (fs_firm_name (c_stat y))) = true)))).

(** What the specification says of a ranking [entries] by the sample size
    [n] and the average [avg]: there is an arrangement [ranked] of exactly the
    firms with a sample of at least 3, each with its average, sorted by
    [ranks_before], and the entries are its first 30 elements with the score
    rounded to 3 decimal places. *)
Definition ranking_spec {F : PyFloat} (py_round : float -> Z -> float)
    (n : firm_stat -> nat) (avg : firm_stat -> option float)
    (firm_stats : list firm_stat) (entries : list ranking_entry) : Prop :=
  exists ranked : list candidate,
    Permutation ranked (qualifying n avg firm_stats)
    /\ (forall c, In c ranked <->
                  exists x, In x firm_stats /\ (3 <= n x)%nat
                            /\ avg x = Some (c_avg c)
                            /\ c = mk_candidate x (c_avg c) (n x))
    /\ Sorted ranks_before ranked
    /\ entries = map (fun c => mk_entry (fs_firm_id (c_stat c))
                                 (fs_firm_name (c_stat c))
                                 (py_round (c_avg c) 3%Z) (c_n c)
                                 (reviews_n (c_stat c)))
                   (firstn 30 ranked).

(** A firm with one office and the given reviews. *)
Definition firm_with {F : PyFloat} (id : str) (reviews : list review) : firm_obj :=
  mk_firm_obj id (Some id) [mk_office_obj None None None reviews]
    (mk_summary (List.length reviews) [] [] None) None.

(** Thirty-one firms, "f01" to "f31", each with three reviews rated 5 of 5. *)
Definition two_digits (k : nat) : str :=
  [N.of_nat (48 + k / 10)%nat; N.of_nat (48 + k mod 10)%nat].

Definition numbered_firm {F : PyFloat} (k : nat) : firm_obj :=
  firm_with (u "f" ++ two_digits k)
    [rated (JInt 5) (JInt 5); rated (JInt 5) (JInt 5); rated (JInt 5) (JInt 5)].

Definition thirty_one_firms {F : PyFloat} : list firm_obj :=
  map numbered_firm (seq 1 31).

(** Two firms: one with three rated reviews, one with two. *)
Definition two_firms {F : PyFloat} : list firm_obj :=
  [ firm_with (u "three")
      [rated (JInt 4) (JInt 5); rated (JInt 5) (JInt 5); rated (JInt 3) (JInt 5)];
    firm_with (u "two") [rated (JInt 5) (JInt 5); rated (JInt 5) (JInt 5)] ].

Definition quality_of {F : PyFloat} (firms : list firm_obj) : dataset_quality :=
  mk_quality (List.length firms) (List.length (flat_map firm_reviews firms)) [] [].

(** The firm and the office the merge of [datasets] holds under the keys
    [fk] and [ok], and the office as it is exported. *)
Definition merged_firm {F : PyFloat} {U : UnicodeDB} (sha1_hexdigest : str -> str)
    (float_repr : float -> str) (datasets : list (str * dataset)) (fk : str)
  : option mfirm :=
  od_get fk (merge_index sha1_hexdigest float_repr datasets).

Definition merged_office {F : PyFloat} {U : UnicodeDB} (sha1_hexdigest : str -> str)
    (float_repr : float -> str) (datasets : list (str * dataset)) (fk ok : str)
  : option moffice :=
  match merged_firm sha1_hexdigest float_repr datasets fk with
  | Some mf => od_get ok (mf_offices mf)
  | None => None
  end.

Definition exported_office {F : PyFloat} {U : UnicodeDB} (sha1_hexdigest : str -> str)
    (float_repr : float -> str) (datasets : list (str * dataset)) (fk ok : str)
  : option office_obj :=
  option_map finalize_office (merged_office sha1_hexdigest float_repr datasets fk ok).

(** What [merge_office] stores for an office [mo] of the index met again as
    [o], and [merge_firm] for a firm [mf] met again as [f]. *)
Definition update_office {F : PyFloat} {U : UnicodeDB} (sha1_hexdigest : str -> str)
    (float_repr : float -> str) (mo : moffice) (o : office) : moffice :=
  mk_moffice
    (if negb (truthy_s (mo_city mo)) && truthy_s (o_city o)
     then o_city o else mo_city mo)
    (if negb (truthy_s (mo_address mo)) && truthy_s (o_address o)
     then o_address o else mo_address mo)
    (fold_left merge_profile (o_platform_profiles o) (mo_platform_profiles mo))
    (fold_left (merge_review sha1_hexdigest float_repr) (o_reviews o)
       (mo_reviews_map mo)).

Definition update_firm {F : PyFloat} {U : UnicodeDB} (sha1_hexdigest : str -> str)
    (float_repr : float -> str) (mf : mfirm) (f : firm) : mfirm :=
  mk_mfirm
    (if truthy_s (f_firm_name f)
        && (negb (truthy_s (mf_firm_name mf))
            || (len (or_empty (mf_firm_name mf))
                <? len (or_empty (f_firm_name f)))%nat)
     then f_firm_name f else mf_firm_name mf)
    (if negb (truthy_s (mf_website mf)) && truthy_s (f_website f)
     then f_website f else mf_website mf)
    (if truthy_s (f_firm_id f)
     then set_add (or_empty (f_firm_id f)) (mf_firm_ids mf)
     else mf_firm_ids mf)
    (fold_left (merge_office sha1_hexdigest float_repr) (f_offices f)
       (mf_offices mf)).

(** A source with the firm Acme and its Prague office at [address]. *)
Definition acme_source {F : PyFloat} (website address : str) : str * dataset :=
  (u "source.json",
   [mk_firm (Some (u "Acme")) (Some website) None
      [mk_office (Some (u "Praha")) (Some address) [] []]]).

(** Stand-ins for SHA-1 and for the printing of a float in examples whose
    sources hold no review: neither is called there. *)
Definition no_digest : str -> str := fun s => s.
Definition fraction_repr (q : QArith_base.Q) : str :=
  str_of_int (QArith_base.Qnum q) ++ u "/" ++ str_of_int (Zpos (QArith_base.Qden q)).

(** The index holds, under the given keys, an office (a firm) with the
    property [R]. *)
Definition office_has {F : PyFloat} (R : moffice -> Prop) (ok : str)
    (offices : odict moffice) : Prop :=
  exists mo, od_get ok offices = Some mo /\ R mo.

Definition index_has {F : PyFloat} (R : moffice -> Prop) (fk ok : str)
    (firms_map : odict mfirm) : Prop :=
  exists mf, od_get fk firms_map = Some mf /\ office_has R ok (mf_offices mf).

Definition firm_has {F : PyFloat} (R : mfirm -> Prop) (fk : str)
    (firms_map : odict mfirm) : Prop :=
  exists mf, od_get fk firms_map = Some mf /\ R mf.

(** ** Further definitions of the source *)

Definition PLATFORMS_PRIORITY : list str :=
  [u "Google Maps"; u "Firmy.cz"; u "Facebook"; u "Other"].

(** The firm records of all sources, in the order the merge reads them. *)
Definition all_firms {F : PyFloat} (datasets : list (str * dataset)) : list firm :=
  flat_map snd datasets.

(** The records of the firms with the key [fk]. *)
Definition firms_with_key {F : PyFloat} {U : UnicodeDB} (fk : str)
    (firms : list firm) : list firm :=
  filter (fun f => str_eqb (firm_key f) fk) firms.

(** The distinct elements of a list, in the order of their first
    occurrence. *)
Definition first_occurrences (l : list str) : list str :=
  fold_left (fun acc k => set_add k acc) l [].

(** What the merge has collected for the key [fk], seen through [proj];
    [none] when the index has no firm under the key. *)
Definition collected {F : PyFloat} {A : Type} (proj : mfirm -> A) (none : A)
    (fk : str) (firms_map : odict mfirm) : A :=
  match od_get fk firms_map with
  | Some mf => proj mf
  | None => none
  end.

(** The office records found under the firm key [fk], the non-empty ids and
    the names of its firm records, in the order the merge reads them. *)
Definition office_records {F : PyFloat} {U : UnicodeDB} (fk : str)
    (datasets : list (str * dataset)) : list office :=
  flat_map f_offices (firms_with_key fk (all_firms datasets)).

Definition observed_ids {F : PyFloat} {U : UnicodeDB} (fk : str)
    (datasets : list (str * dataset)) : list str :=
  map (fun f => or_empty (f_firm_id f))
    (filter (fun f => truthy_s (f_firm_id f))
       (firms_with_key fk (all_firms datasets))).

Definition observed_names {F : PyFloat} {U : UnicodeDB} (fk : str)
    (datasets : list (str * dataset)) : list str :=
  map (fun f => or_empty (f_firm_name f)) (firms_with_key fk (all_firms datasets)).

(** The name kept after the name [n] is met: [n] when it is non-empty and
    the name so far is empty or shorter. *)
Definition longer_name (cur n : str) : str :=
  if nonempty n && (negb (nonempty cur) || (len cur <? len n)%nat) then n else cur.

(** Two sources for the worked examples: a firm met twice under one website,
    with ids, names and offices that differ. *)
Definition novak_sources {F : PyFloat} : list (str * dataset) :=
  [ (u "source_1.json",
     [mk_firm (Some (u "Novák")) (Some (u "https://novak.cz")) (Some (u "firm-22"))
        [mk_office None None [] []; mk_office (Some (u "Brno")) None [] []]]);
    (u "source_2.json",
     [mk_firm (Some (u "Novák & spol.")) (Some (u "HTTPS://novak.cz ")) (Some (u "f-9"))
        [mk_office None (Some (u " ")) [] []]]) ].

(** What the merge of [novak_sources] holds under the key of the firm. *)
Definition novak_key : str := u "w:https://novak.cz".

Definition novak_merged {F : PyFloat} : mfirm :=
  mk_mfirm (Some (u "Novák & spol.")) (Some (u "https://novak.cz"))
    [u "firm-22"; u "f-9"]
    [ (u "unknown", mk_moffice None (Some (u " ")) [] []);
      (u "brno", mk_moffice (Some (u "Brno")) None [] []) ].

(** The review records of all sources, in the order the merge reads them. *)
Definition all_reviews {F : PyFloat} (datasets : list (str * dataset))
  : list review :=
  flat_map o_reviews (flat_map f_offices (all_firms datasets)).

(** The number of reviews the index holds. *)
Definition offices_count {F : PyFloat} (offices : odict moffice) : nat :=
  list_sum (map (fun ko => List.length (mo_reviews_map (snd ko))) offices).

Definition index_count {F : PyFloat} (firms_map : odict mfirm) : nat :=
  list_sum (map (fun kf => offices_count (mf_offices (snd kf))) firms_map).

(** Every review the index holds has the property [P]. *)
Definition index_reviews_all {F : PyFloat} (P : review -> Prop)
    (firms_map : odict mfirm) : Prop :=
  Forall (fun kf =>
            Forall (fun ko => Forall (fun kr => P (snd kr)) (mo_reviews_map (snd ko)))
              (mf_offices (snd kf)))
    firms_map.

(** A review with an external id and, possibly, a text. *)
Definition review_with_id {F : PyFloat} (id : str) (text : option str) : review :=
  mk_review (Some (u "google")) (JStr id) None JNull JNull None None text None
    None JNull.

(** A source with the firm Acme, its Prague office and the given reviews. *)
Definition acme_reviews {F : PyFloat} (reviews : list review) : str * dataset :=
  (u "source.json",
   [mk_firm (Some (u "Acme")) (Some (u "https://acme.cz")) None
      [mk_office (Some (u "Praha")) None [] reviews]]).

(** Two sources with the same review of Acme's Prague office, the second
    time with its text. *)
Definition acme_twice {F : PyFloat} : list (str * dataset) :=
  [acme_reviews [review_with_id (u "r9") None];
   acme_reviews [review_with_id (u "r9") (Some (u "Great help"))]].

(** The office [mo] of the index covers the review [r]: it holds under the
    key of [r] a review that is at least as complete. *)
Definition covers {F : PyFloat} {U : UnicodeDB} (sha1_hexdigest : str -> str)
    (float_repr : float -> str) (r : review) (mo : moffice) : Prop :=
  exists st,
    od_get (review_dedupe_key sha1_hexdigest float_repr (normalize_review r))
      (mo_reviews_map mo) = Some st
    /\ (completeness_score (normalize_review r) <= completeness_score st)%Z.

(** The office and the firm record of [acme_reviews]. *)
Definition prague_office {F : PyFloat} (reviews : list review) : office :=
  mk_office (Some (u "Praha")) None [] reviews.

Definition acme_firm {F : PyFloat} (reviews : list review) : firm :=
  mk_firm (Some (u "Acme")) (Some (u "https://acme.cz")) None
    [prague_office reviews].

(** The platform profile records of all sources. *)
Definition all_profiles {F : PyFloat} (datasets : list (str * dataset))
  : list profile :=
  flat_map o_platform_profiles (flat_map f_offices (all_firms datasets)).

(** Every office the index holds has the property [Q]. *)
Definition index_offices_all {F : PyFloat} (Q : moffice -> Prop)
    (firms_map : odict mfirm) : Prop :=
  Forall (fun kf => Forall (fun ko => Q (snd ko)) (mf_offices (snd kf)))
    firms_map.

(** A stored profile comes from a profile record of the sources with a
    non-empty URL, and its platform is a canonical name. *)
Definition profile_ok {F : PyFloat} {U : UnicodeDB}
    (datasets : list (str * dataset)) (pp : str * option str) : Prop :=
  In (fst pp) PLATFORMS_PRIORITY
  /\ truthy_s (snd pp) = true
  /\ exists p, In p (all_profiles datasets) /\ pp = normalize_profile p.

(** Strictly ascending in the order of strings. *)
Definition ascending (l : list str) : Prop :=
  StronglySorted (fun x y => str_ltb x y = true) l.

(** A source whose office lists one profile twice, under two spellings of
    the platform, and a profile without URL; and what the merge exports
    for it. *)
Definition acme_profiles {F : PyFloat} : list (str * dataset) :=
  [ (u "source.json",
     [mk_firm (Some (u "Acme")) (Some (u "https://acme.cz")) None
        [mk_office (Some (u "Praha")) None
           [mk_profile (Some (u "google")) (Some (u "https://maps.example/acme"));
            mk_profile (Some (u "Google Maps"))
              (Some (u "https://maps.example/acme"));
            mk_profile (Some (u "Facebook")) None]
           [review_with_id (u "r9") None]]]) ].

Definition acme_profiles_office {F : PyFloat} : office_obj :=
  mk_office_obj (Some (u "Praha")) None
    (Some [(u "Google Maps", Some (u "https://maps.example/acme"))])
    [mk_review (Some (u "Google Maps")) (JStr (u "r9")) None JNull JNull None
       None None None None JNull].

Definition acme_profiles_firm {F : PyFloat} : firm_obj :=
  mk_firm_obj (u "acme-cz") (Some (u "Acme")) [acme_profiles_office]
    (mk_summary 1 [u "Google Maps"] [u "Praha"] None)
    (Some (u "https://acme.cz")).

(** A merged review has a canonical platform name. *)
Definition canonical_platform {F : PyFloat} (r : review) : Prop :=
  exists q, platform r = Some q /\ In q PLATFORMS_PRIORITY.

(** [re.findall(r"\S+", s)]: the maximal runs of characters that are not
    whitespace, from left to right. *)
Definition findall_nonspace (s : str) : list str := split_ws [] s.

(** [max_words] is a count of words: the source calls [excerpt] with its
    default, 25, only. *)
Definition excerpt (text : str) (max_words : nat) : option str :=
  if negb (nonempty text) then None
  else
    match findall_nonspace (strip text) with
    | [] => None
    | w :: ws => Some (join (u " ") (firstn max_words (w :: ws)))
    end.

(** A word: not empty and without whitespace. *)
Definition is_word (w : str) : bool := nonempty w && solid w.

(** ** The themes of the analysis *)

(** Truthiness of a [dict] or [Counter]: not empty. *)
Definition od_nonempty {V : Type} (d : odict V) : bool :=
  match d with [] => false | _ :: _ => true end.

(** [Counter.most_common(n)]: the [n] entries with the highest counts, from
    the highest down, entries with equal counts in the order in which they
    entered the counter. *)
Definition most_common (n : nat) (c : odict nat) : list (str * nat) :=
  firstn n (py_sorted (fun x y => (snd y <? snd x)%nat) c).

(** [for c in cats: counter[c] += 1] *)
Definition count_categories (cats : list str) (c : odict nat) : odict nat :=
  fold_left (fun c cat => counter_incr cat c) cats c.

(** [if ex and len(quotes) < 4: quotes.append(ex)] *)
Definition add_quote (ex : option str) (quotes : list str) : list str :=
  match ex with
  | Some e =>
      if nonempty e && (List.length quotes <? 4)%nat then quotes ++ [e]
      else quotes
  | None => quotes
  end.

(** The counters and quotes of one firm, and the counters of all firms,
    while the reviews of the firm are read. *)
Record theme_state := mk_theme_state {
  ts_pos : odict nat;
  ts_neg : odict nat;
  ts_quotes_pos : list str;
  ts_quotes_neg : list str;
  ts_overall_pos : odict nat;
  ts_overall_neg : odict nat
}.

(** The theme part of the body of [for r in reviews]. *)
Definition theme_review {F : PyFloat} {U : UnicodeDB} (st : theme_state)
    (r : review) : theme_state :=
  let lab := label_of r in
  let cats := categorize (or_empty (review_text r)) in
  if str_eqb lab (u "positive") then
    mk_theme_state (count_categories cats (ts_pos st)) (ts_neg st)
      (add_quote (excerpt (or_empty (review_text r)) 25) (ts_quotes_pos st))
      (ts_quotes_neg st)
      (count_categories cats (ts_overall_pos st)) (ts_overall_neg st)
  else if str_eqb lab (u "negative") then
    mk_theme_state (ts_pos st) (count_categories cats (ts_neg st))
      (ts_quotes_pos st)
      (add_quote (excerpt (or_empty (review_text r)) 25) (ts_quotes_neg st))
      (ts_overall_pos st) (count_categories cats (ts_overall_neg st))
  else st.

(** An entry of [themes_by_firm]. *)
Record firm_themes := mk_firm_themes {
  ft_firm_id : str;
  top_positive_categories : list (str * nat);
  top_negative_categories : list (str * nat);
  representative_quotes_positive : list str;
  representative_quotes_negative : list str
}.

Record themes_acc := mk_themes_acc {
  ta_overall_pos : odict nat;
  ta_overall_neg : odict nat;
  ta_themes_by_firm : list firm_themes
}.

(** The theme part of the body of [for f in merged_firms]. *)
Definition theme_firm {F : PyFloat} {U : UnicodeDB} (acc : themes_acc)
    (f : firm_obj) : themes_acc :=
  let st := fold_left theme_review (firm_reviews f)
              (mk_theme_state [] [] [] [] (ta_overall_pos acc)
                 (ta_overall_neg acc)) in
  mk_themes_acc (ts_overall_pos st) (ts_overall_neg st)
    (if od_nonempty (ts_pos st) || od_nonempty (ts_neg st)
     then ta_themes_by_firm acc
          ++ [mk_firm_themes (fo_firm_id f)
                (most_common 5 (ts_pos st)) (most_common 5 (ts_neg st))
                (ts_quotes_pos st) (ts_quotes_neg st)]
     else ta_themes_by_firm acc).

(** The keys [themes_overall] and [themes_by_firm] of what [build_analysis]
    returns. *)
Record themes := mk_themes {
  overall_top_positive : list (str * nat);
  overall_top_negative : list (str * nat);
  themes_by_firm : list firm_themes
}.

Definition build_analysis_themes {F : PyFloat} {U : UnicodeDB}
    (merged_firms : list firm_obj) : themes :=
  let acc := fold_left theme_firm merged_firms (mk_themes_acc [] [] []) in
  mk_themes (most_common 10 (ta_overall_pos acc))
    (most_common 10 (ta_overall_neg acc)) (ta_themes_by_firm acc).

(** The reviews of [reviews] with the sentiment label [lab]. *)
Definition labelled {F : PyFloat} (lab : str) (reviews : list review)
  : list review :=
  filter (fun r => str_eqb (label_of r) lab) reviews.

(** The categories of a review, and the number of reviews of [reviews] that
    have the category [cat]. *)
Definition categories_of {F : PyFloat} {U : UnicodeDB} (r : review) : list str :=
  categorize (or_empty (review_text r)).

Definition category_count {F : PyFloat} {U : UnicodeDB} (cat : str)
    (reviews : list review) : nat :=
  List.length (filter (fun r => existsb (str_eqb cat) (categories_of r)) reviews).

(** The excerpts of the first four reviews of [reviews] that have one. *)
Definition quotes_of {F : PyFloat} (reviews : list review) : list str :=
  firstn 4
    (flat_map (fun r => match excerpt (or_empty (review_text r)) 25 with
                        | Some e => [e]
                        | None => []
                        end) reviews).

(** The review has a category. *)
Definition has_category {F : PyFloat} {U : UnicodeDB} (r : review) : bool :=
  match categories_of r with [] => false | _ :: _ => true end.

(** The firm has a positive or a negative review with a category. *)
Definition has_themes {F : PyFloat} {U : UnicodeDB} (f : firm_obj) : bool :=
  existsb (fun r => (str_eqb (label_of r) (u "positive")
                     || str_eqb (label_of r) (u "negative"))
                    && has_category r)
    (firm_reviews f).

(** From the highest count down. *)
Definition descending (top : list (str * nat)) : Prop :=
  StronglySorted (fun x y => (snd y <= snd x)%nat) top.

(** [top] lists categories of the taxonomy, each once, with the number of
    reviews of [reviews] that have the category, from the highest count
    down; no category it leaves out has a higher count than one it lists. *)
Definition top_of {F : PyFloat} {U : UnicodeDB} (reviews : list review)
    (top : list (str * nat)) : Prop :=
  descending top
  /\ NoDup (map fst top)
  /\ forall c n, In (c, n) top ->
                 In c (od_keys TAX) /\ (1 <= n)%nat
                 /\ n = category_count c reviews
                 /\ forall c', ~ In c' (map fst top) ->
                               (category_count c' reviews <= n)%nat.

(** Two firms for the worked example: one with a positive and a negative
    review that have categories, one whose only review has none. *)
Definition themed_review {F : PyFloat} (label text : str) : review :=
  mk_review (Some (u "Google Maps")) JNull None JNull JNull None None
    (Some text) None (Some label) JNull.

Definition themed_firm {F : PyFloat} (id : str) (reviews : list review)
  : firm_obj :=
  mk_firm_obj id None [mk_office_obj None None None reviews]
    (mk_summary (List.length reviews) [] [] None) None.

Definition themed_firms {F : PyFloat} : list firm_obj :=
  [ themed_firm (u "a")
      [themed_review (u "positive") (u "Fast   and excellent help");
       themed_review (u "negative") (u "No reply")];
    themed_firm (u "b") [themed_review (u "positive") (u "Fine")] ].

(** A counter holds every key once, with a count of at least one. *)
Definition counter_ok (c : odict nat) : Prop :=
  NoDup (od_keys c) /\ Forall (fun kv => (1 <= snd kv)%nat) c.

(** The counter [c] after the categories of the reviews [reviews] are
    counted, and the quotes [quotes] after their excerpts are added. *)
Definition count_reviews {F : PyFloat} {U : UnicodeDB} (reviews : list review)
    (c : odict nat) : odict nat :=
  fold_left (fun c r => count_categories (categories_of r) c) reviews c.

Definition collect_quotes {F : PyFloat} (reviews : list review)
    (quotes : list str) : list str :=
  fold_left (fun q r => add_quote (excerpt (or_empty (review_text r)) 25) q)
    reviews quotes.

(** The entry the loop appends for a firm that has themes. *)
Definition firm_themes_of {F : PyFloat} {U : UnicodeDB} (f : firm_obj)
  : firm_themes :=
  mk_firm_themes (fo_firm_id f)
    (most_common 5
       (count_reviews (labelled (u "positive") (firm_reviews f)) []))
    (most_common 5
       (count_reviews (labelled (u "negative") (firm_reviews f)) []))
    (collect_quotes (labelled (u "positive") (firm_reviews f)) [])
    (collect_quotes (labelled (u "negative") (firm_reviews f)) []).

(** ** Sources met again *)

(** The profile list [pps'] is [pps] followed by profiles that [pps] holds
    already. *)
Definition profiles_extend (pps pps' : list (str * option str)) : Prop :=
  exists extra, pps' = pps ++ extra /\ incl extra pps.

(** Two offices, firms and indexes that differ only by such repeated
    profiles. *)
Definition office_same {F : PyFloat} (mo mo' : moffice) : Prop :=
  mo_city mo' = mo_city mo
  /\ mo_address mo' = mo_address mo
  /\ mo_reviews_map mo' = mo_reviews_map mo
  /\ profiles_extend (mo_platform_profiles mo) (mo_platform_profiles mo').

Definition offices_same {F : PyFloat} (offices offices' : odict moffice) : Prop :=
  Forall2 (fun ko ko' => fst ko' = fst ko /\ office_same (snd ko) (snd ko'))
    offices offices'.

Definition firm_same {F : PyFloat} (mf mf' : mfirm) : Prop :=
  mf_firm_name mf' = mf_firm_name mf
  /\ mf_website mf' = mf_website mf
  /\ mf_firm_ids mf' = mf_firm_ids mf
  /\ offices_same (mf_offices mf) (mf_offices mf').

Definition index_same {F : PyFloat} (firms_map firms_map' : odict mfirm) : Prop :=
  Forall2 (fun kf kf' => fst kf' = fst kf /\ firm_same (snd kf) (snd kf'))
    firms_map firms_map'.

(** The office [mo] of the index has nothing to learn from the record [o],
    and the firm [mf] nothing from the record [f]. *)
Definition office_absorbs {F : PyFloat} {U : UnicodeDB}
    (sha1_hexdigest : str -> str) (float_repr : float -> str)
    (o : office) (mo : moffice) : Prop :=
  (truthy_s (o_city o) = true -> truthy_s (mo_city mo) = true)
  /\ (truthy_s (o_address o) = true -> truthy_s (mo_address mo) = true)
  /\ (forall p, In p (o_platform_profiles o) ->
                truthy_s (pp_source_url p) = true ->
                In (normalize_profile p) (mo_platform_profiles mo))
  /\ (forall r, In r (o_reviews o) -> covers sha1_hexdigest float_repr r mo).

Definition firm_absorbs {F : PyFloat} {U : UnicodeDB}
    (sha1_hexdigest : str -> str) (float_repr : float -> str)
    (f : firm) (mf : mfirm) : Prop :=
  (truthy_s (f_firm_name f) = true ->
   truthy_s (mf_firm_name mf) = true
   /\ (len (or_empty (f_firm_name f)) <= len (or_empty (mf_firm_name mf)))%nat)
  /\ (truthy_s (f_website f) = true -> truthy_s (mf_website mf) = true)
  /\ (truthy_s (f_firm_id f) = true ->
      In (or_empty (f_firm_id f)) (mf_firm_ids mf))
  /\ (forall o, In o (f_offices f) ->
                office_has (office_absorbs sha1_hexdigest float_repr o)
                  (office_key o) (mf_offices mf)).

Definition index_absorbs {F : PyFloat} {U : UnicodeDB}
    (sha1_hexdigest : str -> str) (float_repr : float -> str)
    (firms_map : odict mfirm) (f : firm) : Prop :=
  firm_has (firm_absorbs sha1_hexdigest float_repr f) (firm_key f) firms_map.

(** * Properties *)

(** ** The completeness score *)

Section Completeness.
Context {F : PyFloat}.

Lemma completeness_score_points (r : review) :
  completeness_score r =
  (points (truthy (review_id r)) 4
   + points (truthy_s (date_published r)) 2
   + points (negb (is_none (rating_value r)) && negb (is_none (rating_scale r))) 2
   + points (nonempty (strip (or_empty (review_text r)))) 2
   + points (truthy_s (author_name r)) 1
   + points (truthy_s (source_url r)) 1)%Z.
Proof.
  unfold completeness_score, points.
  destruct (truthy (review_id r)), (truthy_s (date_published r)),
    (negb (is_none (rating_value r)) && negb (is_none (rating_scale r))),
    (nonempty (strip (or_empty (review_text r)))),
    (truthy_s (author_name r)), (truthy_s (source_url r)); reflexivity.
Qed.

Lemma points_bounds (b : bool) (n : Z) : (0 <= n -> 0 <= points b n <= n)%Z.
Proof. destruct b; simpl; lia. Qed.

End Completeness.

(** C3.  The completeness score of a review is the sum of 4 for an external
    review id, 2 for a published date, 2 for a rating value together with a
    rating scale, 2 for a review text that is not blank, 1 for an author name
    and 1 for a source url; it lies between 0 and 12. *)
Theorem completeness_score_is_weighted_sum :
  forall (F : PyFloat) (r : review),
    completeness_score r =
    ((if truthy (review_id r) then 4 else 0)
     + (if truthy_s (date_published r) then 2 else 0)
     + (if negb (is_none (rating_value r)) && negb (is_none (rating_scale r))
        then 2 else 0)
     + (if nonempty (strip (or_empty (review_text r))) then 2 else 0)
     + (if truthy_s (author_name r) then 1 else 0)
     + (if truthy_s (source_url r) then 1 else 0))%Z
    /\ (0 <= completeness_score r <= 12)%Z.
Proof.
  intros F r. rewrite completeness_score_points. split.
  - reflexivity.
  - pose proof (points_bounds (truthy (review_id r)) 4).
    pose proof (points_bounds (truthy_s (date_published r)) 2).
    pose proof (points_bounds
      (negb (is_none (rating_value r)) && negb (is_none (rating_scale r))) 2).
    pose proof (points_bounds (nonempty (strip (or_empty (review_text r)))) 2).
    pose proof (points_bounds (truthy_s (author_name r)) 1).
    pose proof (points_bounds (truthy_s (source_url r)) 1).
    lia.
Qed.

(** ** Rating conversion *)

Section Rating.
Context {F : PyFloat}.

Lemma truediv_ok (a b : num) :
  num_truthy b = true ->
  exists x, truediv a b = Ok x.
Proof.
  intros Hb. unfold truediv. rewrite Hb.
  destruct a, b; eauto.
Qed.

Lemma truediv_raises (a b : num) :
  truediv a b = Raise ZeroDivisionError <-> num_truthy b = false.
Proof.
  unfold truediv. destruct (num_truthy b).
  - split; [destruct a, b|]; discriminate.
  - tauto.
Qed.

Lemma truthy_number (v : json) (b : num) :
  as_number v = Some b -> truthy v = num_truthy b.
Proof.
  destruct v; simpl; intros H; inversion H; subst; simpl; try reflexivity.
  destruct b0; reflexivity.
Qed.

Lemma rating_to5_total (r : review) : rating_to5 r = Ok (rating_value5 r).
Proof.
  unfold rating_value5, rating_to5.
  destruct (as_number (rating_value r)) as [a|]; [|reflexivity].
  destruct (as_number (rating_scale r)) as [b|]; [|reflexivity].
  destruct (num_truthy b) eqn:Hb; [|reflexivity].
  destruct (truediv_ok a b Hb) as [x Hx]. rewrite Hx. reflexivity.
Qed.

Lemma rating_to5_guard (r : review) :
  (exists x, rating_to5 r = Ok (Some x)) <->
  is_number (rating_value r) && is_number (rating_scale r)
  && truthy (rating_scale r) = true.
Proof.
  unfold rating_to5, is_number.
  destruct (as_number (rating_value r)) as [a|] eqn:Ha.
  2:{ simpl. split; [intros [x H]|intros H]; discriminate. }
  destruct (as_number (rating_scale r)) as [b|] eqn:Hb.
  2:{ simpl. split; [intros [x H]|intros H]; discriminate. }
  rewrite (truthy_number _ _ Hb). simpl.
  destruct (num_truthy b) eqn:Hz.
  - destruct (truediv_ok a b Hz) as [x Hx]. rewrite Hx. simpl.
    split; eauto.
  - split; [intros [x H]|intros H]; discriminate.
Qed.

End Rating.


(** ** Strings and ordered dictionaries *)

Lemma str_eqb_eq (a b : str) : str_eqb a b = true <-> a = b.
Proof.
  revert b. induction a as [|x a IH]; intros [|y b]; simpl;
    try (split; (reflexivity || discriminate)).
  rewrite andb_true_iff, N.eqb_eq, IH.
  split; [intros [-> ->]; reflexivity | intros H; inversion H; auto].
Qed.

Lemma str_eqb_refl (a : str) : str_eqb a a = true.
Proof. apply str_eqb_eq. reflexivity. Qed.

Lemma str_eqb_neq (a b : str) : str_eqb a b = false <-> a <> b.
Proof.
  rewrite <- str_eqb_eq. destruct (str_eqb a b); split; congruence.
Qed.

Section ODictFacts.
Context {V : Type}.
Implicit Types (d : odict V) (k : str) (v : V).

Lemma od_get_set_same k v d : od_get k (od_set k v d) = Some v.
Proof.
  induction d as [|[k' v'] d IH]; simpl.
  - rewrite str_eqb_refl. reflexivity.
  - destruct (str_eqb k k') eqn:E; simpl.
    + rewrite str_eqb_refl. reflexivity.
    + rewrite E. exact IH.
Qed.

Lemma od_get_set_other k k' v d :
  k' <> k -> od_get k' (od_set k v d) = od_get k' d.
Proof.
  intros Hne. induction d as [|[k0 v0] d IH]; simpl.
  - apply str_eqb_neq in Hne. rewrite Hne. reflexivity.
  - destruct (str_eqb k k0) eqn:E; simpl.
    + apply str_eqb_eq in E. subst k0.
      apply str_eqb_neq in Hne. rewrite Hne. reflexivity.
    + rewrite IH. reflexivity.
Qed.

Lemma od_get_none_keys k d : od_get k d = None <-> ~ In k (od_keys d).
Proof.
  induction d as [|[k' v'] d IH]; simpl.
  - tauto.
  - destruct (str_eqb k k') eqn:E.
    + apply str_eqb_eq in E. subst. split; [discriminate | intros H; tauto].
    + apply str_eqb_neq in E. rewrite IH. split; intros H; [intros [H1|H1]|];
        auto; congruence.
Qed.

Lemma od_get_in k v d : od_get k d = Some v -> In (k, v) d.
Proof.
  induction d as [|[k' v'] d IH]; simpl; [discriminate|].
  destruct (str_eqb k k') eqn:E.
  - apply str_eqb_eq in E. subst. intros H. inversion H. auto.
  - auto.
Qed.

Lemma in_od_get k v d : NoDup (od_keys d) -> In (k, v) d -> od_get k d = Some v.
Proof.
  induction d as [|[k' v'] d IH]; simpl; [tauto|].
  intros Hnd [H|H].
  - inversion H; subst. rewrite str_eqb_refl. reflexivity.
  - inversion Hnd as [|? ? Hnotin Hnd']; subst.
    destruct (str_eqb k k') eqn:E.
    + apply str_eqb_eq in E. subst. exfalso. apply Hnotin.
      change (In (fst (k', v)) (map fst d)). apply in_map. exact H.
    + auto.
Qed.

(** Assignment overwrites in place or appends. *)
Lemma od_keys_set k v d :
  od_keys (od_set k v d)
  = if od_mem k d then od_keys d else od_keys d ++ [k].
Proof.
  unfold od_mem. induction d as [|[k' v'] d IH]; simpl; [reflexivity|].
  destruct (str_eqb k k') eqn:E; simpl.
  - apply str_eqb_eq in E. subst. reflexivity.
  - rewrite IH. destruct (od_get k d); reflexivity.
Qed.

Lemma od_set_nodup k v d : NoDup (od_keys d) -> NoDup (od_keys (od_set k v d)).
Proof.
  intros Hnd. rewrite od_keys_set. unfold od_mem.
  destruct (od_get k d) eqn:E; [exact Hnd|].
  apply od_get_none_keys in E.
  apply NoDup_rev in Hnd. rewrite <- (rev_involutive (od_keys d ++ [k])).
  apply NoDup_rev. rewrite rev_app_distr. simpl. constructor; [|exact Hnd].
  rewrite <- in_rev. exact E.
Qed.

Lemma od_set_Forall (P : str * V -> Prop) k v d :
  P (k, v) -> Forall P d -> Forall P (od_set k v d).
Proof.
  intros Hkv Hd. induction Hd as [|[k' v'] d Hx Hd IH]; simpl.
  - constructor; [exact Hkv|constructor].
  - destruct (str_eqb k k'); constructor; auto.
Qed.

Lemma od_get_Forall (P : str * V -> Prop) k v d :
  Forall P d -> od_get k d = Some v -> P (k, v).
Proof.
  intros Hd Hg. apply od_get_in in Hg.
  rewrite Forall_forall in Hd. auto.
Qed.

Lemma od_values_set_length k v d :
  List.length (od_values (od_set k v d))
  = if od_mem k d then List.length (od_values d)
    else S (List.length (od_values d)).
Proof.
  unfold od_mem, od_values. induction d as [|[k' v'] d IH]; simpl; [reflexivity|].
  destruct (str_eqb k k') eqn:E; simpl; [reflexivity|].
  rewrite IH. destruct (od_get k d); reflexivity.
Qed.

End ODictFacts.

Lemma fold_left_invariant {A B : Type} (P : A -> Prop) (f : A -> B -> A)
    (l : list B) (a : A) :
  (forall a b, P a -> P (f a b)) -> P a -> P (fold_left f l a).
Proof.
  intros Hstep. revert a. induction l as [|b l IH]; simpl; auto.
Qed.

(** ** Deduplication of reviews *)

Section Dedup.
Context {F : PyFloat} {U : UnicodeDB}.
Variable sha1_hexdigest : str -> str.
Variable float_repr : float -> str.

Local Abbreviation key := (review_dedupe_key sha1_hexdigest float_repr).
Local Abbreviation merge_review' := (merge_review sha1_hexdigest float_repr).
Local Abbreviation merge_office' := (merge_office sha1_hexdigest float_repr).
Local Abbreviation merge_firm' := (merge_firm sha1_hexdigest float_repr).
Local Abbreviation merge_index' := (merge_index sha1_hexdigest float_repr).

Lemma merge_review_absent (rm : odict review) (r : review) :
  od_get (key (normalize_review r)) rm = None ->
  merge_review' rm r = od_set (key (normalize_review r)) (normalize_review r) rm.
Proof. intros H. unfold merge_review. rewrite H. reflexivity. Qed.

Lemma merge_review_present (rm : odict review) (r old : review) :
  od_get (key (normalize_review r)) rm = Some old ->
  od_get (key (normalize_review r)) (merge_review' rm r)
  = Some (if (completeness_score (normalize_review r) >? completeness_score old)%Z
          then normalize_review r else old).
Proof.
  intros H. unfold merge_review. rewrite H.
  destruct (completeness_score (normalize_review r) >? completeness_score old)%Z.
  - apply od_get_set_same.
  - exact H.
Qed.

Lemma merge_review_other (rm : odict review) (r : review) (k' : str) :
  k' <> key (normalize_review r) ->
  od_get k' (merge_review' rm r) = od_get k' rm.
Proof.
  intros Hne. unfold merge_review.
  destruct (od_get (key (normalize_review r)) rm) as [old|].
  - destruct (completeness_score (normalize_review r) >? completeness_score old)%Z;
      [apply od_get_set_other; exact Hne | reflexivity].
  - apply od_get_set_other. exact Hne.
Qed.

Lemma merge_review_ok (rm : odict review) (r : review) :
  review_map_ok key rm -> review_map_ok key (merge_review' rm r).
Proof.
  intros [Hnd Hkeys]. unfold merge_review.
  assert (Hset : review_map_ok key
            (od_set (key (normalize_review r)) (normalize_review r) rm)).
  { split; [apply od_set_nodup; exact Hnd|].
    apply od_set_Forall; [reflexivity | exact Hkeys]. }
  destruct (od_get (key (normalize_review r)) rm) as [old|]; [|exact Hset].
  destruct (completeness_score (normalize_review r) >? completeness_score old)%Z;
    [exact Hset | split; assumption].
Qed.

Lemma merge_office_ok (offices : odict moffice) (o : office) :
  offices_ok key offices -> offices_ok key (merge_office' offices o).
Proof.
  intros Hoff. unfold merge_office, offices_ok.
  apply od_set_Forall; [|exact Hoff]. simpl.
  apply fold_left_invariant; [intros; apply merge_review_ok; assumption|].
  destruct (od_get (office_key o) offices) as [mo|] eqn:E.
  - apply (od_get_Forall _ _ _ _ Hoff E).
  - simpl. split; constructor.
Qed.

Lemma merge_firm_ok (firms_map : odict mfirm) (f : firm) :
  index_ok key firms_map -> index_ok key (merge_firm' firms_map f).
Proof.
  intros Hidx. unfold merge_firm, index_ok.
  apply od_set_Forall; [|exact Hidx]. simpl.
  apply fold_left_invariant; [intros; apply merge_office_ok; assumption|].
  destruct (od_get (firm_key f) firms_map) as [mf|] eqn:E.
  - apply (od_get_Forall _ _ _ _ Hidx E).
  - simpl. constructor.
Qed.

Lemma merge_index_ok (datasets : list (str * dataset)) :
  index_ok key (merge_index' datasets).
Proof.
  unfold merge_index.
  apply fold_left_invariant; [|constructor].
  intros a src Ha.
  apply fold_left_invariant; [intros; apply merge_firm_ok; assumption|exact Ha].
Qed.

Lemma review_map_ok_values (rm : odict review) :
  review_map_ok key rm -> NoDup (map key (od_values rm)).
Proof.
  intros [Hnd Hkeys]. unfold od_values. rewrite map_map.
  replace (map (fun x => key (snd x)) rm) with (od_keys rm); [exact Hnd|].
  unfold od_keys. apply map_ext_in. intros kr Hin.
  rewrite Forall_forall in Hkeys. symmetry. auto.
Qed.

End Dedup.


(** ** The empty merge *)

(** C9.  Merging no source returns no firm and a dataset quality that counts
    0 firms and 0 reviews and lists no firm below the minimum; the merge is a
    total function, so nothing is raised. *)
Theorem merge_datasets_empty :
  forall (F : PyFloat) (U : UnicodeDB) (sha1_hexdigest : str -> str)
         (float_repr : float -> str),
    fst (merge_datasets sha1_hexdigest float_repr []) = []
    /\ firms_collected (snd (merge_datasets sha1_hexdigest float_repr [])) = 0%nat
    /\ reviews_collected (snd (merge_datasets sha1_hexdigest float_repr [])) = 0%nat
    /\ firms_below_min_reviews (snd (merge_datasets sha1_hexdigest float_repr [])) = [].
Proof. intros. repeat split. Qed.

(** ** The analysis divides by no zero *)

Section AnalysisTotal.
Context {F : PyFloat}.

Lemma mapM_total {A B : Type} (f : A -> result B) (g : A -> B) (l : list A) :
  (forall a, f a = Ok (g a)) -> mapM f l = Ok (map g l).
Proof.
  intros Hf. induction l as [|a l IH]; simpl; [reflexivity|].
  rewrite Hf, IH. reflexivity.
Qed.

Lemma average_total (l : list num) : average l = Ok (average_value l).
Proof.
  unfold average_value, average. destruct l as [|a l]; [reflexivity|].
  destruct (truediv_ok (py_sum (a :: l)) (NInt (Z.of_nat (List.length (a :: l)))))
    as [x Hx]; [reflexivity|].
  rewrite Hx. reflexivity.
Qed.

Lemma average_value_nonempty (l : list num) :
  l <> [] -> exists x, average_value l = Some x.
Proof.
  intros Hl. unfold average_value, average. destruct l as [|a l]; [congruence|].
  destruct (truediv_ok (py_sum (a :: l)) (NInt (Z.of_nat (List.length (a :: l)))))
    as [x Hx]; [reflexivity|].
  rewrite Hx. simpl. eauto.
Qed.

Lemma analyse_firm_total (st : list firm_stat * odict nat) (f : firm_obj) :
  analyse_firm st f
  = Ok (fst st ++ [firm_stat_of f], tally (firm_reviews f) (snd st)).
Proof.
  unfold analyse_firm.
  rewrite (mapM_total rating_to5 rating_value5 _ rating_to5_total). simpl.
  rewrite !average_total. reflexivity.
Qed.

Lemma foldM_analyse_firm (firms : list firm_obj) (st : list firm_stat * odict nat) :
  foldM analyse_firm firms st
  = Ok (fst st ++ map firm_stat_of firms,
        tally (flat_map firm_reviews firms) (snd st)).
Proof.
  revert st. induction firms as [|f firms IH]; intros [stats dist]; simpl.
  - rewrite app_nil_r. reflexivity.
  - rewrite analyse_firm_total. simpl. rewrite IH. simpl.
    rewrite <- app_assoc. unfold tally. rewrite fold_left_app. reflexivity.
Qed.

Lemma counter_total_incr (k : str) (c : odict nat) :
  counter_total (counter_incr k c) = S (counter_total c).
Proof.
  unfold counter_incr, counter_total, od_values.
  induction c as [|[k' n] c IH]; simpl; [reflexivity|].
  destruct (str_eqb k k') eqn:E; simpl.
  - lia.
  - rewrite IH. lia.
Qed.

Lemma counter_total_tally (l : list review) (c : odict nat) :
  counter_total (tally l c) = (counter_total c + List.length l)%nat.
Proof.
  unfold tally. revert c. induction l as [|r l IH]; intros c; simpl; [lia|].
  rewrite IH, counter_total_incr. lia.
Qed.

Lemma build_analysis_total (py_round : float -> Z -> float)
    (firms : list firm_obj) (dq : dataset_quality) (skipped : list str) :
  build_analysis py_round firms dq skipped
  = Ok (analysis_of py_round firms dq skipped).
Proof.
  unfold build_analysis, analysis_of.
  rewrite foldM_analyse_firm.
  rewrite (mapM_total rating_to5 rating_value5 _ rating_to5_total).
  reflexivity.
Qed.

End AnalysisTotal.

(** ** The sentiment distribution *)

Section Distribution.
Context {F : PyFloat} {U : UnicodeDB}.
Variable sha1_hexdigest : str -> str.
Variable float_repr : float -> str.

Lemma counter_get_incr (k lab : str) (c : odict nat) :
  counter_get lab (counter_incr k c)
  = (counter_get lab c + if str_eqb k lab then 1 else 0)%nat.
Proof.
  unfold counter_get, counter_incr.
  destruct (str_eqb k lab) eqn:E.
  - apply str_eqb_eq in E. subst lab. rewrite od_get_set_same.
    destruct (od_get k c); lia.
  - apply str_eqb_neq in E. rewrite od_get_set_other by congruence. lia.
Qed.

Lemma counter_get_tally (lab : str) (l : list review) (c : odict nat) :
  counter_get lab (tally l c) = (counter_get lab c + count_label lab l)%nat.
Proof.
  unfold tally, count_label. revert c.
  induction l as [|r l IH]; intros c; simpl; [lia|].
  rewrite IH, counter_get_incr.
  destruct (str_eqb (label_of r) lab); simpl; lia.
Qed.

Lemma fold_left_add_sum {A : Type} (g : A -> nat) (l : list A) (a : nat) :
  fold_left (fun n x => (n + g x)%nat) l a = (a + list_sum (map g l))%nat.
Proof.
  revert a. induction l as [|x l IH]; intros a; simpl; [lia|].
  rewrite IH. lia.
Qed.

Lemma length_flat_map_sum {A B : Type} (f : A -> list B) (l : list A) :
  List.length (flat_map f l) = list_sum (map (fun x => List.length (f x)) l).
Proof.
  induction l as [|x l IH]; simpl; [reflexivity|].
  rewrite length_app, IH. reflexivity.
Qed.

Lemma firm_reviews_finalize (mf : mfirm) :
  firm_reviews (finalize_firm mf)
  = flat_map (fun o => od_values (mo_reviews_map o)) (od_values (mf_offices mf)).
Proof.
  unfold firm_reviews, finalize_firm. simpl.
  induction (od_values (mf_offices mf)) as [|o l IH]; simpl; [reflexivity|].
  rewrite IH. reflexivity.
Qed.

Lemma reviews_collected_total_finalize (mf : mfirm) :
  reviews_collected_total (fo_collection_summary (finalize_firm mf))
  = List.length (firm_reviews (finalize_firm mf)).
Proof.
  rewrite firm_reviews_finalize, length_flat_map_sum.
  unfold finalize_firm. simpl. rewrite fold_left_add_sum. reflexivity.
Qed.

(** The merge reports as collected the reviews it exports. *)
Lemma reviews_collected_length (datasets : list (str * dataset)) :
  reviews_collected (snd (merge_datasets sha1_hexdigest float_repr datasets))
  = List.length
      (flat_map firm_reviews
         (fst (merge_datasets sha1_hexdigest float_repr datasets))).
Proof.
  unfold merge_datasets. simpl.
  rewrite fold_left_add_sum, length_flat_map_sum, !map_map. simpl.
  f_equal. apply map_ext. intros mf. apply reviews_collected_total_finalize.
Qed.

End Distribution.


(** ** Text normalisation *)

Section Whitespace.
Variable p : char -> bool.

Lemma lstrip_by_app_last (l : str) (c : char) :
  lstrip_by p (l ++ [c])
  = match lstrip_by p l with
    | [] => if p c then [] else [c]
    | l' => l' ++ [c]
    end.
Proof.
  induction l as [|d l IH]; simpl; [reflexivity|].
  destruct (p d); [exact IH | reflexivity].
Qed.

Lemma rstrip_by_rec (s : str) : rstrip_by p s = rstrip_rec p s.
Proof.
  unfold rstrip_by. induction s as [|c s IH]; simpl; [reflexivity|].
  rewrite lstrip_by_app_last, <- IH.
  destruct (lstrip_by p (rev s)) as [|d l]; simpl.
  - destruct (p c); reflexivity.
  - rewrite rev_app_distr. simpl.
    destruct (rev l ++ [d]) eqn:E; [|reflexivity].
    destruct (rev l); discriminate.
Qed.

Lemma rstrip_rec_keep (c : char) (r : str) :
  p c = false -> rstrip_rec p (c :: r) = c :: rstrip_rec p r.
Proof.
  intros Hc. simpl. rewrite Hc. destruct (rstrip_rec p r); reflexivity.
Qed.

Lemma rstrip_rec_nil (s : str) : rstrip_rec p s = [] <-> forallb p s = true.
Proof.
  induction s as [|c s IH]; simpl; [tauto|].
  destruct (rstrip_rec p s) eqn:E.
  - destruct (p c); simpl; [tauto|]. split; discriminate.
  - split; [discriminate|]. intros H. apply andb_true_iff in H.
    destruct H as [_ H]. apply IH in H. discriminate.
Qed.

Lemma lstrip_by_head (s : str) :
  match lstrip_by p s with
  | [] => True
  | c :: _ => p c = false
  end.
Proof.
  induction s as [|c s IH]; simpl; [exact I|].
  destruct (p c) eqn:E; [exact IH | exact E].
Qed.

End Whitespace.

Lemma split_ws_nil (s : str) : split_ws [] s = [] <-> forallb isspace s = true.
Proof.
  assert (Hne : forall s c cur, split_ws (c :: cur) s <> []).
  { clear s. induction s as [|d s IH]; intros c cur; simpl.
    - destruct (rev cur ++ [c]); discriminate.
    - destruct (isspace d); [discriminate | apply IH]. }
  induction s as [|d s IH]; simpl; [tauto|].
  destruct (isspace d); simpl; [exact IH|].
  split; [intros H; elim (Hne _ _ _ H) | discriminate].
Qed.

Lemma words_lstrip (s : str) : words (lstrip_by isspace s) = words s.
Proof.
  unfold words. induction s as [|c s IH]; simpl; [reflexivity|].
  destruct (isspace c) eqn:E; [exact IH|].
  simpl. rewrite E. reflexivity.
Qed.

(** Joining the words of a text collapses its whitespace. *)
Lemma join_split_ws (s : str) :
  (forall c cur,
      join (u " ") (split_ws (c :: cur) s)
      = rev (c :: cur) ++ sub_plus isspace (u " ") false (rstrip_rec isspace s))
  /\ join (u " ") (split_ws [] s)
     = sub_plus isspace (u " ") true (rstrip_rec isspace s).
Proof.
  induction s as [|d s [IHa IHb]].
  - split; [|reflexivity]. intros c cur. simpl.
    rewrite app_nil_r. destruct (rev cur ++ [c]); reflexivity.
  - split.
    + intros c cur. destruct (isspace d) eqn:E.
      * simpl split_ws. rewrite E.
        change (join (u " ") (rev (c :: cur) :: split_ws [] s)
                = rev (c :: cur)
                  ++ sub_plus isspace (u " ") false (rstrip_rec isspace (d :: s))).
        simpl rstrip_rec. rewrite E.
        destruct (rstrip_rec isspace s) as [|e r'] eqn:Hr.
        -- apply rstrip_rec_nil, split_ws_nil in Hr. rewrite Hr. simpl.
           rewrite app_nil_r. reflexivity.
        -- assert (Hne : split_ws [] s <> []).
           { intros H. apply split_ws_nil, rstrip_rec_nil in H. congruence. }
           simpl join. destruct (split_ws [] s) as [|w ws] eqn:Hs; [congruence|].
           rewrite <- Hs at 1. rewrite <- Hs in IHb.
           change (sub_plus isspace (u " ") false (d :: e :: r'))
             with (if isspace d
                   then u " " ++ sub_plus isspace (u " ") true (e :: r')
                   else d :: sub_plus isspace (u " ") false (e :: r')).
           rewrite E. rewrite Hs in *. rewrite IHb. reflexivity.
      * simpl split_ws. rewrite E. rewrite IHa.
        rewrite (rstrip_rec_keep _ _ _ E). simpl sub_plus. rewrite E.
        simpl. rewrite <- !app_assoc. reflexivity.
    + destruct (isspace d) eqn:E.
      * simpl split_ws. rewrite E. rewrite IHb. simpl rstrip_rec. rewrite E.
        destruct (rstrip_rec isspace s) as [|e r']; [reflexivity|].
        change (sub_plus isspace (u " ") true (d :: e :: r'))
          with (if isspace d
                then sub_plus isspace (u " ") true (e :: r')
                else d :: sub_plus isspace (u " ") false (e :: r')).
        rewrite E. reflexivity.
      * simpl split_ws. rewrite E. rewrite IHa.
        rewrite (rstrip_rec_keep _ _ _ E). simpl sub_plus. rewrite E.
        reflexivity.
Qed.

Lemma collapse_strip_words (t : str) :
  sub_plus isspace (u " ") false (strip t) = join (u " ") (words t).
Proof.
  unfold strip, strip_by. rewrite rstrip_by_rec, <- words_lstrip.
  pose proof (lstrip_by_head isspace t) as Hh.
  destruct (lstrip_by isspace t) as [|c r]; [reflexivity|].
  rewrite (rstrip_rec_keep _ _ _ Hh). simpl sub_plus. rewrite Hh.
  unfold words. simpl split_ws. rewrite Hh.
  destruct (join_split_ws r) as [Ha _]. rewrite Ha. reflexivity.
Qed.

Lemma norm_text_words {U : UnicodeDB} (t : str) :
  norm_text t = norm_text_spec t.
Proof.
  unfold norm_text, norm_text_spec. rewrite collapse_strip_words. reflexivity.
Qed.

(** ** Substrings *)

Lemma startswith_iff (n x : str) :
  startswith n x = true <-> exists b, x = n ++ b.
Proof.
  revert x. induction n as [|c n IH]; intros x; simpl.
  - split; eauto.
  - destruct x as [|d x].
    + split; [discriminate | intros [b H]; discriminate].
    + rewrite andb_true_iff, N.eqb_eq, IH. split.
      * intros [-> [b ->]]. eauto.
      * intros [b H]. inversion H. eauto.
Qed.

Lemma contains_iff (n x : str) :
  contains n x = true <-> exists a b, x = a ++ n ++ b.
Proof.
  induction x as [|d x IH].
  - simpl. rewrite orb_false_r, startswith_iff. split.
    + intros [b H]. exists [], b. exact H.
    + intros [a [b H]]. destruct a; [eauto|discriminate].
  - change (contains n (d :: x))
      with (startswith n (d :: x) || contains n x).
    rewrite orb_true_iff, startswith_iff, IH. split.
    + intros [[b H]|[a [b H]]].
      * exists [], b. exact H.
      * exists (d :: a), b. rewrite H. reflexivity.
    + intros [a [b H]]. destruct a as [|e a].
      * left. eauto.
      * right. inversion H. eauto.
Qed.

Lemma contains_prefix (n1 n2 x : str) :
  contains (n1 ++ n2) x = true -> contains n1 x = true.
Proof.
  rewrite !contains_iff. intros [a [b H]].
  exists a, (n2 ++ b). rewrite H, <- app_assoc. reflexivity.
Qed.

(** A run of characters that are not whitespace survives [strip] and the
    collapse of the whitespace. *)
Section Survives.
Variable n : str.
Hypothesis n_nonempty : n <> [].
Hypothesis n_solid : forallb (fun c => negb (isspace c)) n = true.

Lemma lstrip_keeps (a b : str) :
  exists a', lstrip_by isspace (a ++ n ++ b) = a' ++ n ++ b.
Proof.
  induction a as [|d a IH]; simpl.
  - exists []. destruct n as [|c n']; [congruence|]. simpl in *.
    apply andb_true_iff in n_solid. destruct n_solid as [Hc _].
    apply negb_true_iff in Hc. rewrite Hc. reflexivity.
  - destruct (isspace d); [exact IH|]. exists (d :: a). reflexivity.
Qed.

Lemma rstrip_rec_solid (m b : str) :
  forallb (fun c => negb (isspace c)) m = true ->
  rstrip_rec isspace (m ++ b) = m ++ rstrip_rec isspace b.
Proof.
  induction m as [|c m IH]; intros Hm; [reflexivity|].
  simpl in Hm. apply andb_true_iff in Hm. destruct Hm as [Hc Hm].
  apply negb_true_iff in Hc.
  change ((c :: m) ++ b) with (c :: (m ++ b)).
  rewrite (rstrip_rec_keep _ _ _ Hc), IH by exact Hm. reflexivity.
Qed.

Lemma rstrip_keeps (a b : str) :
  rstrip_rec isspace (a ++ n ++ b) = a ++ n ++ rstrip_rec isspace b.
Proof.
  induction a as [|d a IH].
  - simpl. apply rstrip_rec_solid. exact n_solid.
  - simpl. rewrite IH. destruct (a ++ n ++ rstrip_rec isspace b) eqn:E;
      [|reflexivity].
    destruct a; [|discriminate]. destruct n; [congruence|discriminate].
Qed.

Lemma sub_plus_solid (m b : str) (fl : bool) :
  forallb (fun c => negb (isspace c)) m = true -> m <> [] ->
  sub_plus isspace (u " ") fl (m ++ b)
  = m ++ sub_plus isspace (u " ") false b.
Proof.
  revert fl. induction m as [|c m IH]; intros fl Hm Hne; [congruence|].
  simpl in Hm. apply andb_true_iff in Hm. destruct Hm as [Hc Hm].
  apply negb_true_iff in Hc. simpl. rewrite Hc. f_equal.
  destruct m as [|c' m']; [reflexivity|].
  apply IH; [exact Hm | discriminate].
Qed.

Lemma sub_plus_keeps (a b : str) (fl : bool) :
  exists a' b', sub_plus isspace (u " ") fl (a ++ n ++ b) = a' ++ n ++ b'.
Proof.
  revert fl. induction a as [|d a IH]; intros fl.
  - exists [], (sub_plus isspace (u " ") false b).
    change ([] ++ n ++ b) with (n ++ b).
    change ([] ++ n ++ sub_plus isspace (u " ") false b)
      with (n ++ sub_plus isspace (u " ") false b).
    apply sub_plus_solid; assumption.
  - simpl. destruct (isspace d).
    + destruct fl.
      * apply IH.
      * destruct (IH true) as [a' [b' H]]. exists (u " " ++ a'), b'.
        rewrite H. reflexivity.
    + destruct (IH false) as [a' [b' H]]. exists (d :: a'), b'.
      rewrite H. reflexivity.
Qed.

Lemma strip_collapse_keeps (t : str) :
  contains n t = true ->
  contains n (sub_plus isspace (u " ") false (strip t)) = true.
Proof.
  rewrite !contains_iff. intros [a [b ->]].
  unfold strip, strip_by. rewrite rstrip_by_rec.
  destruct (lstrip_keeps a b) as [a' ->].
  rewrite rstrip_keeps. apply sub_plus_keeps.
Qed.

End Survives.

Section LowerFacts.
Context {U : UnicodeDB}.

Lemma lower_from_ascii (m : str) (cur b : str) :
  forallb is_ascii m = true ->
  lower_from cur (m ++ b) = map ascii_lower m ++ lower_from (rev m ++ cur) b.
Proof.
  revert cur. induction m as [|c m IH]; intros cur Hm; [reflexivity|].
  simpl in Hm. apply andb_true_iff in Hm. destruct Hm as [Hc Hm].
  simpl. unfold lower_cp at 1. unfold is_ascii in Hc. rewrite Hc. simpl.
  rewrite IH by exact Hm. rewrite <- app_assoc. reflexivity.
Qed.

Lemma lower_from_app (a rest cur : str) :
  exists pre, lower_from cur (a ++ rest) = pre ++ lower_from (rev a ++ cur) rest.
Proof.
  revert cur. induction a as [|c a IH]; intros cur.
  - exists []. reflexivity.
  - simpl. destruct (IH (c :: cur)) as [pre H]. rewrite H.
    exists (lower_cp cur c (a ++ rest) ++ pre).
    rewrite <- !app_assoc. reflexivity.
Qed.

(** An ASCII substring of a text occurs lower-cased in the lower-cased
    text. *)
Lemma lower_keeps (m t : str) :
  forallb is_ascii m = true ->
  contains m t = true -> contains (map ascii_lower m) (lower t) = true.
Proof.
  intros Hm. rewrite !contains_iff. intros [a [b ->]].
  unfold lower. destruct (lower_from_app a (m ++ b) []) as [pre ->].
  rewrite lower_from_ascii by exact Hm. eauto.
Qed.

Lemma norm_text_keeps (m t : str) :
  m <> [] ->
  forallb (fun c => negb (isspace c)) m = true ->
  forallb is_ascii m = true ->
  contains m t = true -> contains (map ascii_lower m) (norm_text t) = true.
Proof.
  intros Hne Hsolid Hascii Hin. unfold norm_text.
  apply lower_keeps; [exact Hascii|].
  apply strip_collapse_keeps; assumption.
Qed.

End LowerFacts.

(** ** The theme classifier *)

Lemma Subseq_filter {A : Type} (f : A -> bool) (l : list A) :
  Subseq (filter f l) l.
Proof.
  induction l as [|x l IH]; simpl; [constructor|].
  destruct (f x); constructor; exact IH.
Qed.

Lemma Subseq_map {A B : Type} (f : A -> B) (a b : list A) :
  Subseq a b -> Subseq (map f a) (map f b).
Proof. induction 1; simpl; constructor; assumption. Qed.

Lemma in_firstn {A : Type} (n : nat) (l : list A) (x : A) :
  In x (firstn n l) -> In x l.
Proof.
  revert l. induction n as [|n IH]; intros [|y l]; simpl; try tauto.
  intros [H|H]; auto.
Qed.

Lemma in_firstn_app {A : Type} (n : nat) (k rest : list A) (x : A) :
  (List.length k < n)%nat -> In x (firstn n (k ++ x :: rest)).
Proof.
  intros Hlt. rewrite firstn_app. apply in_or_app. right.
  destruct (n - List.length k)%nat eqn:E; [lia|]. simpl. auto.
Qed.

Lemma firstn_app_short {A : Type} (n : nat) (k rest : list A) :
  (n <= List.length k)%nat -> firstn n (k ++ rest) = firstn n k.
Proof.
  intros Hle. rewrite firstn_app.
  replace (n - List.length k)%nat with 0%nat by lia.
  simpl. apply app_nil_r.
Qed.

Section Categorize.
Context {U : UnicodeDB}.

Lemma categorize_unfold (text : str) :
  categorize text
  = if nonempty (norm_text text)
    then firstn 3 (matched_categories (norm_text text)) else [].
Proof.
  unfold categorize, matched_categories.
  destruct (nonempty (norm_text text)); reflexivity.
Qed.

Lemma matched_categories_in (t cat : str) :
  In cat (matched_categories t)
  <-> exists kws, In (cat, kws) TAX /\ matches t kws = true.
Proof.
  unfold matched_categories. rewrite in_map_iff. split.
  - intros [[c kws] [Hc Hin]]. simpl in Hc. subst c.
    apply filter_In in Hin. eauto.
  - intros [kws [Hin Hm]]. exists (cat, kws). split; [reflexivity|].
    apply filter_In. auto.
Qed.

Lemma contains_nonempty (n t : str) :
  n <> [] -> contains n t = true -> nonempty t = true.
Proof.
  intros Hn Hc. apply contains_iff in Hc. destruct Hc as [a [b ->]].
  destruct a; [destruct n; [congruence|reflexivity] | reflexivity].
Qed.

(** A text that mentions arrogance matches the keywords of empathy. *)
Lemma arogant_matches (text : str) :
  contains (u "arogantní přístup") text = true ->
  contains (u "arogant") (norm_text text) = true.
Proof.
  intros H.
  change (u "arogantní přístup") with (u "arogant" ++ skipn 7 (u "arogantní přístup")) in H.
  apply contains_prefix in H.
  apply (norm_text_keeps (u "arogant")) in H;
    [exact H | discriminate | reflexivity | reflexivity].
Qed.

Lemma matched_categories_split (t : str) :
  contains (u "arogant") t = true ->
  exists later,
    matched_categories t
    = map fst (filter (fun e => matches t (snd e)) before_empathy)
      ++ empathy :: later.
Proof.
  intros H. unfold matched_categories.
  change TAX with (before_empathy ++ skipn 6 TAX).
  rewrite filter_app, map_app.
  exists (map fst (filter (fun e => matches t (snd e)) (skipn 7 TAX))).
  f_equal.
  change (skipn 6 TAX)
    with ((empathy, [u "přístup"; u "human"; u "arrog"; u "arogant"; u "poniž";
                     u "zesměš"; u "unpleasant"; u "reception"]) :: skipn 7 TAX).
  cbn [filter snd].
  assert (Hm : matches t [u "přístup"; u "human"; u "arrog"; u "arogant";
                          u "poniž"; u "zesměš"; u "unpleasant"; u "reception"]
               = true).
  { unfold matches. apply existsb_exists. exists (u "arogant").
    split; [vm_compute; tauto | exact H]. }
  rewrite Hm. reflexivity.
Qed.

Lemma empathy_not_before (t : str) :
  ~ In empathy (map fst (filter (fun e => matches t (snd e)) before_empathy)).
Proof.
  intros H. apply in_map_iff in H. destruct H as [[c kws] [Hc Hin]].
  apply filter_In in Hin. destruct Hin as [Hin _]. simpl in Hc. subst c.
  vm_compute in Hin.
  repeat (destruct Hin as [Hin|Hin]; [discriminate Hin|]). exact Hin.
Qed.

Lemma empathy_unless_truncated (text : str) :
  contains (u "arogantní přístup") text = true ->
  (In empathy (categorize text)
   <-> (List.length (filter (fun e => matches (norm_text text) (snd e))
                       before_empathy) < 3)%nat).
Proof.
  intros H. apply arogant_matches in H.
  rewrite categorize_unfold.
  rewrite (contains_nonempty (u "arogant") _ ltac:(discriminate) H).
  destruct (matched_categories_split _ H) as [later ->].
  set (k := filter (fun e => matches (norm_text text) (snd e)) before_empathy).
  rewrite <- (length_map fst k). split.
  - intros Hin.
    destruct (Nat.lt_ge_cases (List.length (map fst k)) 3) as [Hlt|Hge];
      [exact Hlt|].
    rewrite firstn_app_short in Hin by exact Hge.
    exfalso. apply (empathy_not_before (norm_text text)).
    fold k. apply (in_firstn _ _ _ Hin).
  - apply in_firstn_app.
Qed.

End Categorize.

(** C7 fails as stated: the text [crowded_text] contains "arogantní přístup",
    but three categories declared before [empathy_human_approach] match it
    too, and the truncation to three drops the empathy category. *)
Lemma empathy_cut_by_truncation :
  contains (u "arogantní přístup") crowded_text = true
  /\ categorize (U := czech_db) crowded_text
     = [u "communication_responsiveness"; u "professionalism_competence";
        u "fees_value_transparency"]
  /\ ~ In empathy (categorize (U := czech_db) crowded_text).
Proof.
  split; [reflexivity|]. split; [vm_compute; reflexivity|].
  vm_compute. intros H.
  repeat (destruct H as [H|H]; [discriminate H|]). exact H.
Qed.

(** C7, amended.  The classifier returns the first three of the categories
    one of whose keywords occurs in the normalised text, in the order of the
    taxonomy, and nothing for a text that is empty after normalisation.  A
    text containing "arogantní přístup" matches [empathy_human_approach]; it
    is classified into it exactly when fewer than three of the six
    categories declared before it match as well.  The text "arogantní
    přístup" alone is classified into that category only, and "n/a" into
    none. *)
Theorem categorize_first_three_matches :
  (forall (U : UnicodeDB) (text : str),
      let t := norm_text text in
      categorize text
      = (if nonempty t then firstn 3 (matched_categories t) else [])
      /\ Subseq (matched_categories t) (od_keys TAX)
      /\ (forall cat,
             In cat (matched_categories t)
             <-> exists kws, In (cat, kws) TAX /\ matches t kws = true)
      /\ (List.length (categorize text) <= 3)%nat
      /\ (t = [] -> categorize text = [])
      /\ (contains (u "arogantní přístup") text = true ->
          contains (u "arogant") t = true
          /\ (In empathy (categorize text)
              <-> (List.length (filter (fun e => matches t (snd e))
                                  before_empathy) < 3)%nat)))
  /\ categorize (U := czech_db) (u "arogantní přístup") = [empathy]
  /\ categorize (U := czech_db) (u "n/a") = [].
Proof.
  split; [|split; vm_compute; reflexivity].
  intros U text t. repeat split.
  - apply categorize_unfold.
  - unfold matched_categories, od_keys. apply Subseq_map, Subseq_filter.
  - apply matched_categories_in.
  - apply matched_categories_in.
  - rewrite categorize_unfold. destruct (nonempty (norm_text text)).
    + apply firstn_le_length.
    + simpl. lia.
  - intros Ht. rewrite categorize_unfold. fold t. rewrite Ht. reflexivity.
  - apply arogant_matches. assumption.
  - apply empathy_unless_truncated. assumption.
  - apply empathy_unless_truncated. assumption.
Qed.

Lemma categorize_first_three_matches_witness :
  contains (u "arogantní přístup") (u "Velmi arogantní přístup.") = true
  /\ In empathy (categorize (U := czech_db) (u "Velmi arogantní přístup.")).
Proof.
  split; [reflexivity|].
  destruct categorize_first_three_matches as [H _].
  destruct (H czech_db (u "Velmi arogantní přístup."))
    as (_ & _ & _ & _ & _ & He).
  apply He; [reflexivity | vm_compute; lia].
Defined.

(** ** Text normalisation does not touch diacritics *)

Section NormText.
Context {F : PyFloat} {U : UnicodeDB}.
Variable sha1_hexdigest : str -> str.
Variable float_repr : float -> str.

Lemma norm_text_solid (t : str) : solid t = true -> norm_text t = lower t.
Proof.
  intros Ht. unfold norm_text, strip, strip_by.
  destruct t as [|c t]; [reflexivity|].
  rewrite rstrip_by_rec.
  assert (Hc : isspace c = false).
  { unfold solid in Ht. simpl in Ht. apply andb_true_iff in Ht.
    destruct Ht as [Hc _]. apply negb_true_iff in Hc. exact Hc. }
  simpl lstrip_by. rewrite Hc.
  rewrite <- (app_nil_r (c :: t)).
  rewrite rstrip_rec_solid by exact Ht.
  rewrite sub_plus_solid by (exact Ht || discriminate).
  reflexivity.
Qed.

Lemma dedupe_key_by_normal_forms (r1 r2 : review) :
  truthy (review_id r1) = false ->
  truthy (review_id r2) = false ->
  norm_platform (platform r1) = norm_platform (platform r2) ->
  or_empty (date_published r1) = or_empty (date_published r2) ->
  or_empty (date_raw r1) = or_empty (date_raw r2) ->
  rating_value r1 = rating_value r2 ->
  rating_scale r1 = rating_scale r2 ->
  norm_text (or_empty (author_name r1)) = norm_text (or_empty (author_name r2)) ->
  norm_text (or_empty (review_text r1)) = norm_text (or_empty (review_text r2)) ->
  norm_text (or_empty (source_url r1)) = norm_text (or_empty (source_url r2)) ->
  review_dedupe_key sha1_hexdigest float_repr r1
  = review_dedupe_key sha1_hexdigest float_repr r2.
Proof.
  intros H1 H2 Hp Hdp Hdr Hrv Hrs Ha Ht Hu.
  unfold review_dedupe_key.
  rewrite H1, H2, Hp, Hdp, Hdr, Hrv, Hrs, Ha, Ht, Hu. reflexivity.
Qed.

End NormText.

(** C2 fails as stated: "é" and "e" differ only in a diacritic (they are the
    same once decomposed and stripped of combining marks), and [norm_text]
    keeps them apart. *)
Lemma norm_text_keeps_diacritics :
  strip_marks (U := czech_db) (u "é") = strip_marks (U := czech_db) (u "e")
  /\ norm_text (U := czech_db) (u "é") = u "é"
  /\ norm_text (U := czech_db) (u "e") = u "e"
  /\ norm_text (U := czech_db) (u "é") <> norm_text (U := czech_db) (u "e").
Proof.
  repeat split; try (vm_compute; reflexivity).
  vm_compute. discriminate.
Qed.

(** C2, amended.  [norm_text] trims the text, collapses every run of
    whitespace to one space and lower-cases it, and that is all: the result
    is the lower-cased words of the text joined by single spaces, texts with
    the same words normalise to the same text, and a text without whitespace
    is only lower-cased (nothing is decomposed and no combining mark is
    removed).  Reviews without an id whose author, text and url have equal
    normal forms, and whose platform, dates and rating agree, share their
    dedup key. *)
Theorem norm_text_trims_collapses_lowers :
  (forall (U : UnicodeDB) (t : str),
      norm_text t = lower (join (u " ") (words t))
      /\ (forall t', words t = words t' -> norm_text t = norm_text t')
      /\ (solid t = true -> norm_text t = lower t))
  /\ (forall (F : PyFloat) (U : UnicodeDB) (sha1_hexdigest : str -> str)
             (float_repr : float -> str) (r1 r2 : review),
         truthy (review_id r1) = false ->
         truthy (review_id r2) = false ->
         norm_platform (platform r1) = norm_platform (platform r2) ->
         or_empty (date_published r1) = or_empty (date_published r2) ->
         or_empty (date_raw r1) = or_empty (date_raw r2) ->
         rating_value r1 = rating_value r2 ->
         rating_scale r1 = rating_scale r2 ->
         norm_text (or_empty (author_name r1))
         = norm_text (or_empty (author_name r2)) ->
         norm_text (or_empty (review_text r1))
         = norm_text (or_empty (review_text r2)) ->
         norm_text (or_empty (source_url r1))
         = norm_text (or_empty (source_url r2)) ->
         review_dedupe_key sha1_hexdigest float_repr r1
         = review_dedupe_key sha1_hexdigest float_repr r2)
  /\ norm_text (U := czech_db) (u "  Žluťoučký   KŮŇ ") = u "žluťoučký kůň".
Proof.
  split; [|split; [|vm_compute; reflexivity]].
  - intros U t. split; [apply norm_text_words|]. split.
    + intros t' Hw. rewrite !norm_text_words. unfold norm_text_spec.
      rewrite Hw. reflexivity.
    + apply norm_text_solid.
  - intros. apply dedupe_key_by_normal_forms; assumption.
Qed.

(** ** Sorting *)

Section SortFacts.
Context {A : Type}.
Variable lt : A -> A -> bool.

Local Abbreviation not_after := (not_after lt).

Hypothesis lt_asym : forall x y, lt x y = true -> lt y x = false.

Lemma insert_sorted_perm (x : A) (l : list A) :
  Permutation (insert_sorted lt x l) (x :: l).
Proof.
  induction l as [|y l IH]; simpl; [reflexivity|].
  destruct (lt y x); [|reflexivity].
  rewrite IH. apply perm_swap.
Qed.

Lemma py_sorted_perm (l : list A) : Permutation (py_sorted lt l) l.
Proof.
  induction l as [|x l IH]; simpl; [reflexivity|].
  rewrite insert_sorted_perm. constructor. exact IH.
Qed.

Lemma insert_sorted_hd (x y : A) (l : list A) :
  lt y x = true -> HdRel not_after y l -> HdRel not_after y (insert_sorted lt x l).
Proof.
  intros Hyx Hhd. destruct l as [|z l]; simpl.
  - constructor. apply lt_asym. exact Hyx.
  - inversion Hhd; subst. destruct (lt z x); constructor; auto.
    apply lt_asym. exact Hyx.
Qed.

Lemma insert_sorted_Sorted (x : A) (l : list A) :
  Sorted not_after l -> Sorted not_after (insert_sorted lt x l).
Proof.
  induction 1 as [|y l Hs IH Hhd]; simpl.
  - repeat constructor.
  - destruct (lt y x) eqn:E.
    + constructor; [exact IH|]. apply insert_sorted_hd; assumption.
    + constructor; [constructor; assumption|]. constructor. exact E.
Qed.

Lemma py_sorted_Sorted (l : list A) : Sorted not_after (py_sorted lt l).
Proof.
  induction l as [|x l IH]; simpl; [constructor|].
  apply insert_sorted_Sorted. exact IH.
Qed.

Hypothesis not_after_trans :
  forall x y z, not_after x y -> not_after y z -> not_after x z.

Lemma py_sorted_StronglySorted (l : list A) :
  StronglySorted not_after (py_sorted lt l).
Proof.
  apply Sorted_StronglySorted; [|apply py_sorted_Sorted].
  intros x y z. apply not_after_trans.
Qed.

(** The first element of the sorted list is a least element of the input. *)
Lemma py_sorted_head (l : list A) (x : A) (rest : list A) :
  py_sorted lt l = x :: rest ->
  In x l /\ forall y, In y l -> y = x \/ not_after x y.
Proof.
  intros Hs. pose proof (py_sorted_perm l) as Hp.
  pose proof (py_sorted_StronglySorted l) as Hss.
  rewrite Hs in Hp, Hss. split.
  - apply (Permutation_in _ Hp). left. reflexivity.
  - intros y Hy. apply (Permutation_in _ (Permutation_sym Hp)) in Hy.
    destruct Hy as [Hy|Hy]; [left; congruence|right].
    inversion Hss as [|? ? _ Hall]; subst.
    rewrite Forall_forall in Hall. auto.
Qed.

Lemma py_sorted_nil (l : list A) : py_sorted lt l = [] -> l = [].
Proof.
  intros Hs. pose proof (py_sorted_perm l) as Hp. rewrite Hs in Hp.
  apply Permutation_nil in Hp. exact Hp.
Qed.

End SortFacts.

(** ** The order of strings *)

Lemma str_ltb_irrefl (a : str) : str_ltb a a = false.
Proof.
  induction a as [|x a IH]; simpl; [reflexivity|].
  rewrite N.ltb_irrefl, N.eqb_refl, IH. reflexivity.
Qed.

Lemma str_ltb_cons (x y : char) (a b : str) :
  str_ltb (x :: a) (y :: b) = true <-> x < y \/ (x = y /\ str_ltb a b = true).
Proof.
  simpl. rewrite orb_true_iff, andb_true_iff, N.ltb_lt, N.eqb_eq. tauto.
Qed.

Lemma str_ltb_trans (a b c : str) :
  str_ltb a b = true -> str_ltb b c = true -> str_ltb a c = true.
Proof.
  revert b c. induction a as [|x a IH]; intros [|y b] [|z c];
    try discriminate; try reflexivity.
  rewrite !str_ltb_cons. intros [H1|[-> H1]] [H2|[-> H2]].
  - left. lia.
  - left. exact H1.
  - left. exact H2.
  - right. split; [reflexivity|]. eapply IH; eassumption.
Qed.

Lemma str_ltb_asym (a b : str) : str_ltb a b = true -> str_ltb b a = false.
Proof.
  intros H. destruct (str_ltb b a) eqn:E; [|reflexivity].
  pose proof (str_ltb_trans _ _ _ H E) as Hc.
  rewrite str_ltb_irrefl in Hc. discriminate.
Qed.

Lemma str_ltb_total (a b : str) :
  str_ltb a b = false -> str_ltb b a = false -> a = b.
Proof.
  revert b. induction a as [|x a IH]; intros [|y b]; simpl;
    try discriminate; try reflexivity.
  rewrite !orb_false_iff, !andb_false_iff, !N.ltb_ge, !N.eqb_neq.
  intros [H1 H2] [H3 H4].
  assert (x = y) by lia. subst y. f_equal. apply IH.
  - destruct H2; [congruence|assumption].
  - destruct H4; [congruence|assumption].
Qed.

(** ** Slugs *)

Ltac char_cases :=
  unfold ascii_lower, is_slug_char, is_ascii_alnum in *;
  unfold is_ascii_lower, is_ascii_upper, is_ascii_digit, is_hyphen, hyphen,
    is_ascii in *;
  repeat (match goal with
          | H : context [(?a <=? ?b)] |- _ => destruct (N.leb_spec a b)
          | H : context [(?a <? ?b)] |- _ => destruct (N.ltb_spec a b)
          | |- context [(?a <=? ?b)] => destruct (N.leb_spec a b)
          | |- context [(?a <? ?b)] => destruct (N.ltb_spec a b)
          end; simpl in *);
  repeat (match goal with
          | H : context [(?a =? ?b)] |- _ => destruct (N.eqb_spec a b)
          | |- context [(?a =? ?b)] => destruct (N.eqb_spec a b)
          end; simpl in *);
  try reflexivity; try discriminate; try lia.

Lemma ascii_lower_hyphen (c : char) : is_hyphen (ascii_lower c) = is_hyphen c.
Proof. char_cases. Qed.

Lemma ascii_lower_alnum (c : char) :
  is_ascii_alnum c = true ->
  is_ascii_alnum (ascii_lower c) = true /\ is_slug_char (ascii_lower c) = true.
Proof. intros H. split; char_cases. Qed.

Lemma hyphen_slug_char (c : char) :
  is_hyphen c = true -> is_slug_char (ascii_lower c) = true.
Proof. intros H. char_cases. Qed.

Lemma alnum_is_ascii (c : char) : is_ascii_alnum c = true -> is_ascii c = true.
Proof. intros H. char_cases. Qed.

Lemma hyphen_is_ascii (c : char) : is_hyphen c = true -> is_ascii c = true.
Proof. intros H. char_cases. Qed.

Lemma alnum_not_hyphen (c : char) : is_ascii_alnum c = true -> is_hyphen c = false.
Proof. intros H. char_cases. Qed.

Section SlugShape.

Lemma sub_plus_shape (y : str) (fl : bool) :
  slug_shape fl (sub_plus (fun c => negb (is_ascii_alnum c)) (u "-") fl y) = true.
Proof.
  change (u "-") with [hyphen].
  revert fl. induction y as [|c y IH]; intros fl; simpl; [reflexivity|].
  destruct (is_ascii_alnum c) eqn:E; simpl.
  - rewrite (alnum_not_hyphen _ E), E. apply IH.
  - destruct fl; [apply IH|]. simpl. apply IH.
Qed.

Lemma lstrip_shape (z : str) (fl fl' : bool) :
  slug_shape fl z = true -> slug_shape fl' (lstrip_by is_hyphen z) = true.
Proof.
  revert fl. induction z as [|c z IH]; intros fl; simpl; [reflexivity|].
  destruct (is_hyphen c) eqn:E.
  - intros H. apply andb_true_iff in H. destruct H as [_ H]. eapply IH, H.
  - intros H. simpl. rewrite E. exact H.
Qed.

Lemma rstrip_shape (z : str) (fl : bool) :
  slug_shape fl z = true -> slug_shape fl (rstrip_rec is_hyphen z) = true.
Proof.
  revert fl. induction z as [|c z IH]; intros fl; simpl; [reflexivity|].
  destruct (is_hyphen c) eqn:E.
  - intros H. apply andb_true_iff in H. destruct H as [Hfl H].
    apply IH in H. destruct (rstrip_rec is_hyphen z) as [|e r'];
      [reflexivity|].
    cbn [slug_shape]. rewrite E, Hfl. exact H.
  - intros H. apply andb_true_iff in H. destruct H as [Hc H].
    apply IH in H. destruct (rstrip_rec is_hyphen z) as [|e r'].
    + simpl. rewrite E, Hc. reflexivity.
    + cbn [slug_shape]. rewrite E, Hc. exact H.
Qed.

Lemma map_lower_shape (z : str) (fl : bool) :
  slug_shape fl z = true ->
  slug_shape fl (map ascii_lower z) = true
  /\ forallb is_slug_char (map ascii_lower z) = true.
Proof.
  revert fl. induction z as [|c z IH]; intros fl; simpl; [auto|].
  rewrite ascii_lower_hyphen. destruct (is_hyphen c) eqn:E.
  - intros H. apply andb_true_iff in H. destruct H as [Hfl H].
    destruct (IH _ H) as [H1 H2].
    rewrite Hfl, H1, H2, (hyphen_slug_char _ E). auto.
  - intros H. apply andb_true_iff in H. destruct H as [Hc H].
    destruct (IH _ H) as [H1 H2]. destruct (ascii_lower_alnum _ Hc) as [H3 H4].
    rewrite H1, H2, H3, H4. auto.
Qed.

Lemma shape_is_ascii (z : str) (fl : bool) :
  slug_shape fl z = true -> forallb is_ascii z = true.
Proof.
  revert fl. induction z as [|c z IH]; intros fl; simpl; [reflexivity|].
  destruct (is_hyphen c) eqn:E; intros H; apply andb_true_iff in H;
    destruct H as [Hc H]; apply IH in H; rewrite H.
  - rewrite (hyphen_is_ascii _ E). reflexivity.
  - rewrite (alnum_is_ascii _ Hc). reflexivity.
Qed.

Lemma shape_no_run (z : str) (fl : bool) :
  slug_shape fl z = true -> sub_two_plus is_hyphen (u "-") false z = z.
Proof.
  revert fl. induction z as [|c z IH]; intros fl H; [reflexivity|].
  simpl in H. simpl sub_two_plus. destruct (is_hyphen c) eqn:E.
  - apply andb_true_iff in H. destruct H as [_ H].
    destruct z as [|d z']; [reflexivity|].
    assert (Hd : is_hyphen d = false).
    { simpl in H. destruct (is_hyphen d); [discriminate|reflexivity]. }
    rewrite Hd. f_equal. eapply IH, H.
  - apply andb_true_iff in H. destruct H as [_ H]. f_equal. eapply IH, H.
Qed.

Lemma shape_no_double_hyphen (z : str) (fl : bool) :
  slug_shape fl z = true -> contains (u "--") z = false.
Proof.
  change (u "--") with [hyphen; hyphen].
  revert fl. induction z as [|c z IH]; intros fl H; [reflexivity|].
  change (contains [hyphen; hyphen] (c :: z))
    with (startswith [hyphen; hyphen] (c :: z) || contains [hyphen; hyphen] z).
  cbn [slug_shape] in H. destruct (is_hyphen c) eqn:E.
  - apply andb_true_iff in H. destruct H as [_ H].
    rewrite (IH _ H), orb_false_r.
    destruct z as [|d z']; cbn [startswith]; [apply andb_false_r|].
    cbn [slug_shape] in H. rewrite (N.eqb_sym hyphen d). fold (is_hyphen d).
    destruct (is_hyphen d); [discriminate|].
    rewrite andb_false_l. apply andb_false_r.
  - apply andb_true_iff in H. destruct H as [_ H].
    rewrite (IH _ H), orb_false_r. cbn [startswith].
    rewrite (N.eqb_sym hyphen c). fold (is_hyphen c). rewrite E. reflexivity.
Qed.

End SlugShape.

Section Slugify.
Context {U : UnicodeDB}.

Local Abbreviation starter := (fun ch : char => combining ch =? 0).

Lemma filter_reorder_insert (c : char) (acc : str) :
  filter starter (reorder_insert c acc) = filter starter (c :: acc).
Proof.
  induction acc as [|d acc IH]; [reflexivity|].
  cbn [reorder_insert].
  destruct ((0 <? combining c) && (combining c <? combining d)) eqn:E;
    [|reflexivity].
  apply andb_true_iff in E. destruct E as [Hc Hd].
  apply N.ltb_lt in Hc, Hd.
  assert (Ec : (combining c =? 0) = false) by (apply N.eqb_neq; lia).
  assert (Ed : (combining d =? 0) = false) by (apply N.eqb_neq; lia).
  cbn [filter]. rewrite Ed, Ec, IH. cbn [filter]. rewrite Ec. reflexivity.
Qed.

Lemma filter_reorder_fold (s acc : str) :
  filter starter (fold_left (fun acc c => reorder_insert c acc) s acc)
  = rev (filter starter s) ++ filter starter acc.
Proof.
  revert acc. induction s as [|c s IH]; intros acc; [reflexivity|].
  cbn [fold_left]. rewrite IH, filter_reorder_insert. cbn [filter].
  destruct (combining c =? 0); [|reflexivity].
  cbn [rev]. rewrite <- app_assoc. reflexivity.
Qed.

(** Canonical ordering moves combining marks only. *)
Lemma filter_canonical_order (s : str) :
  filter starter (canonical_order s) = filter starter s.
Proof.
  unfold canonical_order.
  rewrite <- (rev_involutive (filter starter (rev _))).
  rewrite <- filter_rev, rev_involutive, filter_reorder_fold.
  rewrite app_nil_r. apply rev_involutive.
Qed.

Lemma trimmed_shape (y : str) :
  slug_shape false
    (strip_by is_hyphen
       (sub_plus (fun c => negb (is_ascii_alnum c)) (u "-") false y)) = true.
Proof.
  unfold strip_by. rewrite rstrip_by_rec.
  apply rstrip_shape. eapply lstrip_shape. apply sub_plus_shape.
Qed.

Lemma lower_ascii (x : str) :
  forallb is_ascii x = true -> lower x = map ascii_lower x.
Proof.
  intros H. unfold lower. rewrite <- (app_nil_r x) at 1.
  rewrite lower_from_ascii by exact H. apply app_nil_r.
Qed.

Lemma slugify_spec (s : str) : slugify s = slug_spec s.
Proof.
  unfold slugify, slug_spec, nfkd. rewrite filter_canonical_order.
  set (x := strip_by is_hyphen _).
  assert (Hx : slug_shape false x = true) by apply trimmed_shape.
  rewrite (lower_ascii x (shape_is_ascii _ _ Hx)).
  destruct (map_lower_shape _ _ Hx) as [Hl _].
  rewrite (shape_no_run _ _ Hl). reflexivity.
Qed.

Lemma startswith_hyphen (z : str) :
  startswith (u "-") z = match z with [] => false | c :: _ => is_hyphen c end.
Proof.
  change (u "-") with [hyphen]. destruct z as [|c z]; [reflexivity|].
  cbn [startswith]. rewrite andb_true_r. apply N.eqb_sym.
Qed.

Lemma strip_by_head (y : str) :
  startswith (u "-") (strip_by is_hyphen y) = false.
Proof.
  rewrite startswith_hyphen. unfold strip_by. rewrite rstrip_by_rec.
  pose proof (lstrip_by_head is_hyphen y) as Hh.
  destruct (lstrip_by is_hyphen y) as [|c r]; [reflexivity|].
  rewrite (rstrip_rec_keep _ _ _ Hh). exact Hh.
Qed.

Lemma strip_by_last (y : str) :
  startswith (u "-") (rev (strip_by is_hyphen y)) = false.
Proof.
  rewrite startswith_hyphen. unfold strip_by, rstrip_by.
  rewrite rev_involutive.
  pose proof (lstrip_by_head is_hyphen (rev (lstrip_by is_hyphen y))) as Hh.
  destruct (lstrip_by is_hyphen (rev (lstrip_by is_hyphen y)));
    [reflexivity | exact Hh].
Qed.

Lemma map_lower_head (x : str) :
  startswith (u "-") (map ascii_lower x) = startswith (u "-") x.
Proof.
  rewrite !startswith_hyphen. destruct x as [|c x]; [reflexivity|].
  apply ascii_lower_hyphen.
Qed.

(** The shape of a slug. *)
Lemma slugify_shape (s : str) :
  nonempty (slugify s) = true
  /\ forallb is_slug_char (slugify s) = true
  /\ contains (u "--") (slugify s) = false
  /\ startswith (u "-") (slugify s) = false
  /\ startswith (u "-") (rev (slugify s)) = false.
Proof.
  rewrite slugify_spec. unfold slug_spec.
  set (x := strip_by is_hyphen _).
  assert (Hx : slug_shape false x = true) by apply trimmed_shape.
  destruct (map_lower_shape _ _ Hx) as [Hl Hc].
  destruct (nonempty (map ascii_lower x)) eqn:E.
  - repeat split.
    + exact E.
    + exact Hc.
    + apply (shape_no_double_hyphen _ _ Hl).
    + rewrite map_lower_head. apply strip_by_head.
    + rewrite <- map_rev, map_lower_head. apply strip_by_last.
  - repeat split; reflexivity.
Qed.

End Slugify.

(** ** The choice of the firm id *)

Lemma id_lt_not_after (x y : str) : not_after id_lt x y <-> id_le x y.
Proof.
  unfold not_after, id_lt, id_le.
  destruct (Nat.eqb_spec (len y) (len x)) as [E|E]; simpl.
  - split.
    + intros H. right. split; [congruence|].
      destruct (str_ltb x y) eqn:Hxy; [auto|].
      left. apply str_ltb_total; assumption.
    + intros [Hlt|[_ [->|H]]]; [lia | apply str_ltb_irrefl | apply str_ltb_asym, H].
  - rewrite Nat.ltb_ge. split.
    + intros H. left. lia.
    + intros [Hlt|[Heq _]]; lia.
Qed.

Lemma id_lt_asym (x y : str) : id_lt x y = true -> id_lt y x = false.
Proof.
  intros H. apply id_lt_not_after. unfold id_lt in H. unfold id_le.
  destruct (Nat.eqb_spec (len x) (len y)) as [E|E]; simpl in H.
  - right. auto.
  - left. apply Nat.ltb_lt in H. exact H.
Qed.

Lemma id_le_trans (x y z : str) : id_le x y -> id_le y z -> id_le x z.
Proof.
  unfold id_le. intros [H1|[E1 H1]] [H2|[E2 H2]]; try (left; lia).
  right. split; [lia|].
  destruct H1 as [->|H1]; [exact H2|].
  destruct H2 as [<-|H2]; [auto|].
  right. eapply str_ltb_trans; eassumption.
Qed.

Lemma sorted_ids_head (ids : list str) (x : str) (rest : list str) :
  py_sorted id_lt ids = x :: rest ->
  In x ids /\ forall y, In y ids -> id_le x y.
Proof.
  intros Hs.
  destruct (py_sorted_head id_lt id_lt_asym) with (l := ids) (x := x) (rest := rest)
    as [Hin Hmin]; [|exact Hs|].
  - intros a b c Hab Hbc. apply id_lt_not_after.
    apply id_lt_not_after in Hab, Hbc. eapply id_le_trans; eassumption.
  - split; [exact Hin|]. intros y Hy.
    destruct (Hmin y Hy) as [->|H]; [|apply id_lt_not_after, H].
    right. auto.
Qed.


(** ** Rankings *)

Lemma Sorted_weaken {A : Type} (R S : A -> A -> Prop) (l : list A) :
  (forall x y, R x y -> S x y) -> Sorted R l -> Sorted S l.
Proof.
  intros HRS. induction 1 as [|x l Hs IH Hhd]; constructor; [exact IH|].
  destruct Hhd; constructor; auto.
Qed.

Section Ranking.
Context {F : PyFloat}.

Lemma qualifying_in (n : firm_stat -> nat) (avg : firm_stat -> option float)
    (stats : list firm_stat) (c : candidate) :
  In c (qualifying n avg stats)
  <-> exists x, In x stats /\ (3 <= n x)%nat /\ avg x = Some (c_avg c)
                /\ c = mk_candidate x (c_avg c) (n x).
Proof.
  unfold qualifying. rewrite in_flat_map. split.
  - intros [x [Hx Hc]]. exists x. destruct (avg x) as [a|] eqn:Ea; [|destruct Hc].
    destruct (Nat.leb_spec 3 (n x)) as [Hn|Hn]; [|destruct Hc].
    destruct Hc as [<-|[]]. simpl. auto.
  - intros [x (Hx & Hn & Ha & Hc)]. exists x. split; [exact Hx|].
    rewrite Ha. apply Nat.leb_le in Hn. rewrite Hn. left. auto.
Qed.

Lemma qualifying_sample (n : firm_stat -> nat) (avg : firm_stat -> option float)
    (stats : list firm_stat) (c : candidate) :
  In c (qualifying n avg stats) -> (3 <= c_n c)%nat /\ c_n c = n (c_stat c).
Proof.
  intros H. apply qualifying_in in H. destruct H as [x (_ & Hn & _ & ->)].
  simpl. auto.
Qed.

Lemma rank_by_perm (n : firm_stat -> nat) (avg : firm_stat -> option float)
    (stats : list firm_stat) :
  Permutation (rank_by n avg stats) (qualifying n avg stats).
Proof. apply py_sorted_perm. Qed.

Lemma rank_by_in (n : firm_stat -> nat) (avg : firm_stat -> option float)
    (stats : list firm_stat) (c : candidate) :
  In c (rank_by n avg stats) <-> In c (qualifying n avg stats).
Proof.
  split; apply Permutation_in;
    [apply rank_by_perm | apply Permutation_sym, rank_by_perm].
Qed.

Context {L : FloatOrder F}.

Lemma candidate_lt_asym (x y : candidate) :
  candidate_lt x y = true -> candidate_lt y x = false.
Proof.
  unfold candidate_lt, candidate_key, rank_key_lt.
  rewrite (feqb_sym (fneg (c_avg y)) (fneg (c_avg x))).
  destruct (feqb (fneg (c_avg x)) (fneg (c_avg y))); simpl.
  - rewrite (Z.eqb_sym (- Z.of_nat (c_n y)) (- Z.of_nat (c_n x))).
    destruct (Z.eqb_spec (- Z.of_nat (c_n x)) (- Z.of_nat (c_n y))); simpl.
    + apply str_ltb_asym.
    + rewrite !Z.ltb_lt, Z.ltb_ge. lia.
  - apply fltb_asym.
Qed.

Lemma not_after_ranks_before (x y : candidate) :
  not_after candidate_lt x y -> ranks_before x y.
Proof.
  unfold not_after, candidate_lt, candidate_key, rank_key_lt, ranks_before.
  rewrite fneg_eqb, fneg_ltb.
  destruct (feqb (c_avg y) (c_avg x)) eqn:E; simpl.
  - rewrite feqb_sym in E. intros H. right. split; [exact E|].
    destruct (Z.eqb_spec (- Z.of_nat (c_n y)) (- Z.of_nat (c_n x))) as [En|En];
      simpl in H.
    + right. split; [lia|].
      destruct (str_ltb (or_empty (fs_firm_name (c_stat x)))
                  (or_empty (fs_firm_name (c_stat y)))) eqn:Es; [auto|].
      left. apply str_ltb_total; assumption.
    + left. apply Z.ltb_ge in H. lia.
  - intros H. left. apply fltb_total; [rewrite feqb_sym; exact E | exact H].
Qed.

Lemma rank_by_sorted (n : firm_stat -> nat) (avg : firm_stat -> option float)
    (stats : list firm_stat) :
  Sorted ranks_before (rank_by n avg stats).
Proof.
  apply (Sorted_weaken (not_after candidate_lt)).
  - intros x y. apply not_after_ranks_before.
  - apply py_sorted_Sorted. intros x y. apply candidate_lt_asym.
Qed.

Lemma rank_by_spec (py_round : float -> Z -> float) (n : firm_stat -> nat)
    (avg : firm_stat -> option float) (stats : list firm_stat) :
  ranking_spec py_round n avg stats
    (map (entry_of py_round) (firstn 30 (rank_by n avg stats))).
Proof.
  exists (rank_by n avg stats). split; [apply rank_by_perm|].
  split; [|split; [apply rank_by_sorted | reflexivity]].
  intros c. rewrite rank_by_in. apply qualifying_in.
Qed.

End Ranking.

(** The comparisons of the rationals satisfy [FloatOrder]. *)
Lemma exact_order : FloatOrder exact.
Proof.
  constructor; intros [a b] [c d]; cbn -[Z.mul];
    unfold QArith_base.Qeq_bool, QArith_base.Qle_bool; cbn -[Z.mul];
    repeat match goal with
           | |- context [(?p =? ?q)%Z] => destruct (Z.eqb_spec p q)
           | |- context [(?p <=? ?q)%Z] => destruct (Z.leb_spec p q)
           end; cbn; try reflexivity; try discriminate; try lia.
Qed.

Section RankingClaims.
Context {F : PyFloat}.
Variable py_round : float -> Z -> float.

Lemma ranking_length (l : list candidate) :
  (List.length (map (entry_of py_round) (firstn 30 l)) <= 30)%nat.
Proof. rewrite length_map. apply firstn_le_length. Qed.

Lemma ranking_entry_sample (n : firm_stat -> nat) (avg : firm_stat -> option float)
    (stats : list firm_stat) (e : ranking_entry) :
  In e (map (entry_of py_round) (firstn 30 (rank_by n avg stats))) ->
  (3 <= re_n e)%nat
  /\ exists x a, In x stats /\ avg x = Some a /\ re_n e = n x
                 /\ e = mk_entry (fs_firm_id x) (fs_firm_name x)
                          (py_round a 3) (n x) (reviews_n x).
Proof.
  intros H. apply in_map_iff in H. destruct H as [c [<- Hc]].
  apply in_firstn, rank_by_in, qualifying_in in Hc.
  destruct Hc as [x (Hx & Hn & Ha & ->)]. simpl. split; [exact Hn|].
  exists x, (c_avg (mk_candidate x (c_avg c) (n x))). auto.
Qed.

Lemma ranking_complete (n : firm_stat -> nat) (avg : firm_stat -> option float)
    (stats : list firm_stat) (x : firm_stat) (a : float) :
  (List.length (qualifying n avg stats) <= 30)%nat ->
  In x stats -> (3 <= n x)%nat -> avg x = Some a ->
  In (mk_entry (fs_firm_id x) (fs_firm_name x) (py_round a 3) (n x) (reviews_n x))
     (map (entry_of py_round) (firstn 30 (rank_by n avg stats))).
Proof.
  intros Hlen Hx Hn Ha.
  rewrite firstn_all2.
  2:{ rewrite (Permutation_length (rank_by_perm n avg stats)). exact Hlen. }
  apply in_map_iff. exists (mk_candidate x a (n x)). split; [reflexivity|].
  apply rank_by_in, qualifying_in. exists x. simpl. auto.
Qed.

Lemma rated_firm_has_average (f : firm_obj) :
  (1 <= ratings_n (firm_stat_of f))%nat ->
  exists a, avg_rating_5 (firm_stat_of f) = Some a.
Proof.
  unfold firm_stat_of. simpl. intros H.
  apply average_value_nonempty.
  destruct (somes (map rating_value5 (firm_reviews f))); simpl in *;
    [lia | discriminate].
Qed.

End RankingClaims.




(** ** First non-empty wins *)

Section FirstWins.
Context {F : PyFloat} {U : UnicodeDB}.
Variable sha1_hexdigest : str -> str.
Variable float_repr : float -> str.

Local Abbreviation merge_office' := (merge_office sha1_hexdigest float_repr).
Local Abbreviation merge_firm' := (merge_firm sha1_hexdigest float_repr).
Local Abbreviation merge_index' := (merge_index sha1_hexdigest float_repr).
Local Abbreviation update_office' := (update_office sha1_hexdigest float_repr).
Local Abbreviation update_firm' := (update_firm sha1_hexdigest float_repr).
Local Abbreviation merged_office' := (merged_office sha1_hexdigest float_repr).
Local Abbreviation merged_firm' := (merged_firm sha1_hexdigest float_repr).

Lemma merge_office_update (offices : odict moffice) (o : office) :
  merge_office' offices o
  = od_set (office_key o)
      (update_office' (match od_get (office_key o) offices with
                       | Some mo => mo
                       | None => new_office o
                       end) o) offices.
Proof. reflexivity. Qed.

Lemma merge_firm_update (firms_map : odict mfirm) (f : firm) :
  merge_firm' firms_map f
  = od_set (firm_key f)
      (update_firm' (match od_get (firm_key f) firms_map with
                     | Some mf => mf
                     | None => new_firm f
                     end) f) firms_map.
Proof. reflexivity. Qed.

Section KeepOffice.
Variable R : moffice -> Prop.
Hypothesis R_update : forall mo o, R mo -> R (update_office' mo o).
Variables fk ok : str.

Local Abbreviation office_has := (office_has R ok).
Local Abbreviation index_has := (index_has R fk ok).

Lemma merge_office_keeps (offices : odict moffice) (o : office) :
  office_has offices -> office_has (merge_office' offices o).
Proof.
  intros [mo [Hget HR]]. rewrite merge_office_update.
  destruct (str_eqb ok (office_key o)) eqn:E.
  - apply str_eqb_eq in E. rewrite <- E, Hget.
    eexists. split; [apply od_get_set_same | apply R_update, HR].
  - apply str_eqb_neq in E. exists mo.
    rewrite od_get_set_other by exact E. auto.
Qed.

Lemma merge_firm_keeps (firms_map : odict mfirm) (f : firm) :
  index_has firms_map -> index_has (merge_firm' firms_map f).
Proof.
  intros [mf [Hget Hoff]]. rewrite merge_firm_update.
  destruct (str_eqb fk (firm_key f)) eqn:E.
  - apply str_eqb_eq in E. rewrite <- E, Hget.
    eexists. split; [apply od_get_set_same|]. simpl.
    apply fold_left_invariant; [intros; apply merge_office_keeps; assumption|].
    exact Hoff.
  - apply str_eqb_neq in E. exists mf.
    rewrite od_get_set_other by exact E. auto.
Qed.

Lemma merge_more_keeps (first more : list (str * dataset)) :
  index_has (merge_index' first) -> index_has (merge_index' (first ++ more)).
Proof.
  intros H. unfold merge_index. rewrite fold_left_app.
  apply fold_left_invariant; [|exact H].
  intros idx src Hidx.
  apply fold_left_invariant; [intros; apply merge_firm_keeps; assumption|].
  exact Hidx.
Qed.

Lemma merged_office_has (datasets : list (str * dataset)) :
  index_has (merge_index' datasets)
  <-> exists mo, merged_office' datasets fk ok = Some mo /\ R mo.
Proof.
  unfold index_has, office_has, merged_office, merged_firm. split.
  - intros [mf [-> H]]. exact H.
  - intros [mo [H HR]].
    destruct (od_get fk (merge_index' datasets)) as [mf|]; [|discriminate].
    eauto.
Qed.

End KeepOffice.

Section KeepFirm.
Variable R : mfirm -> Prop.
Hypothesis R_update : forall mf f, R mf -> R (update_firm' mf f).
Variable fk : str.

Local Abbreviation firm_has := (firm_has R fk).

Lemma merge_firm_keeps_firm (firms_map : odict mfirm) (f : firm) :
  firm_has firms_map -> firm_has (merge_firm' firms_map f).
Proof.
  intros [mf [Hget HR]]. rewrite merge_firm_update.
  destruct (str_eqb fk (firm_key f)) eqn:E.
  - apply str_eqb_eq in E. rewrite <- E, Hget.
    eexists. split; [apply od_get_set_same | apply R_update, HR].
  - apply str_eqb_neq in E. exists mf.
    rewrite od_get_set_other by exact E. auto.
Qed.

Lemma merge_more_keeps_firm (first more : list (str * dataset)) :
  firm_has (merge_index' first) -> firm_has (merge_index' (first ++ more)).
Proof.
  intros H. unfold merge_index. rewrite fold_left_app.
  apply fold_left_invariant; [|exact H].
  intros idx src Hidx.
  apply fold_left_invariant; [intros; apply merge_firm_keeps_firm; assumption|].
  exact Hidx.
Qed.

End KeepFirm.

(** A non-empty address, city or website, once stored, is kept. *)
Lemma address_kept (a : option str) (mo : moffice) (o : office) :
  truthy_s a = true ->
  mo_address mo = a -> mo_address (update_office' mo o) = a.
Proof. intros Ha <-. simpl. rewrite Ha. reflexivity. Qed.

Lemma city_kept (c : option str) (mo : moffice) (o : office) :
  truthy_s c = true ->
  mo_city mo = c -> mo_city (update_office' mo o) = c.
Proof. intros Hc <-. simpl. rewrite Hc. reflexivity. Qed.

Lemma website_kept (w : option str) (mf : mfirm) (f : firm) :
  truthy_s w = true ->
  mf_website mf = w -> mf_website (update_firm' mf f) = w.
Proof. intros Hw <-. simpl. rewrite Hw. reflexivity. Qed.

Lemma office_field_wins (field : moffice -> option str)
    (first more : list (str * dataset)) (fk ok : str) (mo : moffice) :
  (forall v mo o, truthy_s v = true -> field mo = v ->
                  field (update_office' mo o) = v) ->
  merged_office' first fk ok = Some mo ->
  truthy_s (field mo) = true ->
  exists mo', merged_office' (first ++ more) fk ok = Some mo'
              /\ field mo' = field mo.
Proof.
  intros Hkept Hmo Htruthy.
  apply (merged_office_has (fun m => field m = field mo)).
  apply merge_more_keeps.
  - intros m o. apply Hkept. exact Htruthy.
  - apply merged_office_has. eauto.
Qed.

Lemma website_wins (first more : list (str * dataset)) (fk : str) (mf : mfirm) :
  merged_firm' first fk = Some mf ->
  truthy_s (mf_website mf) = true ->
  exists mf', merged_firm' (first ++ more) fk = Some mf'
              /\ mf_website mf' = mf_website mf.
Proof.
  intros Hmf Htruthy.
  apply (merge_more_keeps_firm (fun m => mf_website m = mf_website mf)).
  - intros m f. apply website_kept. exact Htruthy.
  - exists mf. auto.
Qed.

Lemma exported_office_in (datasets : list (str * dataset)) (fk ok : str)
    (oo : office_obj) :
  exported_office sha1_hexdigest float_repr datasets fk ok = Some oo ->
  exists fo, In fo (fst (merge_datasets sha1_hexdigest float_repr datasets))
             /\ In oo (fo_offices fo).
Proof.
  unfold exported_office, merged_office, merged_firm.
  destruct (od_get fk (merge_index' datasets)) as [mf|] eqn:Hmf; [|discriminate].
  destruct (od_get ok (mf_offices mf)) as [mo|] eqn:Hmo; [|discriminate].
  simpl. intros H. inversion H; subst oo.
  exists (finalize_firm mf). split.
  - unfold merge_datasets. simpl. apply in_map.
    apply od_get_in in Hmf. unfold od_values.
    change mf with (snd (fk, mf)). apply in_map. exact Hmf.
  - simpl. apply in_map. apply od_get_in in Hmo. unfold od_values.
    change mo with (snd (ok, mo)). apply in_map. exact Hmo.
Qed.

End FirstWins.



(** * Further properties of the code *)

(** ** Platforms and keys *)

Section PlatformFacts.
Context {U : UnicodeDB}.

Lemma norm_platform_cases (p : option str) :
  norm_platform p = u "Google Maps" \/ norm_platform p = u "Firmy.cz"
  \/ norm_platform p = u "Facebook" \/ norm_platform p = u "Other".
Proof.
  unfold norm_platform.
  destruct (negb (truthy_s p)); [tauto|].
  destruct (contains (u "google") (lower (or_empty p))); [tauto|].
  destruct (contains (u "firmy") (lower (or_empty p))); [tauto|].
  destruct (contains (u "facebook") (lower (or_empty p))); tauto.
Qed.

Lemma norm_platform_fixed (c : str) :
  In c PLATFORMS_PRIORITY -> norm_platform (Some c) = c.
Proof.
  intros [<-|[<-|[<-|[<-|H]]]]; try (vm_compute; reflexivity). destruct H.
Qed.

Lemma norm_platform_in (p : option str) : In (norm_platform p) PLATFORMS_PRIORITY.
Proof.
  destruct (norm_platform_cases p) as [->|[->|[->| ->]]]; simpl; tauto.
Qed.

Lemma norm_platform_idem (p : option str) :
  norm_platform (Some (norm_platform p)) = norm_platform p.
Proof. apply norm_platform_fixed, norm_platform_in. Qed.

Lemma contains_truthy (m t : str) :
  m <> [] -> contains m t = true -> truthy_s (Some t) = true /\ or_empty (Some t) = t.
Proof.
  intros Hm Hc. pose proof (contains_nonempty m t Hm Hc) as Hn.
  destruct t; [discriminate|]. split; reflexivity.
Qed.

Lemma norm_platform_google (m t : str) :
  forallb is_ascii m = true -> map ascii_lower m = u "google" ->
  contains m t = true -> norm_platform (Some t) = u "Google Maps".
Proof.
  intros Hascii Hm Hc.
  assert (Hne : m <> []) by (intros ->; discriminate).
  destruct (contains_truthy m t Hne Hc) as [Ht Ho].
  unfold norm_platform. rewrite Ht, Ho. simpl negb. cbv iota.
  pose proof (lower_keeps m t Hascii Hc) as Hl. rewrite Hm in Hl.
  rewrite Hl. reflexivity.
Qed.

End PlatformFacts.



Section ReviewKeyFacts.
Context {F : PyFloat} {U : UnicodeDB}.
Variable sha1_hexdigest : str -> str.
Variable float_repr : float -> str.

Lemma normalize_review_key (r : review) :
  review_dedupe_key sha1_hexdigest float_repr (normalize_review r)
  = review_dedupe_key sha1_hexdigest float_repr r.
Proof.
  unfold review_dedupe_key, normalize_review. simpl.
  rewrite norm_platform_idem. reflexivity.
Qed.

Lemma normalize_review_score (r : review) :
  completeness_score (normalize_review r) = completeness_score r.
Proof. reflexivity. Qed.

Lemma normalize_review_idem (r : review) :
  normalize_review (normalize_review r) = normalize_review r.
Proof.
  unfold normalize_review. simpl. rewrite norm_platform_idem. reflexivity.
Qed.

(** The key of a review with an id and the key of one without differ at the
    tag that follows the platform. *)
Lemma tag_differs (p1 p2 x y : str) :
  In p1 PLATFORMS_PRIORITY -> In p2 PLATFORMS_PRIORITY ->
  p1 ++ u "|rid:" ++ x <> p2 ++ u "|a:" ++ y.
Proof.
  intros [<-|[<-|[<-|[<-|H1]]]] [<-|[<-|[<-|[<-|H2]]]];
    try destruct H1; try destruct H2; vm_compute; discriminate.
Qed.

Lemma id_key_differs (r1 r2 : review) :
  truthy (review_id r1) = true -> truthy (review_id r2) = false ->
  review_dedupe_key sha1_hexdigest float_repr r1
  <> review_dedupe_key sha1_hexdigest float_repr r2.
Proof.
  intros H1 H2. unfold review_dedupe_key. rewrite H1, H2. cbv zeta.
  apply tag_differs; apply norm_platform_in.
Qed.

End ReviewKeyFacts.

(** X2.  Normalising a review changes neither its dedup key nor its
    completeness score, and normalising twice is normalising once: the merge
    could as well key the review as it was read. *)
Theorem normalize_review_keeps_key :
  forall (F : PyFloat) (U : UnicodeDB) (sha1_hexdigest : str -> str)
         (float_repr : float -> str) (r : review),
    review_dedupe_key sha1_hexdigest float_repr (normalize_review r)
    = review_dedupe_key sha1_hexdigest float_repr r
    /\ completeness_score (normalize_review r) = completeness_score r
    /\ normalize_review (normalize_review r) = normalize_review r
    /\ In (or_empty (platform (normalize_review r))) PLATFORMS_PRIORITY.
Proof.
  intros. split; [apply normalize_review_key|].
  split; [reflexivity|]. split; [apply normalize_review_idem|].
  simpl. pose proof (norm_platform_in (platform r)) as H.
  destruct (norm_platform (platform r)); [|exact H].
  destruct H as [H|[H|[H|[H|H]]]]; try discriminate H. destruct H.
Qed.

(** X3.  A review that carries an external id and a review that carries none
    never share a dedup key, whatever their other fields: the merge keeps
    both. *)
Theorem id_and_composite_keys_differ :
  forall (F : PyFloat) (U : UnicodeDB) (sha1_hexdigest : str -> str)
         (float_repr : float -> str) (r1 r2 : review),
    truthy (review_id r1) = true -> truthy (review_id r2) = false ->
    review_dedupe_key sha1_hexdigest float_repr r1
    <> review_dedupe_key sha1_hexdigest float_repr r2.
Proof. intros. apply id_key_differs; assumption. Qed.

(** X5.  The key of a firm starts with "w:" exactly when the firm has a
    website that is not blank, and with "n:" otherwise; so a record with a
    website and a record without one never share a key, even under the same
    name.  A record with neither website nor name has the key "n:". *)
Theorem firm_key_website_or_name :
  forall (F : PyFloat) (U : UnicodeDB) (f1 f2 : firm),
    let w (f : firm) := lower (strip (or_empty (f_website f))) in
    startswith (u "w:") (firm_key f1) = nonempty (w f1)
    /\ startswith (u "n:") (firm_key f1) = negb (nonempty (w f1))
    /\ (nonempty (w f1) = true -> nonempty (w f2) = false ->
        firm_key f1 <> firm_key f2)
    /\ (or_empty (f_website f1) = [] -> or_empty (f_firm_name f1) = [] ->
        firm_key f1 = u "n:").
Proof.
  intros F U f1 f2 w. unfold firm_key. fold (w f1). fold (w f2).
  change (u "w:") with [119; 58]. change (u "n:") with [110; 58].
  repeat split.
  - destruct (nonempty (w f1)); reflexivity.
  - destruct (nonempty (w f1)); reflexivity.
  - intros H1 H2. rewrite H1, H2. discriminate.
  - intros Hw Hn. unfold w. rewrite Hw, Hn. reflexivity.
Qed.

(** ** Slugs are fixed points *)

Lemma slug_char_fixed (c : char) :
  is_slug_char c = true -> ascii_lower c = c /\ is_ascii c = true.
Proof. intros H. split; char_cases. Qed.

Lemma slug_char_alnum (c : char) :
  is_slug_char c = true -> is_ascii_alnum c = negb (is_hyphen c).
Proof. intros H. char_cases. Qed.

Section SlugFixed.
Context {U : UnicodeDB}.

Lemma decomp_ascii (z : str) :
  forallb is_ascii z = true ->
  filter (fun ch => combining ch =? 0) (flat_map decomp_cp z) = z.
Proof.
  induction z as [|c z IH]; intros H; [reflexivity|].
  simpl in H. apply andb_true_iff in H. destruct H as [Hc H].
  simpl. unfold decomp_cp at 1. unfold is_ascii in Hc. rewrite Hc. simpl.
  unfold combining at 1. rewrite Hc. simpl. rewrite IH by exact H. reflexivity.
Qed.

Lemma sub_plus_slug (z : str) (fl : bool) :
  forallb is_slug_char z = true -> slug_shape fl z = true ->
  sub_plus (fun c => negb (is_ascii_alnum c)) (u "-") fl z = z.
Proof.
  change (u "-") with [hyphen].
  revert fl. induction z as [|c z IH]; intros fl Hc H; [reflexivity|].
  simpl in Hc. apply andb_true_iff in Hc. destruct Hc as [Hc Hz].
  simpl in H. simpl. rewrite (slug_char_alnum _ Hc), negb_involutive.
  destruct (is_hyphen c) eqn:E.
  - apply andb_true_iff in H. destruct H as [Hfl H].
    apply negb_true_iff in Hfl. subst fl. simpl.
    rewrite (IH true Hz H). unfold is_hyphen in E. apply N.eqb_eq in E.
    subst c. reflexivity.
  - apply andb_true_iff in H. destruct H as [_ H].
    rewrite (IH false Hz H). reflexivity.
Qed.

Lemma strip_by_fixed (z : str) :
  startswith (u "-") z = false -> startswith (u "-") (rev z) = false ->
  strip_by is_hyphen z = z.
Proof.
  rewrite !startswith_hyphen. intros Hh Hl.
  assert (Hstrip : forall y, match y with [] => false | c :: _ => is_hyphen c end
                             = false -> lstrip_by is_hyphen y = y).
  { intros [|c y] Hy; [reflexivity|]. simpl. rewrite Hy. reflexivity. }
  unfold strip_by, rstrip_by. rewrite (Hstrip z Hh), (Hstrip (rev z) Hl).
  apply rev_involutive.
Qed.

Lemma map_lower_slug (z : str) :
  forallb is_slug_char z = true -> map ascii_lower z = z.
Proof.
  induction z as [|c z IH]; intros H; [reflexivity|].
  simpl in H. apply andb_true_iff in H. destruct H as [Hc H].
  simpl. rewrite IH by exact H.
  destruct (slug_char_fixed _ Hc) as [-> _]. reflexivity.
Qed.

Lemma slug_chars_ascii (z : str) :
  forallb is_slug_char z = true -> forallb is_ascii z = true.
Proof.
  induction z as [|c z IH]; intros H; [reflexivity|].
  simpl in H. apply andb_true_iff in H. destruct H as [Hc H].
  simpl. rewrite IH by exact H.
  destruct (slug_char_fixed _ Hc) as [_ ->]. reflexivity.
Qed.

Lemma slugify_slug_shape (s : str) : slug_shape false (slugify s) = true.
Proof.
  rewrite slugify_spec. unfold slug_spec.
  set (x := strip_by is_hyphen _).
  assert (Hx : slug_shape false x = true) by apply trimmed_shape.
  destruct (map_lower_shape _ _ Hx) as [Hl _].
  destruct (nonempty (map ascii_lower x)); [exact Hl | reflexivity].
Qed.

Lemma slug_fixed (z : str) :
  nonempty z = true -> forallb is_slug_char z = true ->
  slug_shape false z = true ->
  startswith (u "-") z = false -> startswith (u "-") (rev z) = false ->
  slugify z = z.
Proof.
  intros Hne Hc Hs Hh Hl. rewrite slugify_spec. unfold slug_spec.
  rewrite (decomp_ascii z (slug_chars_ascii z Hc)).
  rewrite (sub_plus_slug z false Hc Hs).
  rewrite (strip_by_fixed z Hh Hl).
  rewrite (map_lower_slug z Hc), Hne. reflexivity.
Qed.

End SlugFixed.

(** X4.  A slug is its own slug: [slugify] is idempotent, so an id that was
    derived from a website or a name is stable when it is slugged again. *)
Theorem slugify_idempotent :
  forall (U : UnicodeDB) (s : str), slugify (slugify s) = slugify s.
Proof.
  intros U s.
  destruct (slugify_shape s) as (Hne & Hc & _ & Hh & Hl).
  apply slug_fixed; try assumption. apply slugify_slug_shape.
Qed.

(** ** The index, key by key *)

Lemma set_add_in (x k : str) (s : list str) :
  In k (set_add x s) <-> k = x \/ In k s.
Proof.
  unfold set_add. destruct (existsb (str_eqb x) s) eqn:E.
  - split; [auto|]. intros [->|H]; [|exact H].
    apply existsb_exists in E. destruct E as [y [Hy Hxy]].
    apply str_eqb_eq in Hxy. subst y. exact Hy.
  - rewrite in_app_iff. simpl. split; intros [H|H]; auto.
    + destruct H as [H|[]]. auto.
Qed.

Lemma set_add_nodup (x : str) (s : list str) : NoDup s -> NoDup (set_add x s).
Proof.
  intros Hnd. unfold set_add. destruct (existsb (str_eqb x) s) eqn:E; [exact Hnd|].
  assert (Hnot : ~ In x s).
  { intros Hin. assert (existsb (str_eqb x) s = true); [|congruence].
    apply existsb_exists. exists x. split; [exact Hin | apply str_eqb_refl]. }
  apply NoDup_rev in Hnd. rewrite <- (rev_involutive (s ++ [x])).
  apply NoDup_rev. rewrite rev_app_distr. simpl. constructor; [|exact Hnd].
  rewrite <- in_rev. exact Hnot.
Qed.

Lemma fold_set_add_in (l acc : list str) (k : str) :
  In k (fold_left (fun acc k => set_add k acc) l acc) <-> In k l \/ In k acc.
Proof.
  revert acc. induction l as [|x l IH]; intros acc; simpl; [tauto|].
  rewrite IH, set_add_in. split; intros H; intuition auto.
Qed.

Lemma fold_set_add_nodup (l acc : list str) :
  NoDup acc -> NoDup (fold_left (fun acc k => set_add k acc) l acc).
Proof.
  revert acc. induction l as [|x l IH]; intros acc H; simpl; [exact H|].
  apply IH, set_add_nodup, H.
Qed.

Lemma first_occurrences_spec (l : list str) :
  NoDup (first_occurrences l) /\ forall k, In k (first_occurrences l) <-> In k l.
Proof.
  split; [apply fold_set_add_nodup; constructor|].
  intros k. unfold first_occurrences. rewrite fold_set_add_in. simpl. tauto.
Qed.

Lemma od_keys_set_add {V : Type} (k : str) (v : V) (d : odict V) :
  od_keys (od_set k v d) = set_add k (od_keys d).
Proof.
  rewrite od_keys_set. unfold set_add, od_mem.
  replace (existsb (str_eqb k) (od_keys d))
    with (match od_get k d with Some _ => true | None => false end);
    [reflexivity|].
  induction d as [|[k' v'] d IH]; simpl; [reflexivity|].
  destruct (str_eqb k k'); [reflexivity|exact IH].
Qed.

Section IndexFacts.
Context {F : PyFloat} {U : UnicodeDB}.
Variable sha1_hexdigest : str -> str.
Variable float_repr : float -> str.

Local Abbreviation merge_office' := (merge_office sha1_hexdigest float_repr).
Local Abbreviation merge_firm' := (merge_firm sha1_hexdigest float_repr).
Local Abbreviation merge_index' := (merge_index sha1_hexdigest float_repr).
Local Abbreviation update_firm' := (update_firm sha1_hexdigest float_repr).

Lemma merge_index_flat (datasets : list (str * dataset)) :
  merge_index' datasets = fold_left merge_firm' (all_firms datasets) [].
Proof.
  unfold merge_index, all_firms. generalize (@nil (str * mfirm)).
  induction datasets as [|src ds IH]; intros idx; simpl; [reflexivity|].
  rewrite fold_left_app. apply IH.
Qed.

Lemma od_keys_merge_firms (firms : list firm) (idx : odict mfirm) :
  od_keys (fold_left merge_firm' firms idx)
  = fold_left (fun acc k => set_add k acc) (map firm_key firms) (od_keys idx).
Proof.
  revert idx. induction firms as [|f l IH]; intros idx; simpl; [reflexivity|].
  rewrite IH, merge_firm_update, od_keys_set_add. reflexivity.
Qed.

Lemma od_keys_merge_offices (offices : list office) (offs : odict moffice) :
  od_keys (fold_left merge_office' offices offs)
  = fold_left (fun acc k => set_add k acc) (map office_key offices) (od_keys offs).
Proof.
  revert offs. induction offices as [|o l IH]; intros offs; simpl; [reflexivity|].
  rewrite IH, merge_office_update, od_keys_set_add. reflexivity.
Qed.

(** A projection of the stored firm that each record of its key updates by
    [step] is the fold of [step] over the records of that key. *)
Section Collected.
Context {A : Type}.
Variable proj : mfirm -> A.
Variable none : A.
Variable step : A -> firm -> A.
Hypothesis proj_update : forall mf f, proj (update_firm' mf f) = step (proj mf) f.
Hypothesis proj_new : forall f, step (proj (new_firm f)) f = step none f.
Variable fk : str.

Lemma collected_merge_firm (idx : odict mfirm) (f : firm) :
  collected proj none fk (merge_firm' idx f)
  = if str_eqb (firm_key f) fk then step (collected proj none fk idx) f
    else collected proj none fk idx.
Proof.
  unfold collected. rewrite merge_firm_update.
  destruct (str_eqb (firm_key f) fk) eqn:E.
  - apply str_eqb_eq in E. rewrite <- E, od_get_set_same, proj_update.
    destruct (od_get (firm_key f) idx); [reflexivity | apply proj_new].
  - apply str_eqb_neq in E. rewrite od_get_set_other by congruence. reflexivity.
Qed.

Lemma collected_merge_firms (firms : list firm) (idx : odict mfirm) :
  collected proj none fk (fold_left merge_firm' firms idx)
  = fold_left step (firms_with_key fk firms) (collected proj none fk idx).
Proof.
  revert idx. induction firms as [|f l IH]; intros idx; simpl; [reflexivity|].
  rewrite IH, collected_merge_firm.
  destruct (str_eqb (firm_key f) fk); reflexivity.
Qed.

Lemma collected_merge_index (datasets : list (str * dataset)) :
  collected proj none fk (merge_index' datasets)
  = fold_left step (firms_with_key fk (all_firms datasets)) none.
Proof. rewrite merge_index_flat. apply collected_merge_firms. Qed.

End Collected.

Lemma merged_firm_key_seen (datasets : list (str * dataset)) (fk : str) (mf : mfirm) :
  merged_firm sha1_hexdigest float_repr datasets fk = Some mf ->
  firms_with_key fk (all_firms datasets) <> [].
Proof.
  unfold merged_firm. intros H Hnil.
  assert (Hin : In fk (od_keys (merge_index' datasets))).
  { apply od_get_in in H. change fk with (fst (fk, mf)). apply in_map. exact H. }
  rewrite merge_index_flat, od_keys_merge_firms in Hin.
  apply fold_set_add_in in Hin. destruct Hin as [Hin|[]].
  apply in_map_iff in Hin. destruct Hin as [f [Hf Hin]].
  assert (Hc : In f (firms_with_key fk (all_firms datasets))).
  { apply filter_In. split; [exact Hin|]. apply str_eqb_eq. exact Hf. }
  rewrite Hnil in Hc. destruct Hc.
Qed.

End IndexFacts.

(** X6.  The merge keeps one firm per distinct firm key, in the order in
    which the keys first occur in the sources: the keys of the index are the
    first occurrences of the keys of the firm records, and the number of
    exported firms, reported as [firms_collected], is the number of distinct
    keys. *)
Theorem one_firm_per_key :
  forall (F : PyFloat) (U : UnicodeDB) (sha1_hexdigest : str -> str)
         (float_repr : float -> str) (datasets : list (str * dataset)),
    let keys := map firm_key (all_firms datasets) in
    let merged := merge_datasets sha1_hexdigest float_repr datasets in
    od_keys (merge_index sha1_hexdigest float_repr datasets)
    = first_occurrences keys
    /\ NoDup (first_occurrences keys)
    /\ (forall k, In k (first_occurrences keys) <-> In k keys)
    /\ List.length (fst merged) = List.length (first_occurrences keys)
    /\ firms_collected (snd merged) = List.length (first_occurrences keys).
Proof.
  intros F U sha1_hexdigest float_repr datasets keys merged.
  assert (Hkeys : od_keys (merge_index sha1_hexdigest float_repr datasets)
                  = first_occurrences keys).
  { rewrite merge_index_flat, od_keys_merge_firms. reflexivity. }
  destruct (first_occurrences_spec keys) as [Hnd Hin].
  assert (Hlen : List.length (fst merged) = List.length (first_occurrences keys)).
  { rewrite <- Hkeys. unfold merged, merge_datasets, od_values, od_keys. simpl.
    rewrite !length_map. reflexivity. }
  repeat split; try assumption; try apply Hin.
Qed.

Lemma fold_left_flat_map {A B C : Type} (g : A -> C -> A) (h : B -> list C)
    (l : list B) (a : A) :
  fold_left (fun acc b => fold_left g (h b) acc) l a
  = fold_left g (flat_map h l) a.
Proof.
  revert a. induction l as [|b l IH]; intros a; simpl; [reflexivity|].
  rewrite fold_left_app. apply IH.
Qed.

Lemma map_flat_map {A B C : Type} (g : B -> C) (h : A -> list B) (l : list A) :
  map g (flat_map h l) = flat_map (fun x => map g (h x)) l.
Proof.
  induction l as [|x l IH]; simpl; [reflexivity|].
  rewrite map_app, IH. reflexivity.
Qed.

Lemma fold_left_filter_map {A B C : Type} (g : A -> C -> A) (c : B -> bool)
    (h : B -> C) (l : list B) (a : A) :
  fold_left (fun acc b => if c b then g acc (h b) else acc) l a
  = fold_left g (map h (filter c l)) a.
Proof.
  revert a. induction l as [|b l IH]; intros a; simpl; [reflexivity|].
  rewrite IH. destruct (c b); reflexivity.
Qed.

Lemma truthy_s_or_empty (o : option str) : truthy_s o = nonempty (or_empty o).
Proof. destruct o as [[|c s]|]; reflexivity. Qed.

Lemma first_occurrences_constant (l : list str) (k : str) :
  (forall x, In x l -> x = k) -> (List.length (first_occurrences l) <= 1)%nat.
Proof.
  intros Hall. destruct (first_occurrences_spec l) as [Hnd Hin].
  destruct (first_occurrences l) as [|a [|b r]]; simpl; try lia.
  assert (a = k) by (apply Hall, Hin; simpl; auto).
  assert (b = k) by (apply Hall, Hin; simpl; auto).
  subst. inversion Hnd as [|? ? Hnot _]. exfalso. apply Hnot. simpl. auto.
Qed.

Lemma longer_name_fold (l : list str) (cur : str) :
  (len cur <= len (fold_left longer_name l cur))%nat
  /\ (forall n, In n l -> (len n <= len (fold_left longer_name l cur))%nat)
  /\ (fold_left longer_name l cur = cur
      \/ (In (fold_left longer_name l cur) l
          /\ nonempty (fold_left longer_name l cur) = true)).
Proof.
  revert cur. induction l as [|n l IH]; intros cur; simpl.
  - split; [lia|]. split; [tauto|auto].
  - destruct (IH (longer_name cur n)) as (H1 & H2 & H3).
    assert (Hstep : (len cur <= len (longer_name cur n))%nat
                    /\ (len n <= len (longer_name cur n))%nat
                    /\ (longer_name cur n = cur
                        \/ (longer_name cur n = n /\ nonempty n = true))).
    { unfold longer_name. destruct (nonempty n) eqn:En; cbn [andb].
      - destruct (negb (nonempty cur) || (len cur <? len n)%nat) eqn:Ec.
        + split; [|split; [lia | auto]].
          apply orb_true_iff in Ec. destruct Ec as [Ec|Ec].
          * destruct cur; [unfold len; simpl; lia | discriminate].
          * apply Nat.ltb_lt in Ec. lia.
        + apply orb_false_iff in Ec. destruct Ec as [_ Ec].
          apply Nat.ltb_ge in Ec. split; [lia|]. split; [lia | auto].
      - destruct n; [|discriminate]. unfold len. simpl.
        split; [lia|]. split; [lia | auto]. }
    destruct Hstep as (S1 & S2 & S3).
    split; [lia|]. split.
    + intros m [<-|Hm]; [lia | apply H2, Hm].
    + destruct H3 as [H3|[H3 H4]]; [|right; auto].
      rewrite H3. destruct S3 as [S3|[S3 S4]]; [left; exact S3|].
      right. rewrite S3. auto.
Qed.

Section PerFirm.
Context {F : PyFloat} {U : UnicodeDB}.
Variable sha1_hexdigest : str -> str.
Variable float_repr : float -> str.

Local Abbreviation merged_firm' := (merged_firm sha1_hexdigest float_repr).

Lemma merged_firm_collected {A : Type} (proj : mfirm -> A) (none : A)
    (datasets : list (str * dataset)) (fk : str) (mf : mfirm) :
  merged_firm' datasets fk = Some mf ->
  collected proj none fk (merge_index sha1_hexdigest float_repr datasets) = proj mf.
Proof. unfold merged_firm, collected. intros ->. reflexivity. Qed.

Lemma office_keys_collected (datasets : list (str * dataset)) (fk : str) (mf : mfirm) :
  merged_firm' datasets fk = Some mf ->
  od_keys (mf_offices mf)
  = first_occurrences (map office_key (office_records fk datasets)).
Proof.
  intros Hmf.
  rewrite <- (merged_firm_collected (fun m => od_keys (mf_offices m)) [] _ _ _ Hmf).
  rewrite (collected_merge_index sha1_hexdigest float_repr
             (fun m => od_keys (mf_offices m)) []
             (fun acc f => fold_left (fun acc k => set_add k acc)
                             (map office_key (f_offices f)) acc)).
  - unfold first_occurrences, office_records.
    rewrite (fold_left_flat_map (fun acc k => set_add k acc)
               (fun f => map office_key (f_offices f))).
    rewrite map_flat_map. reflexivity.
  - intros m f. simpl. apply od_keys_merge_offices.
  - reflexivity.
Qed.

Lemma firm_ids_collected (datasets : list (str * dataset)) (fk : str) (mf : mfirm) :
  merged_firm' datasets fk = Some mf ->
  mf_firm_ids mf = first_occurrences (observed_ids fk datasets).
Proof.
  intros Hmf.
  rewrite <- (merged_firm_collected mf_firm_ids [] _ _ _ Hmf).
  rewrite (collected_merge_index sha1_hexdigest float_repr mf_firm_ids []
             (fun acc f => if truthy_s (f_firm_id f)
                           then set_add (or_empty (f_firm_id f)) acc else acc)).
  - unfold first_occurrences, observed_ids.
    apply (fold_left_filter_map (fun acc k => set_add k acc)).
  - reflexivity.
  - intros f. simpl. destruct (truthy_s (f_firm_id f)); [|reflexivity].
    unfold set_add. simpl. rewrite str_eqb_refl. reflexivity.
Qed.

Lemma firm_name_collected (datasets : list (str * dataset)) (fk : str) (mf : mfirm) :
  merged_firm' datasets fk = Some mf ->
  or_empty (mf_firm_name mf) = fold_left longer_name (observed_names fk datasets) [].
Proof.
  intros Hmf.
  rewrite <- (merged_firm_collected (fun m => or_empty (mf_firm_name m)) [] _ _ _ Hmf).
  rewrite (collected_merge_index sha1_hexdigest float_repr
             (fun m => or_empty (mf_firm_name m)) []
             (fun cur f => longer_name cur (or_empty (f_firm_name f)))).
  - unfold observed_names. generalize (@nil char).
    induction (firms_with_key fk (all_firms datasets)) as [|f l IH];
      intros cur; simpl; [reflexivity | apply IH].
  - intros m f. simpl. unfold longer_name.
    rewrite !truthy_s_or_empty.
    destruct (nonempty (or_empty (f_firm_name f))
              && (negb (nonempty (or_empty (mf_firm_name m)))
                  || (len (or_empty (mf_firm_name m))
                      <? len (or_empty (f_firm_name f)))%nat)); reflexivity.
  - intros f. simpl. unfold longer_name.
    destruct (or_empty (f_firm_name f)) as [|c n]; [reflexivity|].
    simpl. rewrite Nat.ltb_irrefl. reflexivity.
Qed.

End PerFirm.

Lemma novak_merged_ok :
  merged_firm (F := exact) (U := czech_db) no_digest fraction_repr
    novak_sources novak_key = Some novak_merged.
Proof. vm_compute. reflexivity. Qed.

(** X7.  Under a firm the merge keeps one office per distinct office key, in
    the order in which the keys first occur among the office records of that
    firm; the firm exports as many offices as it has distinct office keys.
    In particular all its records without city and address end in one
    office. *)
Theorem one_office_per_key :
  forall (F : PyFloat) (U : UnicodeDB) (sha1_hexdigest : str -> str)
         (float_repr : float -> str) (datasets : list (str * dataset))
         (fk : str) (mf : mfirm),
    merged_firm sha1_hexdigest float_repr datasets fk = Some mf ->
    let keys := map office_key (office_records fk datasets) in
    od_keys (mf_offices mf) = first_occurrences keys
    /\ NoDup (od_keys (mf_offices mf))
    /\ List.length (fo_offices (finalize_firm mf))
       = List.length (first_occurrences keys)
    /\ ((forall o, In o (office_records fk datasets) ->
                   or_empty (o_city o) = [] /\ or_empty (o_address o) = []) ->
        (List.length (fo_offices (finalize_firm mf)) <= 1)%nat).
Proof.
  intros F U sha1_hexdigest float_repr datasets fk mf Hmf keys.
  pose proof (office_keys_collected _ _ _ _ _ Hmf) as Hkeys. fold keys in Hkeys.
  assert (Hlen : List.length (fo_offices (finalize_firm mf))
                 = List.length (first_occurrences keys)).
  { rewrite <- Hkeys. unfold od_keys. simpl. unfold od_values.
    rewrite !length_map. reflexivity. }
  split; [exact Hkeys|]. split.
  - rewrite Hkeys. apply first_occurrences_spec.
  - split; [exact Hlen|]. intros Hall. rewrite Hlen.
    apply (first_occurrences_constant keys (u "unknown")).
    intros k Hk. unfold keys in Hk. apply in_map_iff in Hk.
    destruct Hk as [o [<- Ho]]. destruct (Hall o Ho) as [Hc Ha].
    unfold office_key. rewrite Hc, Ha. reflexivity.
Qed.

Lemma one_office_per_key_witness :
  List.length (fo_offices (finalize_firm (U := czech_db) (novak_merged (F := exact))))
  = 2%nat
  /\ od_keys (mf_offices (novak_merged (F := exact))) = [u "unknown"; u "brno"].
Proof.
  destruct (one_office_per_key exact czech_db no_digest fraction_repr
              novak_sources novak_key novak_merged novak_merged_ok)
    as (Hkeys & _ & Hlen & _).
  split; [rewrite Hlen | rewrite Hkeys]; vm_compute; reflexivity.
Defined.



(** X9.  The exported name of a firm is the longest name among the records
    of its key: no record of the key has a longer name, and the name is one
    of those names unless all of them are empty or absent. *)
Theorem longest_firm_name_wins :
  forall (F : PyFloat) (U : UnicodeDB) (sha1_hexdigest : str -> str)
         (float_repr : float -> str) (datasets : list (str * dataset))
         (fk : str) (mf : mfirm),
    merged_firm sha1_hexdigest float_repr datasets fk = Some mf ->
    let name := or_empty (fo_firm_name (finalize_firm mf)) in
    (forall n, In n (observed_names fk datasets) -> (len n <= len name)%nat)
    /\ (name = [] \/ In name (observed_names fk datasets)).
Proof.
  intros F U sha1_hexdigest float_repr datasets fk mf Hmf name.
  assert (Hname : name = fold_left longer_name (observed_names fk datasets) []).
  { unfold name. cbn [finalize_firm fo_firm_name].
    apply (firm_name_collected _ _ _ _ _ Hmf). }
  destruct (longer_name_fold (observed_names fk datasets) []) as (_ & H2 & H3).
  rewrite <- Hname in H2, H3. split; [exact H2|].
  destruct H3 as [H3|[H3 _]]; auto.
Qed.

Lemma longest_firm_name_wins_witness :
  (len (u "Novák") <= len (u "Novák & spol."))%nat.
Proof.
  apply (proj1 (longest_firm_name_wins exact czech_db no_digest fraction_repr
                  novak_sources novak_key novak_merged novak_merged_ok)).
  vm_compute. auto.
Defined.

Lemma id_and_composite_keys_differ_witness :
  review_dedupe_key (F := exact) (U := czech_db) no_digest fraction_repr
    (review_with_id (u "r9") None)
  <> review_dedupe_key (F := exact) (U := czech_db) no_digest fraction_repr
       (rated (JInt 5) (JInt 5)).
Proof.
  apply id_and_composite_keys_differ; reflexivity.
Defined.

(** ** Merging reviews *)

Lemma fold_left_invariant_in {A B : Type} (P : A -> Prop) (f : A -> B -> A)
    (l : list B) (a : A) :
  (forall a b, In b l -> P a -> P (f a b)) -> P a -> P (fold_left f l a).
Proof.
  revert a. induction l as [|b l IH]; intros a Hstep Ha; simpl; [exact Ha|].
  apply IH.
  - intros a' b' Hb'. apply Hstep. right. exact Hb'.
  - apply Hstep; [left; reflexivity | exact Ha].
Qed.

Lemma od_set_values_in {V : Type} (k : str) (v x : V) (d : odict V) :
  In x (od_values (od_set k v d)) -> x = v \/ In x (od_values d).
Proof.
  unfold od_values. induction d as [|[k' v'] d IH]; simpl.
  - intros [H|[]]. auto.
  - destruct (str_eqb k k'); simpl.
    + intros [H|H]; auto.
    + intros [H|H]; [auto|]. destruct (IH H); auto.
Qed.

Lemma od_set_length {V : Type} (k : str) (v : V) (d : odict V) :
  (List.length (od_set k v d) <= S (List.length d))%nat.
Proof.
  induction d as [|[k' v'] d IH]; simpl; [lia|].
  destruct (str_eqb k k'); simpl; lia.
Qed.

Lemma od_set_sum {V : Type} (g : V -> nat) (k : str) (v : V) (d : odict V) :
  (list_sum (map (fun kv => g (snd kv)) (od_set k v d))
   + match od_get k d with Some old => g old | None => 0 end
   = list_sum (map (fun kv => g (snd kv)) d) + g v)%nat.
Proof.
  induction d as [|[k' v'] d IH]; simpl; [lia|].
  destruct (str_eqb k k'); simpl; lia.
Qed.

Section ReviewMerge.
Context {F : PyFloat} {U : UnicodeDB}.
Variable sha1_hexdigest : str -> str.
Variable float_repr : float -> str.

Local Abbreviation key := (review_dedupe_key sha1_hexdigest float_repr).
Local Abbreviation merge_review' := (merge_review sha1_hexdigest float_repr).
Local Abbreviation merge_office' := (merge_office sha1_hexdigest float_repr).
Local Abbreviation merge_firm' := (merge_firm sha1_hexdigest float_repr).
Local Abbreviation merge_index' := (merge_index sha1_hexdigest float_repr).

Lemma merge_review_grows (rm : odict review) (r : review) (k : str) (st : review) :
  od_get k rm = Some st ->
  exists st', od_get k (merge_review' rm r) = Some st'
              /\ (completeness_score st <= completeness_score st')%Z.
Proof.
  intros Hst. destruct (str_eqb k (key (normalize_review r))) eqn:E.
  - apply str_eqb_eq in E. subst k.
    rewrite (merge_review_present _ _ _ _ _ Hst).
    eexists. split; [reflexivity|].
    destruct (Z.gtb_spec (completeness_score (normalize_review r))
                (completeness_score st)); lia.
  - apply str_eqb_neq in E. exists st.
    rewrite merge_review_other by exact E. split; [exact Hst | lia].
Qed.

Lemma merge_review_covers (rm : odict review) (r : review) :
  exists st, od_get (key (normalize_review r)) (merge_review' rm r) = Some st
             /\ (completeness_score (normalize_review r)
                 <= completeness_score st)%Z.
Proof.
  destruct (od_get (key (normalize_review r)) rm) as [old|] eqn:E.
  - rewrite (merge_review_present _ _ _ _ _ E).
    eexists. split; [reflexivity|].
    destruct (Z.gtb_spec (completeness_score (normalize_review r))
                (completeness_score old)); lia.
  - rewrite (merge_review_absent _ _ _ _ E), od_get_set_same.
    eexists. split; [reflexivity | lia].
Qed.

Lemma merge_review_noop (rm : odict review) (r old : review) :
  od_get (key (normalize_review r)) rm = Some old ->
  (completeness_score (normalize_review r) <= completeness_score old)%Z ->
  merge_review' rm r = rm.
Proof.
  intros Hold Hle. unfold merge_review. rewrite Hold.
  destruct (Z.gtb_spec (completeness_score (normalize_review r))
              (completeness_score old)); [lia | reflexivity].
Qed.

Lemma merge_review_origin (rm : odict review) (r st : review) :
  In st (od_values (merge_review' rm r)) ->
  In st (od_values rm) \/ st = normalize_review r.
Proof.
  unfold merge_review.
  destruct (od_get (key (normalize_review r)) rm) as [old|].
  - destruct (completeness_score (normalize_review r) >? completeness_score old)%Z;
      [|auto].
    intros H. apply od_set_values_in in H. tauto.
  - intros H. apply od_set_values_in in H. tauto.
Qed.

Lemma merge_review_length (rm : odict review) (r : review) :
  (List.length (merge_review' rm r) <= S (List.length rm))%nat.
Proof.
  unfold merge_review.
  destruct (od_get (key (normalize_review r)) rm) as [old|].
  - destruct (completeness_score (normalize_review r) >? completeness_score old)%Z;
      [apply od_set_length | lia].
  - apply od_set_length.
Qed.

Lemma merge_reviews_grow (l : list review) (rm : odict review) (k : str)
    (st : review) :
  od_get k rm = Some st ->
  exists st', od_get k (fold_left merge_review' l rm) = Some st'
              /\ (completeness_score st <= completeness_score st')%Z.
Proof.
  revert rm st. induction l as [|r l IH]; intros rm st Hst; simpl.
  - exists st. split; [exact Hst | lia].
  - destruct (merge_review_grows rm r k st Hst) as [st1 [H1 Hle1]].
    destruct (IH _ _ H1) as [st2 [H2 Hle2]].
    exists st2. split; [exact H2 | lia].
Qed.

Lemma merge_reviews_cover (l : list review) (rm : odict review) (r : review) :
  In r l ->
  exists st, od_get (key (normalize_review r)) (fold_left merge_review' l rm)
             = Some st
             /\ (completeness_score (normalize_review r)
                 <= completeness_score st)%Z.
Proof.
  revert rm. induction l as [|x l IH]; intros rm Hin; [destruct Hin|].
  simpl. destruct Hin as [->|Hin]; [|apply IH, Hin].
  destruct (merge_review_covers rm r) as [st1 [H1 Hle1]].
  destruct (merge_reviews_grow l _ _ _ H1) as [st2 [H2 Hle2]].
  exists st2. split; [exact H2 | lia].
Qed.

Lemma merge_reviews_origin (l : list review) (rm : odict review) (st : review) :
  In st (od_values (fold_left merge_review' l rm)) ->
  In st (od_values rm) \/ exists r, In r l /\ st = normalize_review r.
Proof.
  revert rm. induction l as [|x l IH]; intros rm; simpl; [auto|].
  intros H. destruct (IH _ H) as [H1|[r [Hr Hst]]].
  - destruct (merge_review_origin _ _ _ H1) as [H2|H2]; [auto|].
    right. exists x. auto.
  - right. exists r. auto.
Qed.

Lemma merge_reviews_length (l : list review) (rm : odict review) :
  (List.length (fold_left merge_review' l rm)
   <= List.length rm + List.length l)%nat.
Proof.
  revert rm. induction l as [|x l IH]; intros rm; simpl; [lia|].
  specialize (IH (merge_review' rm x)).
  pose proof (merge_review_length rm x). lia.
Qed.

(** Reviews that the map already covers leave it as it is. *)
Lemma merge_reviews_covered (l : list review) (rm : odict review) :
  (forall r, In r l ->
             exists st, od_get (key (normalize_review r)) rm = Some st
                        /\ (completeness_score (normalize_review r)
                            <= completeness_score st)%Z) ->
  fold_left merge_review' l rm = rm.
Proof.
  induction l as [|x l IH]; intros Hcov; simpl; [reflexivity|].
  destruct (Hcov x (or_introl eq_refl)) as [st [Hst Hle]].
  rewrite (merge_review_noop rm x st Hst Hle).
  apply IH. intros r Hr. apply Hcov. right. exact Hr.
Qed.

End ReviewMerge.

(** X10.  After the reviews of an office record are merged into a review
    map, the map holds under the key of each of them a review that is at
    least as complete; what the map held before is still there under its key
    or replaced by a review at least as complete; every review of the map was
    in it before or is one of the merged reviews, normalised; and the map
    grew by at most the number of merged reviews. *)
Theorem dedup_keeps_most_complete :
  forall (F : PyFloat) (U : UnicodeDB) (sha1_hexdigest : str -> str)
         (float_repr : float -> str) (l : list review) (rm : odict review),
    let key := review_dedupe_key sha1_hexdigest float_repr in
    let rm' := fold_left (merge_review sha1_hexdigest float_repr) l rm in
    (forall r, In r l ->
               exists st, od_get (key (normalize_review r)) rm' = Some st
                          /\ (completeness_score (normalize_review r)
                              <= completeness_score st)%Z)
    /\ (forall k st, od_get k rm = Some st ->
                     exists st', od_get k rm' = Some st'
                                 /\ (completeness_score st
                                     <= completeness_score st')%Z)
    /\ (forall st, In st (od_values rm') ->
                   In st (od_values rm)
                   \/ exists r, In r l /\ st = normalize_review r)
    /\ (List.length rm' <= List.length rm + List.length l)%nat.
Proof.
  intros F U sha1_hexdigest float_repr l rm key rm'. repeat split.
  - intros r Hr. apply merge_reviews_cover. exact Hr.
  - intros k st Hst. apply merge_reviews_grow. exact Hst.
  - apply merge_reviews_origin.
  - apply merge_reviews_length.
Qed.

(** X11.  Merging the same reviews a second time changes nothing: a review
    met again never replaces what is stored, since it is not strictly more
    complete. *)
Theorem merging_reviews_again_changes_nothing :
  forall (F : PyFloat) (U : UnicodeDB) (sha1_hexdigest : str -> str)
         (float_repr : float -> str) (l : list review) (rm : odict review),
    let step := merge_review sha1_hexdigest float_repr in
    fold_left step l (fold_left step l rm) = fold_left step l rm
    /\ fold_left step (l ++ l) rm = fold_left step l rm.
Proof.
  intros F U sha1_hexdigest float_repr l rm step.
  assert (H : fold_left step l (fold_left step l rm) = fold_left step l rm).
  { apply merge_reviews_covered. intros r Hr.
    apply merge_reviews_cover. exact Hr. }
  split; [exact H|]. rewrite fold_left_app. exact H.
Qed.

(** ** The reviews of a merged dataset *)

Section DatasetReviews.
Context {F : PyFloat} {U : UnicodeDB}.
Variable sha1_hexdigest : str -> str.
Variable float_repr : float -> str.

Local Abbreviation key := (review_dedupe_key sha1_hexdigest float_repr).
Local Abbreviation merge_review' := (merge_review sha1_hexdigest float_repr).
Local Abbreviation merge_office' := (merge_office sha1_hexdigest float_repr).
Local Abbreviation merge_firm' := (merge_firm sha1_hexdigest float_repr).
Local Abbreviation merge_index' := (merge_index sha1_hexdigest float_repr).
Local Abbreviation merge_datasets' := (merge_datasets sha1_hexdigest float_repr).
Local Abbreviation update_office' := (update_office sha1_hexdigest float_repr).

Section Origin.
Variable P : review -> Prop.

Local Abbreviation map_all := (Forall (fun kr : str * review => P (snd kr))).
Local Abbreviation offices_all :=
  (Forall (fun ko : str * moffice => map_all (mo_reviews_map (snd ko)))).

Lemma merge_reviews_all (l : list review) (rm : odict review) :
  (forall r, In r l -> P (normalize_review r)) ->
  map_all rm -> map_all (fold_left merge_review' l rm).
Proof.
  intros Hl. apply fold_left_invariant_in. intros a r Hr Ha.
  unfold merge_review.
  destruct (od_get (key (normalize_review r)) a) as [old|].
  - destruct (completeness_score (normalize_review r) >? completeness_score old)%Z;
      [|exact Ha].
    apply od_set_Forall; [apply Hl, Hr | exact Ha].
  - apply od_set_Forall; [apply Hl, Hr | exact Ha].
Qed.

Lemma merge_office_all (offices : odict moffice) (o : office) :
  (forall r, In r (o_reviews o) -> P (normalize_review r)) ->
  offices_all offices -> offices_all (merge_office' offices o).
Proof.
  intros Ho Hoff. unfold merge_office.
  apply od_set_Forall; [|exact Hoff]. simpl.
  apply merge_reviews_all; [exact Ho|].
  destruct (od_get (office_key o) offices) as [mo|] eqn:E.
  - apply (od_get_Forall _ _ _ _ Hoff E).
  - constructor.
Qed.

Lemma merge_firm_all (firms_map : odict mfirm) (f : firm) :
  (forall o r, In o (f_offices f) -> In r (o_reviews o) ->
               P (normalize_review r)) ->
  index_reviews_all P firms_map ->
  index_reviews_all P (merge_firm' firms_map f).
Proof.
  intros Hf Hidx. unfold merge_firm, index_reviews_all.
  apply od_set_Forall; [|exact Hidx]. simpl.
  apply fold_left_invariant_in.
  - intros a o Ho Ha. apply merge_office_all; [|exact Ha].
    intros r Hr. apply (Hf o r Ho Hr).
  - destruct (od_get (firm_key f) firms_map) as [mf|] eqn:E.
    + apply (od_get_Forall _ _ _ _ Hidx E).
    + constructor.
Qed.

Lemma merge_index_all (datasets : list (str * dataset)) :
  (forall r, In r (all_reviews datasets) -> P (normalize_review r)) ->
  index_reviews_all P (merge_index' datasets).
Proof.
  intros Hall. rewrite merge_index_flat.
  apply fold_left_invariant_in; [|constructor].
  intros a f Hf Ha. apply merge_firm_all; [|exact Ha].
  intros o r Ho Hr. apply Hall. unfold all_reviews.
  apply in_flat_map. exists o. split; [|exact Hr].
  apply in_flat_map. exists f. auto.
Qed.

Lemma exported_reviews_all (firms_map : odict mfirm) (fo : firm_obj)
    (oo : office_obj) (rv : review) :
  index_reviews_all P firms_map ->
  In fo (map finalize_firm (od_values firms_map)) ->
  In oo (fo_offices fo) -> In rv (oo_reviews oo) -> P rv.
Proof.
  intros Hidx Hfo Hoo Hrv.
  apply in_map_iff in Hfo. destruct Hfo as [mf [<- Hmf]].
  apply in_map_iff in Hmf. destruct Hmf as [[fk mf'] [Hsnd Hkf]].
  simpl in Hsnd. subst mf'.
  unfold finalize_firm in Hoo. simpl in Hoo.
  apply in_map_iff in Hoo. destruct Hoo as [mo [<- Hmo]].
  apply in_map_iff in Hmo. destruct Hmo as [[ok mo'] [Hsnd Hko]].
  simpl in Hsnd. subst mo'.
  unfold finalize_office in Hrv. simpl in Hrv.
  apply in_map_iff in Hrv. destruct Hrv as [[k rv'] [Hsnd Hkr]].
  simpl in Hsnd. subst rv'.
  unfold index_reviews_all in Hidx. rewrite Forall_forall in Hidx.
  specialize (Hidx _ Hkf). simpl in Hidx. rewrite Forall_forall in Hidx.
  specialize (Hidx _ Hko). simpl in Hidx. rewrite Forall_forall in Hidx.
  apply (Hidx _ Hkr).
Qed.

End Origin.

(** The index never holds more reviews than it has read. *)
Lemma merge_office_count (offices : odict moffice) (o : office) :
  (offices_count (merge_office' offices o)
   <= offices_count offices + List.length (o_reviews o))%nat.
Proof.
  unfold offices_count, merge_office.
  match goal with
  | |- context [od_set ?k ?v offices] =>
      pose proof (od_set_sum (fun mo => List.length (mo_reviews_map mo))
                    k v offices) as Hsum
  end.
  simpl in Hsum.
  destruct (od_get (office_key o) offices) as [mo|]; simpl in *.
  - pose proof (merge_reviews_length sha1_hexdigest float_repr
                  (o_reviews o) (mo_reviews_map mo)). lia.
  - pose proof (merge_reviews_length sha1_hexdigest float_repr
                  (o_reviews o) []). simpl in *. lia.
Qed.

Lemma merge_offices_count (l : list office) (offices : odict moffice) :
  (offices_count (fold_left merge_office' l offices)
   <= offices_count offices + List.length (flat_map o_reviews l))%nat.
Proof.
  revert offices. induction l as [|o l IH]; intros offices; simpl; [lia|].
  specialize (IH (merge_office' offices o)).
  pose proof (merge_office_count offices o).
  rewrite length_app. lia.
Qed.

Lemma merge_firm_count (firms_map : odict mfirm) (f : firm) :
  (index_count (merge_firm' firms_map f)
   <= index_count firms_map
      + List.length (flat_map o_reviews (f_offices f)))%nat.
Proof.
  unfold index_count, merge_firm.
  match goal with
  | |- context [od_set ?k ?v firms_map] =>
      pose proof (od_set_sum (fun mf => offices_count (mf_offices mf))
                    k v firms_map) as Hsum
  end.
  simpl in Hsum.
  destruct (od_get (firm_key f) firms_map) as [mf|]; simpl in *.
  - pose proof (merge_offices_count (f_offices f) (mf_offices mf)). lia.
  - pose proof (merge_offices_count (f_offices f) []).
    unfold offices_count in *. simpl in *. lia.
Qed.

Lemma merge_firms_count (l : list firm) (firms_map : odict mfirm) :
  (index_count (fold_left merge_firm' l firms_map)
   <= index_count firms_map
      + List.length (flat_map o_reviews (flat_map f_offices l)))%nat.
Proof.
  revert firms_map. induction l as [|f l IH]; intros firms_map; simpl; [lia|].
  specialize (IH (merge_firm' firms_map f)).
  pose proof (merge_firm_count firms_map f).
  rewrite flat_map_app, length_app. lia.
Qed.

Lemma exported_reviews_count (firms_map : odict mfirm) :
  List.length (flat_map firm_reviews (map finalize_firm (od_values firms_map)))
  = index_count firms_map.
Proof.
  unfold index_count, offices_count, od_values.
  rewrite length_flat_map_sum, !map_map. f_equal.
  apply map_ext. intros [fk mf]. simpl.
  rewrite firm_reviews_finalize, length_flat_map_sum.
  unfold od_values. rewrite !map_map. f_equal.
  apply map_ext. intros [ok mo]. simpl. apply length_map.
Qed.

(** A review that an office record holds is covered by the index from then
    on, under the keys of the firm and of the office. *)
Section Covered.
Variable r : review.

Local Abbreviation covers' := (covers sha1_hexdigest float_repr r).

Lemma covers_update (mo : moffice) (o : office) :
  covers' mo -> covers' (update_office' mo o).
Proof.
  intros [st [Hst Hle]]. unfold covers, update_office. simpl.
  destruct (merge_reviews_grow sha1_hexdigest float_repr (o_reviews o) _ _ _ Hst)
    as [st' [Hst' Hle']].
  exists st'. split; [exact Hst' | lia].
Qed.

Lemma merge_office_adds (offices : odict moffice) (o : office) :
  In r (o_reviews o) ->
  office_has covers' (office_key o) (merge_office' offices o).
Proof.
  intros Hr. rewrite merge_office_update.
  eexists. split; [apply od_get_set_same|].
  unfold covers, update_office. simpl.
  apply merge_reviews_cover. exact Hr.
Qed.

Lemma merge_offices_add (l : list office) (offices : odict moffice) (o : office) :
  In o l -> In r (o_reviews o) ->
  office_has covers' (office_key o) (fold_left merge_office' l offices).
Proof.
  revert offices. induction l as [|x l IH]; intros offices Ho Hr; [destruct Ho|].
  simpl. destruct Ho as [->|Ho]; [|apply IH; assumption].
  apply fold_left_invariant.
  - intros a b. apply merge_office_keeps. exact covers_update.
  - apply merge_office_adds. exact Hr.
Qed.

Lemma merge_firm_adds (firms_map : odict mfirm) (f : firm) (o : office) :
  In o (f_offices f) -> In r (o_reviews o) ->
  index_has covers' (firm_key f) (office_key o) (merge_firm' firms_map f).
Proof.
  intros Ho Hr. rewrite merge_firm_update.
  eexists. split; [apply od_get_set_same|].
  unfold update_firm. simpl. apply merge_offices_add; assumption.
Qed.

Lemma merge_firms_add (l : list firm) (firms_map : odict mfirm) (f : firm)
    (o : office) :
  In f l -> In o (f_offices f) -> In r (o_reviews o) ->
  index_has covers' (firm_key f) (office_key o) (fold_left merge_firm' l firms_map).
Proof.
  revert firms_map. induction l as [|x l IH]; intros firms_map Hf Ho Hr;
    [destruct Hf|].
  simpl. destruct Hf as [->|Hf]; [|apply IH; assumption].
  apply fold_left_invariant.
  - intros a b. apply merge_firm_keeps. exact covers_update.
  - apply merge_firm_adds; assumption.
Qed.

End Covered.

Lemma stored_review_key (datasets : list (str * dataset)) (fk ok k : str)
    (mo : moffice) (st : review) :
  merged_office sha1_hexdigest float_repr datasets fk ok = Some mo ->
  od_get k (mo_reviews_map mo) = Some st -> key st = k.
Proof.
  unfold merged_office, merged_firm. intros Hmo Hst.
  destruct (od_get fk (merge_index' datasets)) as [mf|] eqn:Hmf; [|discriminate].
  pose proof (merge_index_ok sha1_hexdigest float_repr datasets) as Hok.
  pose proof (od_get_Forall _ _ _ _ Hok Hmf) as Hoff. simpl in Hoff.
  pose proof (od_get_Forall _ _ _ _ Hoff Hmo) as [_ Hrm]. simpl in Hrm.
  apply (od_get_Forall _ _ _ _ Hrm Hst).
Qed.

End DatasetReviews.

(** X12.  The merge invents no review and counts none twice: every
    exported review is a review of some source, normalised, and the number
    of exported reviews, reported as reviews_collected, is at most the
    number of reviews in the sources. *)
Theorem merge_invents_no_review :
  forall (F : PyFloat) (U : UnicodeDB) (sha1_hexdigest : str -> str)
         (float_repr : float -> str) (datasets : list (str * dataset)),
    let merged := merge_datasets sha1_hexdigest float_repr datasets in
    (forall fo oo rv,
        In fo (fst merged) -> In oo (fo_offices fo) -> In rv (oo_reviews oo) ->
        exists r, In r (all_reviews datasets) /\ rv = normalize_review r)
    /\ reviews_collected (snd merged)
       = List.length (flat_map firm_reviews (fst merged))
    /\ (reviews_collected (snd merged) <= List.length (all_reviews datasets))%nat.
Proof.
  intros F U sha1_hexdigest float_repr datasets merged. split; [|split].
  - intros fo oo rv Hfo Hoo Hrv.
    apply (exported_reviews_all
             (fun st => exists r, In r (all_reviews datasets)
                                  /\ st = normalize_review r)
             (merge_index sha1_hexdigest float_repr datasets) fo oo rv);
      [|exact Hfo|exact Hoo|exact Hrv].
    apply merge_index_all. intros r Hr. exists r. auto.
  - apply reviews_collected_length.
  - subst merged. rewrite reviews_collected_length.
    unfold merge_datasets. simpl. rewrite exported_reviews_count.
    rewrite merge_index_flat.
    pose proof (merge_firms_count sha1_hexdigest float_repr
                  (all_firms datasets) []) as H.
    unfold all_reviews. simpl in H. exact H.
Qed.

(** X13.  No review is lost: for every review of every office record of
    every firm record of the sources, the office exported under the keys of
    that firm and office holds a review with the same dedupe key that is at
    least as complete. *)
Theorem every_review_is_represented :
  forall (F : PyFloat) (U : UnicodeDB) (sha1_hexdigest : str -> str)
         (float_repr : float -> str) (datasets : list (str * dataset))
         (f : firm) (o : office) (r : review),
    In f (all_firms datasets) -> In o (f_offices f) -> In r (o_reviews o) ->
    exists fo oo rv,
      exported_office sha1_hexdigest float_repr datasets
        (firm_key f) (office_key o) = Some oo
      /\ In fo (fst (merge_datasets sha1_hexdigest float_repr datasets))
      /\ In oo (fo_offices fo)
      /\ In rv (oo_reviews oo)
      /\ review_dedupe_key sha1_hexdigest float_repr rv
         = review_dedupe_key sha1_hexdigest float_repr r
      /\ (completeness_score r <= completeness_score rv)%Z.
Proof.
  intros F U sha1_hexdigest float_repr datasets f o r Hf Ho Hr.
  assert (H : index_has (covers sha1_hexdigest float_repr r)
                (firm_key f) (office_key o)
                (merge_index sha1_hexdigest float_repr datasets)).
  { rewrite merge_index_flat. apply merge_firms_add; assumption. }
  apply merged_office_has in H. destruct H as [mo [Hmo [st [Hst Hle]]]].
  assert (Hoo : exported_office sha1_hexdigest float_repr datasets
                  (firm_key f) (office_key o) = Some (finalize_office mo)).
  { unfold exported_office. rewrite Hmo. reflexivity. }
  destruct (exported_office_in _ _ _ _ _ _ Hoo) as [fo [Hfo Hin]].
  exists fo, (finalize_office mo), st. repeat split; try assumption.
  - unfold finalize_office. simpl. unfold od_values.
    apply od_get_in in Hst.
    change st with (snd (review_dedupe_key sha1_hexdigest float_repr
                           (normalize_review r), st)).
    apply in_map. exact Hst.
  - rewrite (stored_review_key _ _ _ _ _ _ _ _ Hmo Hst).
    apply normalize_review_key.
Qed.

Lemma every_review_is_represented_witness :
  exists fo oo rv,
    exported_office (F := exact) (U := czech_db) no_digest fraction_repr
      acme_twice
      (firm_key (F := exact) (U := czech_db) (acme_firm [review_with_id (u "r9") None]))
      (office_key (F := exact) (U := czech_db)
         (prague_office [review_with_id (u "r9") None])) = Some oo
    /\ In fo (fst (merge_datasets (F := exact) (U := czech_db) no_digest
                     fraction_repr acme_twice))
    /\ In oo (fo_offices fo)
    /\ In rv (oo_reviews oo)
    /\ review_dedupe_key (F := exact) (U := czech_db) no_digest fraction_repr rv
       = review_dedupe_key (F := exact) (U := czech_db) no_digest fraction_repr
           (review_with_id (u "r9") None)
    /\ (completeness_score (review_with_id (F := exact) (u "r9") None)
        <= completeness_score rv)%Z.
Proof.
  apply (every_review_is_represented exact czech_db no_digest fraction_repr
           acme_twice (acme_firm [review_with_id (u "r9") None])
           (prague_office [review_with_id (u "r9") None])
           (review_with_id (u "r9") None)).
  - left. reflexivity.
  - left. reflexivity.
  - left. reflexivity.
Defined.

(** ** Offices of the index *)

Section OfficeInvariants.
Context {F : PyFloat} {U : UnicodeDB}.
Variable sha1_hexdigest : str -> str.
Variable float_repr : float -> str.

Local Abbreviation merge_office' := (merge_office sha1_hexdigest float_repr).
Local Abbreviation merge_firm' := (merge_firm sha1_hexdigest float_repr).
Local Abbreviation merge_index' := (merge_index sha1_hexdigest float_repr).
Local Abbreviation update_office' := (update_office sha1_hexdigest float_repr).

(** A property that every update with a record of [pool] establishes or
    keeps holds of every office of the index. *)
Section OfficesAll.
Variable Q : moffice -> Prop.
Variable pool : office -> Prop.
Hypothesis Q_new : forall o, pool o -> Q (update_office' (new_office o) o).
Hypothesis Q_update : forall mo o, pool o -> Q mo -> Q (update_office' mo o).

Local Abbreviation offices_all :=
  (Forall (fun ko : str * moffice => Q (snd ko))).

Lemma merge_office_offices_all (offices : odict moffice) (o : office) :
  pool o -> offices_all offices -> offices_all (merge_office' offices o).
Proof.
  intros Ho Hoff. rewrite merge_office_update.
  apply od_set_Forall; [|exact Hoff]. simpl.
  destruct (od_get (office_key o) offices) as [mo|] eqn:E.
  - apply Q_update; [exact Ho|]. apply (od_get_Forall _ _ _ _ Hoff E).
  - apply Q_new. exact Ho.
Qed.

Lemma merge_firm_offices_all (firms_map : odict mfirm) (f : firm) :
  (forall o, In o (f_offices f) -> pool o) ->
  index_offices_all Q firms_map ->
  index_offices_all Q (merge_firm' firms_map f).
Proof.
  intros Hf Hidx. rewrite merge_firm_update. unfold index_offices_all.
  apply od_set_Forall; [|exact Hidx]. simpl.
  apply fold_left_invariant_in.
  - intros a o Ho Ha. apply merge_office_offices_all; [apply Hf, Ho | exact Ha].
  - destruct (od_get (firm_key f) firms_map) as [mf|] eqn:E.
    + apply (od_get_Forall _ _ _ _ Hidx E).
    + constructor.
Qed.

Lemma merge_index_offices_all (datasets : list (str * dataset)) :
  (forall f o, In f (all_firms datasets) -> In o (f_offices f) -> pool o) ->
  index_offices_all Q (merge_index' datasets).
Proof.
  intros Hall. rewrite merge_index_flat.
  apply fold_left_invariant_in; [|constructor].
  intros a f Hf Ha. apply merge_firm_offices_all; [|exact Ha].
  intros o Ho. apply (Hall f o Hf Ho).
Qed.

Lemma exported_firm_all (firms_map : odict mfirm) (fo : firm_obj) :
  index_offices_all Q firms_map ->
  In fo (map finalize_firm (od_values firms_map)) ->
  exists mf, fo = finalize_firm mf
             /\ Forall Q (od_values (mf_offices mf)).
Proof.
  intros Hidx Hfo.
  apply in_map_iff in Hfo. destruct Hfo as [mf [<- Hmf]].
  apply in_map_iff in Hmf. destruct Hmf as [[fk mf'] [Hsnd Hkf]].
  simpl in Hsnd. subst mf'. exists mf. split; [reflexivity|].
  unfold index_offices_all in Hidx. rewrite Forall_forall in Hidx.
  specialize (Hidx _ Hkf). simpl in Hidx.
  unfold od_values. apply Forall_map. exact Hidx.
Qed.

Lemma exported_office_all (firms_map : odict mfirm) (fo : firm_obj)
    (oo : office_obj) :
  index_offices_all Q firms_map ->
  In fo (map finalize_firm (od_values firms_map)) ->
  In oo (fo_offices fo) ->
  exists mo, oo = finalize_office mo /\ Q mo.
Proof.
  intros Hidx Hfo Hoo.
  destruct (exported_firm_all _ _ Hidx Hfo) as [mf [-> Hall]].
  unfold finalize_firm in Hoo. simpl in Hoo.
  apply in_map_iff in Hoo. destruct Hoo as [mo [<- Hmo]].
  exists mo. split; [reflexivity|].
  rewrite Forall_forall in Hall. apply Hall, Hmo.
Qed.

End OfficesAll.

(** A property that the update with the record [o] establishes, and every
    update keeps, holds of the office stored under the key of [o]. *)
Section Reaches.
Variable R : moffice -> Prop.
Variable o : office.
Hypothesis R_update : forall mo o', R mo -> R (update_office' mo o').
Hypothesis R_here : forall mo, R (update_office' mo o).

Lemma merge_office_reaches (offices : odict moffice) :
  office_has R (office_key o) (merge_office' offices o).
Proof.
  rewrite merge_office_update.
  eexists. split; [apply od_get_set_same | apply R_here].
Qed.

Lemma merge_offices_reach (l : list office) (offices : odict moffice) :
  In o l -> office_has R (office_key o) (fold_left merge_office' l offices).
Proof.
  revert offices. induction l as [|x l IH]; intros offices Ho; [destruct Ho|].
  simpl. destruct Ho as [->|Ho]; [|apply IH; assumption].
  apply fold_left_invariant.
  - intros a b. apply merge_office_keeps. exact R_update.
  - apply merge_office_reaches.
Qed.

Lemma merge_firm_reaches (firms_map : odict mfirm) (f : firm) :
  In o (f_offices f) ->
  index_has R (firm_key f) (office_key o) (merge_firm' firms_map f).
Proof.
  intros Ho. rewrite merge_firm_update.
  eexists. split; [apply od_get_set_same|].
  unfold update_firm. simpl. apply merge_offices_reach. exact Ho.
Qed.

Lemma merge_firms_reach (l : list firm) (firms_map : odict mfirm) (f : firm) :
  In f l -> In o (f_offices f) ->
  index_has R (firm_key f) (office_key o) (fold_left merge_firm' l firms_map).
Proof.
  revert firms_map. induction l as [|x l IH]; intros firms_map Hf Ho;
    [destruct Hf|].
  simpl. destruct Hf as [->|Hf]; [|apply IH; assumption].
  apply fold_left_invariant.
  - intros a b. apply merge_firm_keeps. exact R_update.
  - apply merge_firm_reaches. exact Ho.
Qed.

Lemma merge_index_reaches (datasets : list (str * dataset)) (f : firm) :
  In f (all_firms datasets) -> In o (f_offices f) ->
  index_has R (firm_key f) (office_key o) (merge_index' datasets).
Proof.
  intros Hf Ho. rewrite merge_index_flat. apply merge_firms_reach; assumption.
Qed.

End Reaches.

End OfficeInvariants.

(** ** Platform profiles *)

Lemma opt_str_eqb_eq (a b : option str) : opt_str_eqb a b = true <-> a = b.
Proof.
  destruct a as [x|], b as [y|]; simpl; split; intros H;
    try discriminate; try reflexivity.
  - apply str_eqb_eq in H. congruence.
  - inversion H. apply str_eqb_refl.
Qed.

Lemma profile_seen (pps : list (str * option str)) (pp : str * option str) :
  existsb (fun q => str_eqb (fst q) (fst pp) && opt_str_eqb (snd q) (snd pp)) pps
  = true <-> In pp pps.
Proof.
  rewrite existsb_exists. split.
  - intros [[a b] [Hin H]]. destruct pp as [c d]. simpl in H.
    apply andb_true_iff in H. destruct H as [H1 H2].
    apply str_eqb_eq in H1. apply opt_str_eqb_eq in H2. subst. exact Hin.
  - intros Hin. exists pp. split; [exact Hin|].
    rewrite str_eqb_refl. simpl. apply opt_str_eqb_eq. reflexivity.
Qed.

Lemma NoDup_snoc {A : Type} (l : list A) (x : A) :
  NoDup l -> ~ In x l -> NoDup (l ++ [x]).
Proof.
  intros Hnd Hx. apply NoDup_rev in Hnd.
  rewrite <- (rev_involutive (l ++ [x])). apply NoDup_rev.
  rewrite rev_app_distr. simpl. constructor; [|exact Hnd].
  rewrite <- in_rev. exact Hx.
Qed.

Lemma dedup_profile_nodup (pps : list (str * option str)) (pp : str * option str) :
  NoDup pps -> NoDup (dedup_profile pps pp).
Proof.
  intros Hnd. unfold dedup_profile.
  destruct (existsb _ pps) eqn:E; [exact Hnd|].
  destruct (truthy_s (snd pp)); [|exact Hnd].
  apply NoDup_snoc; [exact Hnd|]. intros Hin.
  apply profile_seen in Hin. congruence.
Qed.

Lemma dedup_profile_in (pps : list (str * option str)) (pp x : str * option str) :
  In x (dedup_profile pps pp)
  <-> In x pps \/ (x = pp /\ truthy_s (snd pp) = true).
Proof.
  unfold dedup_profile.
  destruct (existsb _ pps) eqn:E.
  - apply profile_seen in E. split; [auto|]. intros [H|[-> _]]; assumption.
  - destruct (truthy_s (snd pp)).
    + rewrite in_app_iff. simpl. split; intros [H|H]; auto.
      * destruct H as [<-|[]]. auto.
      * destruct H as [-> _]. auto.
    + split; [auto|]. intros [H|[_ H]]; [exact H | discriminate].
Qed.

Lemma dedup_profiles_nodup (l pps : list (str * option str)) :
  NoDup pps -> NoDup (fold_left dedup_profile l pps).
Proof.
  apply fold_left_invariant. intros a b. apply dedup_profile_nodup.
Qed.

Lemma dedup_profiles_in (l pps : list (str * option str)) (x : str * option str) :
  In x (fold_left dedup_profile l pps)
  <-> In x pps \/ (In x l /\ truthy_s (snd x) = true).
Proof.
  revert pps. induction l as [|pp l IH]; intros pps; simpl.
  - split; [auto|]. intros [H|[[] _]]. exact H.
  - rewrite IH, dedup_profile_in. split.
    + intros [[H|[-> H]]|[H1 H2]]; auto.
    + intros [H|[[<-|H1] H2]]; auto.
Qed.

Lemma merge_profiles_in {F : PyFloat} {U : UnicodeDB} (l : list profile)
    (pps : list (str * option str)) (x : str * option str) :
  In x (fold_left merge_profile l pps)
  <-> In x pps
      \/ exists p, In p l /\ truthy_s (pp_source_url p) = true
                   /\ x = normalize_profile p.
Proof.
  revert pps. induction l as [|p l IH]; intros pps; simpl.
  - split; [auto|]. intros [H|[p [[] _]]]. exact H.
  - rewrite IH. unfold merge_profile. cbn [normalize_profile snd].
    destruct (truthy_s (pp_source_url p)) eqn:E.
    + rewrite in_app_iff. simpl. split.
      * intros [[H|[<-|[]]]|[q [H1 H2]]]; eauto 6.
      * intros [H|[q [[<-|H1] [H2 H3]]]]; eauto 6.
    + split.
      * intros [H|[q [H1 H2]]]; eauto 6.
      * intros [H|[q [[<-|H1] [H2 H3]]]]; eauto 6. congruence.
Qed.

(** What every office of the index has stored as profiles. *)
Lemma merge_index_profiles_ok {F : PyFloat} {U : UnicodeDB}
    (sha1_hexdigest : str -> str) (float_repr : float -> str)
    (datasets : list (str * dataset)) :
  index_offices_all
    (fun mo => Forall (profile_ok datasets) (mo_platform_profiles mo))
    (merge_index sha1_hexdigest float_repr datasets).
Proof.
  assert (Hstep : forall mo o,
             (forall p, In p (o_platform_profiles o) ->
                        In p (all_profiles datasets)) ->
             Forall (profile_ok datasets) (mo_platform_profiles mo) ->
             Forall (profile_ok datasets)
               (mo_platform_profiles
                  (update_office sha1_hexdigest float_repr mo o))).
  { intros mo o Ho Hmo. simpl. apply Forall_forall. intros x Hx.
    apply merge_profiles_in in Hx. destruct Hx as [Hx|[p [Hp [Hurl ->]]]].
    - rewrite Forall_forall in Hmo. apply Hmo, Hx.
    - split; [apply norm_platform_in|]. split; [exact Hurl|].
      exists p. split; [apply Ho, Hp | reflexivity]. }
  apply (merge_index_offices_all sha1_hexdigest float_repr _
           (fun o => forall p, In p (o_platform_profiles o) ->
                               In p (all_profiles datasets))).
  - intros o Ho. apply Hstep; [exact Ho | constructor].
  - intros mo o Ho Hmo. apply Hstep; assumption.
  - intros f o Hf Ho p Hp. unfold all_profiles.
    apply in_flat_map. exists o. split; [|exact Hp].
    apply in_flat_map. exists f. auto.
Qed.

(** X14.  The platform profiles an exported office lists are distinct,
    each has a non-empty URL and a canonical platform name and is a profile
    of some source, normalised; the key is present only with a non-empty
    list. *)
Theorem exported_profiles_distinct_with_url :
  forall (F : PyFloat) (U : UnicodeDB) (sha1_hexdigest : str -> str)
         (float_repr : float -> str) (datasets : list (str * dataset))
         (fo : firm_obj) (oo : office_obj) (pps : list (str * option str)),
    In fo (fst (merge_datasets sha1_hexdigest float_repr datasets)) ->
    In oo (fo_offices fo) ->
    oo_platform_profiles oo = Some pps ->
    pps <> []
    /\ NoDup pps
    /\ forall pp, In pp pps ->
                  In (fst pp) PLATFORMS_PRIORITY
                  /\ truthy_s (snd pp) = true
                  /\ exists p, In p (all_profiles datasets)
                               /\ pp = normalize_profile p.
Proof.
  intros F U sha1_hexdigest float_repr datasets fo oo pps Hfo Hoo Hpps.
  destruct (exported_office_all _ _ fo oo
              (merge_index_profiles_ok sha1_hexdigest float_repr datasets)
              Hfo Hoo) as [mo [-> Hmo]].
  unfold finalize_office in Hpps. simpl in Hpps.
  pose proof (dedup_profiles_nodup (mo_platform_profiles mo) [] (NoDup_nil _))
    as Hnd.
  pose proof (dedup_profiles_in (mo_platform_profiles mo) []) as Hin.
  destruct (fold_left dedup_profile (mo_platform_profiles mo) [])
    as [|q qs]; [discriminate|].
  inversion Hpps; subst pps. split; [discriminate|]. split; [exact Hnd|].
  intros pp Hpp. apply Hin in Hpp. destruct Hpp as [[]|[Hpp _]].
  rewrite Forall_forall in Hmo. apply Hmo, Hpp.
Qed.

Lemma exported_profiles_distinct_with_url_witness :
  [(u "Google Maps", Some (u "https://maps.example/acme"))] <> []
  /\ NoDup [(u "Google Maps", Some (u "https://maps.example/acme"))]
  /\ forall pp,
       In pp [(u "Google Maps", Some (u "https://maps.example/acme"))] ->
       In (fst pp) PLATFORMS_PRIORITY
       /\ truthy_s (snd pp) = true
       /\ exists p, In p (all_profiles (acme_profiles (F := exact)))
                    /\ pp = normalize_profile (U := czech_db) p.
Proof.
  apply (exported_profiles_distinct_with_url exact czech_db no_digest
           fraction_repr acme_profiles acme_profiles_firm acme_profiles_office).
  - vm_compute. left. reflexivity.
  - left. reflexivity.
  - reflexivity.
Defined.

(** X15.  A profile with a non-empty URL is never lost: the office exported
    under the keys of its firm and office record lists it, normalised. *)
Theorem every_profile_with_url_is_exported :
  forall (F : PyFloat) (U : UnicodeDB) (sha1_hexdigest : str -> str)
         (float_repr : float -> str) (datasets : list (str * dataset))
         (f : firm) (o : office) (p : profile),
    In f (all_firms datasets) -> In o (f_offices f) ->
    In p (o_platform_profiles o) -> truthy_s (pp_source_url p) = true ->
    exists oo pps,
      exported_office sha1_hexdigest float_repr datasets
        (firm_key f) (office_key o) = Some oo
      /\ oo_platform_profiles oo = Some pps
      /\ In (normalize_profile p) pps.
Proof.
  intros F U sha1_hexdigest float_repr datasets f o p Hf Ho Hp Hurl.
  assert (H : index_has
                (fun mo => In (normalize_profile p) (mo_platform_profiles mo))
                (firm_key f) (office_key o)
                (merge_index sha1_hexdigest float_repr datasets)).
  { apply merge_index_reaches; try assumption.
    - intros mo o' Hmo. simpl. apply merge_profiles_in. auto.
    - intros mo. simpl. apply merge_profiles_in. right. exists p. auto. }
  apply merged_office_has in H. destruct H as [mo [Hmo Hin]].
  exists (finalize_office mo).
  assert (Hd : In (normalize_profile p)
                 (fold_left dedup_profile (mo_platform_profiles mo) [])).
  { apply dedup_profiles_in. right. split; [exact Hin | exact Hurl]. }
  unfold exported_office. rewrite Hmo. unfold finalize_office. simpl.
  destruct (fold_left dedup_profile (mo_platform_profiles mo) [])
    as [|q qs]; [destruct Hd|].
  exists (q :: qs). auto.
Qed.

Lemma every_profile_with_url_is_exported_witness :
  exists oo pps,
    exported_office (F := exact) (U := czech_db) no_digest fraction_repr
      acme_profiles (u "w:https://acme.cz") (u "praha") = Some oo
    /\ oo_platform_profiles oo = Some pps
    /\ In (u "Google Maps", Some (u "https://maps.example/acme")) pps.
Proof.
  apply (every_profile_with_url_is_exported exact czech_db no_digest
           fraction_repr acme_profiles
           (mk_firm (Some (u "Acme")) (Some (u "https://acme.cz")) None
              [mk_office (Some (u "Praha")) None
                 [mk_profile (Some (u "google"))
                    (Some (u "https://maps.example/acme"));
                  mk_profile (Some (u "Google Maps"))
                    (Some (u "https://maps.example/acme"));
                  mk_profile (Some (u "Facebook")) None]
                 [review_with_id (u "r9") None]])
           (mk_office (Some (u "Praha")) None
              [mk_profile (Some (u "google"))
                 (Some (u "https://maps.example/acme"));
               mk_profile (Some (u "Google Maps"))
                 (Some (u "https://maps.example/acme"));
               mk_profile (Some (u "Facebook")) None]
              [review_with_id (u "r9") None])
           (mk_profile (Some (u "google")) (Some (u "https://maps.example/acme")))).
  - left. reflexivity.
  - left. reflexivity.
  - left. reflexivity.
  - reflexivity.
Defined.

(** ** Sorted sets of strings *)

Lemma str_not_after_trans (x y z : str) :
  not_after str_ltb x y -> not_after str_ltb y z -> not_after str_ltb x z.
Proof.
  unfold not_after. intros Hyx Hzy.
  destruct (str_ltb z x) eqn:Hzx; [|reflexivity].
  destruct (str_ltb x y) eqn:Hxy.
  - rewrite (str_ltb_trans _ _ _ Hzx Hxy) in Hzy. discriminate.
  - rewrite (str_ltb_total _ _ Hxy Hyx) in Hzx. congruence.
Qed.

Lemma py_sorted_in {A : Type} (lt : A -> A -> bool) (l : list A) (x : A) :
  In x (py_sorted lt l) <-> In x l.
Proof.
  pose proof (py_sorted_perm lt l) as Hp. split; intros H.
  - apply (Permutation_in _ Hp H).
  - apply (Permutation_in _ (Permutation_sym Hp) H).
Qed.

Lemma strongly_sorted_ascending (l : list str) :
  StronglySorted (not_after str_ltb) l -> NoDup l -> ascending l.
Proof.
  unfold ascending.
  induction 1 as [|x l Hs IH Hall]; intros Hnd; constructor.
  - apply IH. inversion Hnd. assumption.
  - inversion Hnd as [|? ? Hx _]; subst.
    rewrite Forall_forall in Hall |- *. intros y Hy.
    destruct (str_ltb x y) eqn:E; [reflexivity|].
    exfalso. apply Hx.
    rewrite (str_ltb_total x y E (Hall y Hy)). exact Hy.
Qed.

Lemma py_sorted_ascending (l : list str) :
  NoDup l -> ascending (py_sorted str_ltb l).
Proof.
  intros Hnd. apply strongly_sorted_ascending.
  - apply py_sorted_StronglySorted.
    + apply str_ltb_asym.
    + apply str_not_after_trans.
  - apply (Permutation_NoDup (Permutation_sym (py_sorted_perm str_ltb l))).
    exact Hnd.
Qed.

(** The loop [for a in l: if c(a): s.add(g(a))]. *)
Lemma cond_set_fold_in {A : Type} (c : A -> bool) (g : A -> str) (l : list A)
    (acc : list str) (k : str) :
  In k (fold_left (fun s a => if c a then set_add (g a) s else s) l acc)
  <-> In k acc \/ exists a, In a l /\ c a = true /\ g a = k.
Proof.
  revert acc. induction l as [|a l IH]; intros acc; simpl.
  - split; [auto|]. intros [H|[a [[] _]]]. exact H.
  - rewrite IH. destruct (c a) eqn:E.
    + rewrite set_add_in. split.
      * intros [[->|H]|[b [H1 H2]]]; eauto 6.
      * intros [H|[b [[<-|H1] [H2 H3]]]]; eauto 6.
    + split.
      * intros [H|[b [H1 H2]]]; eauto 6.
      * intros [H|[b [[<-|H1] [H2 H3]]]]; eauto 6. congruence.
Qed.

Lemma cond_set_fold_nodup {A : Type} (c : A -> bool) (g : A -> str) (l : list A)
    (acc : list str) :
  NoDup acc ->
  NoDup (fold_left (fun s a => if c a then set_add (g a) s else s) l acc).
Proof.
  apply fold_left_invariant. intros s a Hs.
  destruct (c a); [apply set_add_nodup|]; exact Hs.
Qed.

Lemma somes_length {A : Type} (l : list (option A)) :
  (List.length (somes l) <= List.length l)%nat.
Proof.
  unfold somes. induction l as [|[a|] l IH]; simpl; lia.
Qed.

Lemma canonical_platform_truthy {F : PyFloat} (r : review) (p : str) :
  In p PLATFORMS_PRIORITY -> platform r = Some p ->
  truthy_s (platform r) = true /\ or_empty (platform r) = p.
Proof.
  intros Hp ->. simpl in Hp.
  destruct Hp as [<-|[<-|[<-|[<-|[]]]]]; split; reflexivity.
Qed.

Section Summaries.
Context {F : PyFloat} {U : UnicodeDB}.
Variable sha1_hexdigest : str -> str.
Variable float_repr : float -> str.

Local Abbreviation merge_index' := (merge_index sha1_hexdigest float_repr).
Local Abbreviation merge_datasets' := (merge_datasets sha1_hexdigest float_repr).

Lemma merged_reviews_canonical (datasets : list (str * dataset))
    (fo : firm_obj) (r : review) :
  In fo (fst (merge_datasets' datasets)) -> In r (firm_reviews fo) ->
  canonical_platform r.
Proof.
  intros Hfo Hr. unfold firm_reviews in Hr. apply in_flat_map in Hr.
  destruct Hr as [oo [Hoo Hr]].
  apply (exported_reviews_all canonical_platform (merge_index' datasets)
           fo oo r); try assumption.
  apply merge_index_all. intros x _.
  exists (norm_platform (platform x)). split; [reflexivity|].
  apply norm_platform_in.
Qed.

Lemma platforms_fold (offices : list moffice) (acc : list str) :
  fold_left office_platforms offices acc
  = fold_left (fun s r => if truthy_s (platform r)
                          then set_add (or_empty (platform r)) s else s)
      (flat_map (fun o => od_values (mo_reviews_map o)) offices) acc.
Proof.
  unfold office_platforms.
  apply (fold_left_flat_map
           (fun s r => if truthy_s (platform r)
                       then set_add (or_empty (platform r)) s else s)
           (fun o => od_values (mo_reviews_map o))).
Qed.

Lemma platforms_used_finalize (mf : mfirm) :
  platforms_used (fo_collection_summary (finalize_firm mf))
  = py_sorted str_ltb
      (fold_left (fun s r => if truthy_s (platform r)
                             then set_add (or_empty (platform r)) s else s)
         (firm_reviews (finalize_firm mf)) []).
Proof.
  rewrite firm_reviews_finalize. unfold finalize_firm. simpl.
  rewrite platforms_fold. reflexivity.
Qed.

Lemma cities_covered_finalize (mf : mfirm) (c : str) :
  In c (cities_covered (fo_collection_summary (finalize_firm mf)))
  <-> exists oo, In oo (fo_offices (finalize_firm mf)) /\ oo_city oo = Some c.
Proof.
  unfold finalize_firm. simpl. rewrite py_sorted_in.
  unfold office_cities. rewrite cond_set_fold_in. split.
  - intros [[]|[mo [Hmo [Ht Hc]]]].
    exists (finalize_office mo). split; [apply in_map, Hmo|].
    unfold finalize_office. simpl. rewrite Ht.
    destruct (mo_city mo) as [[|x s]|]; try discriminate.
    simpl in Hc. congruence.
  - intros [oo [Hoo Hc]]. right.
    apply in_map_iff in Hoo. destruct Hoo as [mo [<- Hmo]].
    exists mo. split; [exact Hmo|].
    unfold finalize_office in Hc. simpl in Hc.
    destruct (truthy_s (mo_city mo)) eqn:Ht; [|discriminate].
    split; [reflexivity|]. rewrite Hc in Ht |- *.
    destruct c; [discriminate | reflexivity].
Qed.

End Summaries.

(** X16.  The summary of an exported firm is exact: it counts the reviews
    the firm exports and warns exactly when there is none; platforms_used
    lists, strictly ascending, the platforms of these reviews, all of them
    canonical names; cities_covered lists, strictly ascending, the cities
    of the exported offices. *)
Theorem collection_summary_is_exact :
  forall (F : PyFloat) (U : UnicodeDB) (sha1_hexdigest : str -> str)
         (float_repr : float -> str) (datasets : list (str * dataset))
         (fo : firm_obj),
    In fo (fst (merge_datasets sha1_hexdigest float_repr datasets)) ->
    let s := fo_collection_summary fo in
    reviews_collected_total s = List.length (firm_reviews fo)
    /\ (firm_reviews fo = [] ->
        warnings s = Some [u "No reviews present in merged sources."])
    /\ (firm_reviews fo <> [] -> warnings s = None)
    /\ ascending (platforms_used s)
    /\ (forall p, In p (platforms_used s)
                  <-> exists r, In r (firm_reviews fo) /\ platform r = Some p)
    /\ incl (platforms_used s) PLATFORMS_PRIORITY
    /\ ascending (cities_covered s)
    /\ (forall c, In c (cities_covered s)
                  <-> exists oo, In oo (fo_offices fo) /\ oo_city oo = Some c).
Proof.
  intros F U sha1_hexdigest float_repr datasets fo Hfo s.
  pose proof (fun r => merged_reviews_canonical sha1_hexdigest float_repr
                         datasets fo r Hfo) as Hcanon.
  assert (Hmf : exists mf, fo = finalize_firm mf).
  { unfold merge_datasets in Hfo. simpl in Hfo.
    apply in_map_iff in Hfo. destruct Hfo as [mf [<- _]]. eauto. }
  destruct Hmf as [mf ->].
  assert (Hplat : forall p,
             In p (platforms_used (fo_collection_summary (finalize_firm mf)))
             <-> exists r, In r (firm_reviews (finalize_firm mf))
                           /\ platform r = Some p).
  { intros p. rewrite platforms_used_finalize, py_sorted_in, cond_set_fold_in.
    split.
    - intros [[]|[r [Hr [Ht Hp]]]]. exists r. split; [exact Hr|].
      destruct (Hcanon r Hr) as [q [Hq Hin]].
      destruct (canonical_platform_truthy r q Hin Hq) as [_ Hq'].
      congruence.
    - intros [r [Hr Hp]]. right. exists r. split; [exact Hr|].
      destruct (Hcanon r Hr) as [q [Hq Hin]].
      assert (q = p) by congruence. subst q.
      apply (canonical_platform_truthy r p Hin Hq). }
  assert (Htotal : reviews_collected_total
                     (fo_collection_summary (finalize_firm mf))
                   = List.length (firm_reviews (finalize_firm mf))).
  { apply reviews_collected_total_finalize. }
  subst s. split; [exact Htotal|].
  split; [|split]; [| |split; [|split; [|split; [|split]]]].
  - intros Hnil. rewrite Hnil in Htotal. simpl in Htotal.
    unfold finalize_firm in Htotal |- *. simpl in Htotal |- *.
    rewrite Htotal. reflexivity.
  - intros Hne.
    assert (Hpos : reviews_collected_total
                     (fo_collection_summary (finalize_firm mf)) <> 0%nat).
    { rewrite Htotal. destruct (firm_reviews (finalize_firm mf));
        [congruence | discriminate]. }
    unfold finalize_firm in Hpos |- *. simpl in Hpos |- *.
    apply Nat.eqb_neq in Hpos. rewrite Hpos. reflexivity.
  - rewrite platforms_used_finalize. apply py_sorted_ascending.
    apply cond_set_fold_nodup. constructor.
  - exact Hplat.
  - intros p Hp. apply Hplat in Hp. destruct Hp as [r [Hr Hp]].
    destruct (Hcanon r Hr) as [q [Hq Hin]]. congruence.
  - unfold finalize_firm. simpl. apply py_sorted_ascending.
    unfold office_cities. apply cond_set_fold_nodup. constructor.
  - apply cities_covered_finalize.
Qed.

Lemma collection_summary_is_exact_witness :
  reviews_collected_total (fo_collection_summary (acme_profiles_firm (F := exact)))
  = List.length (firm_reviews (acme_profiles_firm (F := exact)))
  /\ (firm_reviews (acme_profiles_firm (F := exact)) = [] ->
      warnings (fo_collection_summary (acme_profiles_firm (F := exact)))
      = Some [u "No reviews present in merged sources."])
  /\ (firm_reviews (acme_profiles_firm (F := exact)) <> [] ->
      warnings (fo_collection_summary (acme_profiles_firm (F := exact))) = None)
  /\ ascending
       (platforms_used (fo_collection_summary (acme_profiles_firm (F := exact))))
  /\ (forall p,
         In p (platforms_used
                 (fo_collection_summary (acme_profiles_firm (F := exact))))
         <-> exists r, In r (firm_reviews (acme_profiles_firm (F := exact)))
                       /\ platform r = Some p)
  /\ incl (platforms_used
             (fo_collection_summary (acme_profiles_firm (F := exact))))
       PLATFORMS_PRIORITY
  /\ ascending
       (cities_covered (fo_collection_summary (acme_profiles_firm (F := exact))))
  /\ (forall c,
         In c (cities_covered
                 (fo_collection_summary (acme_profiles_firm (F := exact))))
         <-> exists oo, In oo (fo_offices (acme_profiles_firm (F := exact)))
                        /\ oo_city oo = Some c).
Proof.
  apply (collection_summary_is_exact exact czech_db no_digest fraction_repr
           acme_profiles acme_profiles_firm).
  vm_compute. left. reflexivity.
Defined.


(** ** Excerpts *)

Lemma split_ws_spaces (s cur : str) :
  forallb isspace s = true ->
  split_ws cur s = match cur with [] => [] | _ :: _ => [rev cur] end.
Proof.
  induction s as [|c s IH]; simpl; [reflexivity|].
  intros H. apply andb_true_iff in H. destruct H as [Hc Hs]. rewrite Hc.
  pose proof (proj2 (split_ws_nil s) Hs) as Hnil.
  destruct cur; rewrite Hnil; reflexivity.
Qed.

Lemma split_ws_rstrip (s cur : str) :
  split_ws cur (rstrip_rec isspace s) = split_ws cur s.
Proof.
  revert cur. induction s as [|c s IH]; intros cur; [reflexivity|].
  destruct (isspace c) eqn:E.
  - simpl. rewrite E.
    destruct (rstrip_rec isspace s) as [|e r'] eqn:Hr.
    + apply rstrip_rec_nil in Hr. apply split_ws_nil in Hr. rewrite Hr.
      destruct cur; reflexivity.
    + rewrite <- (IH []). simpl. rewrite E. reflexivity.
  - rewrite (rstrip_rec_keep _ _ _ E). simpl. rewrite E. apply IH.
Qed.

Lemma findall_strip (t : str) : findall_nonspace (strip t) = findall_nonspace t.
Proof.
  unfold findall_nonspace, strip, strip_by.
  rewrite rstrip_by_rec, split_ws_rstrip. apply words_lstrip.
Qed.

Lemma solid_rev (w : str) : solid w = true -> solid (rev w) = true.
Proof.
  unfold solid. rewrite !forallb_forall. intros H c Hc.
  apply H. apply in_rev. exact Hc.
Qed.

Lemma split_ws_words (s cur : str) :
  solid cur = true -> Forall (fun w => is_word w = true) (split_ws cur s).
Proof.
  assert (Hcur : forall c cur, solid (c :: cur) = true ->
                               is_word (rev (c :: cur)) = true).
  { intros c cur' H. unfold is_word. rewrite (solid_rev _ H).
    simpl. destruct (rev cur' ++ [c]) eqn:E; [|reflexivity].
    destruct (rev cur'); discriminate. }
  revert cur. induction s as [|c s IH]; intros cur Hs; simpl.
  - destruct cur as [|d cur]; constructor; [apply Hcur, Hs | constructor].
  - destruct (isspace c) eqn:E.
    + destruct cur as [|d cur]; [apply IH; reflexivity|].
      constructor; [apply Hcur, Hs | apply IH; reflexivity].
    + apply IH. simpl. rewrite E. exact Hs.
Qed.

Lemma split_ws_app_word (w rest cur : str) :
  solid w = true -> split_ws cur (w ++ rest) = split_ws (rev w ++ cur) rest.
Proof.
  revert cur. induction w as [|c w IH]; intros cur Hw; [reflexivity|].
  simpl in Hw. apply andb_true_iff in Hw. destruct Hw as [Hc Hw].
  apply negb_true_iff in Hc. simpl. rewrite Hc, (IH _ Hw), <- app_assoc.
  reflexivity.
Qed.

Lemma split_ws_word (w : str) :
  is_word w = true ->
  forall rest, split_ws (rev w) (32 :: rest) = w :: split_ws [] rest.
Proof.
  intros Hw rest. unfold is_word in Hw. apply andb_true_iff in Hw.
  destruct Hw as [Hne _]. simpl.
  destruct (rev w) eqn:E.
  - destruct w; [discriminate|]. simpl in E. destruct (rev w); discriminate.
  - rewrite <- E, rev_involutive. reflexivity.
Qed.

Lemma findall_join (ws : list str) :
  Forall (fun w => is_word w = true) ws ->
  findall_nonspace (join (u " ") ws) = ws.
Proof.
  unfold findall_nonspace. induction 1 as [|w r Hw Hr IH]; [reflexivity|].
  assert (Hs : solid w = true).
  { unfold is_word in Hw. apply andb_true_iff in Hw. tauto. }
  simpl join. destruct r as [|w' r'].
  - rewrite <- (app_nil_r w) at 1. rewrite (split_ws_app_word _ _ _ Hs).
    rewrite app_nil_r. simpl.
    destruct (rev w) eqn:E.
    + destruct w; [discriminate|]. simpl in E. destruct (rev w); discriminate.
    + rewrite <- E, rev_involutive. reflexivity.
  - rewrite (split_ws_app_word _ _ _ Hs), app_nil_r.
    change (u " " ++ join (u " ") (w' :: r')) with (32 :: join (u " ") (w' :: r')).
    rewrite (split_ws_word _ Hw). rewrite IH. reflexivity.
Qed.

Lemma Forall_firstn_keep {A : Type} (P : A -> Prop) (n : nat) (l : list A) :
  Forall P l -> Forall P (firstn n l).
Proof.
  rewrite !Forall_forall. intros H x Hx. apply H.
  apply (in_firstn _ _ _ Hx).
Qed.

Lemma excerpt_unfold (text : str) (n : nat) :
  excerpt text n
  = match findall_nonspace text with
    | [] => None
    | w :: ws => Some (join (u " ") (firstn n (w :: ws)))
    end.
Proof.
  unfold excerpt. rewrite findall_strip.
  destruct text as [|c t]; reflexivity.
Qed.

(** X18.  [excerpt] returns nothing exactly for a blank text; otherwise
    its words are the first [max_words] words of the text; a text with at
    most [max_words] words is returned trimmed and with every run of
    whitespace replaced by one space; and the excerpt of an excerpt is that
    excerpt. *)
Theorem excerpt_first_words :
  forall (text : str) (max_words : nat),
    (excerpt text max_words = None <-> forallb isspace text = true)
    /\ forall e,
         excerpt text max_words = Some e ->
         findall_nonspace e = firstn max_words (findall_nonspace text)
         /\ e = join (u " ") (firstn max_words (findall_nonspace text))
         /\ ((List.length (findall_nonspace text) <= max_words)%nat ->
             e = sub_plus isspace (u " ") false (strip text))
         /\ ((0 < max_words)%nat -> excerpt e max_words = Some e).
Proof.
  intros text n. rewrite excerpt_unfold. split.
  - unfold findall_nonspace. rewrite <- split_ws_nil.
    destruct (split_ws [] text); split; congruence.
  - intros e He.
    pose proof (split_ws_words text [] eq_refl) as Hw.
    fold (findall_nonspace text) in Hw.
    destruct (findall_nonspace text) as [|w ws] eqn:Hf; [discriminate|].
    inversion He as [He']. clear He.
    assert (Hwords : findall_nonspace
                       (join (u " ") (firstn n (w :: ws)))
                     = firstn n (w :: ws)).
    { apply findall_join, Forall_firstn_keep, Hw. }
    split; [exact Hwords|]. split; [reflexivity|]. split.
    + intros Hlen. rewrite firstn_all2 by exact Hlen.
      rewrite collapse_strip_words. unfold words.
      fold (findall_nonspace text). rewrite Hf. reflexivity.
    + intros Hpos. rewrite excerpt_unfold, Hwords.
      destruct n as [|n]; [lia|]. cbn [firstn].
      change (w :: firstn n ws) with (firstn (S n) (w :: ws)).
      rewrite firstn_firstn, Nat.min_id. reflexivity.
Qed.

(** ** Counters *)

Lemma str_eqb_sym (a b : str) : str_eqb a b = str_eqb b a.
Proof.
  destruct (str_eqb a b) eqn:E1, (str_eqb b a) eqn:E2; try reflexivity.
  - apply str_eqb_eq in E1. subst. rewrite str_eqb_refl in E2. discriminate.
  - apply str_eqb_eq in E2. subst. rewrite str_eqb_refl in E1. discriminate.
Qed.

Lemma count_categories_get (cats : list str) (c : odict nat) (k : str) :
  counter_get k (count_categories cats c)
  = (counter_get k c + List.length (filter (str_eqb k) cats))%nat.
Proof.
  unfold count_categories. revert c.
  induction cats as [|x cats IH]; intros c; simpl; [lia|].
  rewrite IH, counter_get_incr. rewrite (str_eqb_sym x k).
  destruct (str_eqb k x); simpl; lia.
Qed.

Lemma NoDup_filter_le_1 (cats : list str) (k : str) :
  NoDup cats ->
  List.length (filter (str_eqb k) cats)
  = if existsb (str_eqb k) cats then 1%nat else 0%nat.
Proof.
  induction 1 as [|x cats Hx Hnd IH]; simpl; [reflexivity|].
  destruct (str_eqb k x) eqn:E; simpl; [|exact IH].
  apply str_eqb_eq in E. subst x.
  rewrite IH. destruct (existsb (str_eqb k) cats) eqn:E'; [|reflexivity].
  apply existsb_exists in E'. destruct E' as [y [Hy Hky]].
  apply str_eqb_eq in Hky. subst y. contradiction.
Qed.

Lemma counter_incr_ok (k : str) (c : odict nat) :
  counter_ok c -> counter_ok (counter_incr k c).
Proof.
  intros [Hnd Hpos]. unfold counter_incr. split.
  - apply od_set_nodup, Hnd.
  - apply od_set_Forall; [|exact Hpos]. simpl.
    destruct (od_get k c); lia.
Qed.

Lemma count_categories_ok (cats : list str) (c : odict nat) :
  counter_ok c -> counter_ok (count_categories cats c).
Proof.
  unfold count_categories. apply fold_left_invariant.
  intros a b. apply counter_incr_ok.
Qed.

Lemma counter_ok_get (c : odict nat) (k : str) (n : nat) :
  counter_ok c -> In (k, n) c -> counter_get k c = n /\ (1 <= n)%nat.
Proof.
  intros [Hnd Hpos] Hin. unfold counter_get.
  rewrite (in_od_get _ _ _ Hnd Hin). split; [reflexivity|].
  rewrite Forall_forall in Hpos. apply (Hpos _ Hin).
Qed.

Lemma counter_get_in (c : odict nat) (k : str) :
  (1 <= counter_get k c)%nat -> exists n, In (k, n) c.
Proof.
  unfold counter_get. destruct (od_get k c) as [n|] eqn:E; [|lia].
  intros _. exists n. apply od_get_in, E.
Qed.

Lemma count_categories_nonempty (cats : list str) (c : odict nat) :
  od_nonempty (count_categories cats c)
  = od_nonempty c || match cats with [] => false | _ :: _ => true end.
Proof.
  unfold count_categories. revert c.
  induction cats as [|x cats IH]; intros c; simpl.
  - rewrite orb_false_r. reflexivity.
  - rewrite IH. rewrite orb_true_r.
    unfold counter_incr.
    destruct c as [|[k v] c]; simpl; [reflexivity|].
    destruct (str_eqb x k); reflexivity.
Qed.

(** ** Sorted counters *)

Lemma StronglySorted_weaken {A : Type} (R S : A -> A -> Prop) (l : list A) :
  (forall x y, R x y -> S x y) -> StronglySorted R l -> StronglySorted S l.
Proof.
  intros HRS. induction 1 as [|x l Hs IH Hall]; constructor; [exact IH|].
  rewrite Forall_forall in Hall |- *. auto.
Qed.

Lemma StronglySorted_firstn {A : Type} (R : A -> A -> Prop) (n : nat)
    (l : list A) :
  StronglySorted R l -> StronglySorted R (firstn n l).
Proof.
  intros H. revert n. induction H as [|x l Hs IH Hall]; intros [|n]; simpl;
    try constructor; [apply IH|].
  rewrite Forall_forall in Hall |- *. intros y Hy.
  apply Hall, (in_firstn _ _ _ Hy).
Qed.

Lemma StronglySorted_app_order {A : Type} (R : A -> A -> Prop) (l1 l2 : list A) :
  StronglySorted R (l1 ++ l2) ->
  forall x y, In x l1 -> In y l2 -> R x y.
Proof.
  induction l1 as [|a l1 IH]; intros Hs x y Hx Hy; [destruct Hx|].
  simpl in Hs. inversion Hs as [|? ? Hs' Hall]; subst.
  destruct Hx as [->|Hx]; [|apply IH; assumption].
  rewrite Forall_forall in Hall. apply Hall, in_or_app. right. exact Hy.
Qed.

Lemma NoDup_firstn_keep {A : Type} (n : nat) (l : list A) :
  NoDup l -> NoDup (firstn n l).
Proof.
  intros H. rewrite <- (firstn_skipn n l) in H.
  apply NoDup_app_remove_r in H. exact H.
Qed.

Lemma counts_sorted (c : odict nat) :
  StronglySorted (fun x y : str * nat => (snd y <= snd x)%nat)
    (py_sorted (fun x y => (snd y <? snd x)%nat) c).
Proof.
  apply (StronglySorted_weaken
           (not_after (fun x y : str * nat => (snd y <? snd x)%nat))).
  - unfold not_after. intros x y H. apply Nat.ltb_ge in H. exact H.
  - apply py_sorted_StronglySorted.
    + intros x y H. apply Nat.ltb_lt in H. apply Nat.ltb_ge. lia.
    + unfold not_after. intros x y z H1 H2.
      apply Nat.ltb_ge in H1, H2. apply Nat.ltb_ge. lia.
Qed.

Lemma most_common_in (n : nat) (c : odict nat) (kv : str * nat) :
  In kv (most_common n c) -> In kv c.
Proof.
  unfold most_common. intros H. apply in_firstn in H.
  apply py_sorted_in in H. exact H.
Qed.

Lemma most_common_all (n : nat) (c : odict nat) (kv : str * nat) :
  (List.length c <= n)%nat -> In kv c -> In kv (most_common n c).
Proof.
  intros Hlen Hin. unfold most_common. rewrite firstn_all2.
  - apply py_sorted_in. exact Hin.
  - rewrite (Permutation_length (py_sorted_perm _ c)). exact Hlen.
Qed.

Lemma most_common_length (n : nat) (c : odict nat) :
  (List.length (most_common n c) <= n)%nat.
Proof. unfold most_common. apply firstn_le_length. Qed.

Lemma most_common_keys (n : nat) (c : odict nat) :
  NoDup (od_keys c) -> NoDup (map fst (most_common n c)).
Proof.
  intros Hnd. unfold most_common. rewrite <- firstn_map.
  apply NoDup_firstn_keep.
  apply (Permutation_NoDup
           (Permutation_map fst (Permutation_sym (py_sorted_perm _ c)))).
  exact Hnd.
Qed.

(** No entry that [most_common] leaves out has a higher count than one it
    returns. *)
Lemma most_common_highest (n : nat) (c : odict nat) (k k' : str) (v v' : nat) :
  In (k, v) (most_common n c) -> In (k', v') c ->
  ~ In k' (map fst (most_common n c)) -> (v' <= v)%nat.
Proof.
  unfold most_common. intros Hin Hin' Hout.
  set (sorted := py_sorted (fun x y => (snd y <? snd x)%nat) c) in *.
  assert (Hs : StronglySorted (fun x y : str * nat => (snd y <= snd x)%nat)
                 (firstn n sorted ++ skipn n sorted)).
  { rewrite firstn_skipn. apply counts_sorted. }
  assert (Hskip : In (k', v') (skipn n sorted)).
  { apply (py_sorted_in (fun x y => (snd y <? snd x)%nat)) in Hin'.
    fold sorted in Hin'. rewrite <- (firstn_skipn n sorted) in Hin'.
    apply in_app_or in Hin'. destruct Hin' as [H|H]; [|exact H].
    exfalso. apply Hout. change k' with (fst (k', v')). apply in_map, H. }
  apply (StronglySorted_app_order _ _ _ Hs _ _ Hin Hskip).
Qed.

(** ** The categories of a review *)

Lemma tax_keys_nodup : NoDup (od_keys TAX).
Proof.
  assert (H : forall l : list str,
             (fix distinct (l : list str) : bool :=
                match l with
                | [] => true
                | x :: r => negb (existsb (str_eqb x) r) && distinct r
                end) l = true -> NoDup l).
  { induction l as [|x r IH]; intros Hd; constructor.
    - apply andb_true_iff in Hd. destruct Hd as [Hx _].
      apply negb_true_iff in Hx. intros Hin.
      assert (existsb (str_eqb x) r = true); [|congruence].
      apply existsb_exists. exists x. split; [exact Hin | apply str_eqb_refl].
    - apply IH. apply andb_true_iff in Hd. tauto. }
  apply H. vm_compute. reflexivity.
Qed.

Lemma NoDup_map_filter {A B : Type} (g : A -> B) (h : A -> bool) (l : list A) :
  NoDup (map g l) -> NoDup (map g (filter h l)).
Proof.
  induction l as [|x l IH]; simpl; intros Hnd; [constructor|].
  inversion Hnd as [|? ? Hx Hnd']; subst.
  destruct (h x); simpl; [|apply IH, Hnd'].
  constructor; [|apply IH, Hnd'].
  intros Hin. apply Hx. apply in_map_iff in Hin.
  destruct Hin as [y [Hy Hin]]. apply filter_In in Hin.
  rewrite <- Hy. apply in_map. tauto.
Qed.

Section CategoryFacts.
Context {F : PyFloat} {U : UnicodeDB}.

Lemma categorize_nodup (text : str) : NoDup (categorize text).
Proof.
  rewrite categorize_unfold.
  destruct (nonempty (norm_text text)); [|constructor].
  apply NoDup_firstn_keep. unfold matched_categories.
  apply NoDup_map_filter. exact tax_keys_nodup.
Qed.

Lemma categorize_in_tax (text c : str) :
  In c (categorize text) -> In c (od_keys TAX).
Proof.
  rewrite categorize_unfold.
  destruct (nonempty (norm_text text)); [|intros []].
  intros H. apply in_firstn in H. unfold matched_categories in H.
  apply in_map_iff in H. destruct H as [e [<- He]].
  apply filter_In in He. unfold od_keys. apply in_map. tauto.
Qed.

Lemma count_reviews_get (l : list review) (c : odict nat) (k : str) :
  counter_get k (count_reviews l c)
  = (counter_get k c + category_count k l)%nat.
Proof.
  unfold count_reviews, category_count. revert c.
  induction l as [|r l IH]; intros c; simpl; [lia|].
  rewrite IH, count_categories_get, NoDup_filter_le_1
    by apply categorize_nodup.
  destruct (existsb (str_eqb k) (categories_of r)); simpl; lia.
Qed.

Lemma count_reviews_ok (l : list review) (c : odict nat) :
  counter_ok c -> counter_ok (count_reviews l c).
Proof.
  unfold count_reviews. apply fold_left_invariant.
  intros a b. apply count_categories_ok.
Qed.

Lemma count_reviews_nonempty (l : list review) (c : odict nat) :
  od_nonempty (count_reviews l c)
  = od_nonempty c || existsb has_category l.
Proof.
  unfold count_reviews. revert c.
  induction l as [|r l IH]; intros c; simpl.
  - rewrite orb_false_r. reflexivity.
  - rewrite IH, count_categories_nonempty, orb_assoc. reflexivity.
Qed.

Lemma count_reviews_app (l1 l2 : list review) (c : odict nat) :
  count_reviews (l1 ++ l2) c = count_reviews l2 (count_reviews l1 c).
Proof. unfold count_reviews. apply fold_left_app. Qed.

Lemma category_count_in_tax (l : list review) (k : str) :
  (1 <= category_count k l)%nat -> In k (od_keys TAX).
Proof.
  unfold category_count. intros H.
  destruct (filter (fun r => existsb (str_eqb k) (categories_of r)) l)
    as [|r rest] eqn:E; [simpl in H; lia|].
  assert (Hin : In r (r :: rest)) by (left; reflexivity).
  rewrite <- E in Hin. apply filter_In in Hin. destruct Hin as [_ Hk].
  apply existsb_exists in Hk. destruct Hk as [y [Hy Hky]].
  apply str_eqb_eq in Hky. subst y.
  apply (categorize_in_tax _ _ Hy).
Qed.

(** What [most_common] returns for the counter of the reviews [l]. *)
Lemma most_common_top (n : nat) (l : list review) :
  top_of l (most_common n (count_reviews l [])).
Proof.
  assert (Hok : counter_ok (count_reviews l [])).
  { apply count_reviews_ok. split; constructor. }
  assert (Hget : forall k, counter_get k (count_reviews l [])
                           = category_count k l).
  { intros k. rewrite count_reviews_get. reflexivity. }
  split; [|split].
  - unfold most_common. apply StronglySorted_firstn, counts_sorted.
  - apply most_common_keys. apply Hok.
  - intros c v Hin.
    destruct (counter_ok_get _ _ _ Hok (most_common_in _ _ _ Hin))
      as [Hv Hpos].
    rewrite Hget in Hv.
    split; [apply (category_count_in_tax l); lia|].
    split; [exact Hpos|]. split; [congruence|].
    intros c' Hout.
    destruct (Nat.eq_dec (category_count c' l) 0) as [Hz|Hnz]; [lia|].
    destruct (counter_get_in (count_reviews l []) c') as [v' Hv'];
      [rewrite Hget; lia|].
    destruct (counter_ok_get _ _ _ Hok Hv') as [Hcv' _].
    rewrite Hget in Hcv'. rewrite Hcv'.
    apply (most_common_highest n _ c c' v v' Hin Hv' Hout).
Qed.

(** A counter of categories has at most eight entries, so that
    [most_common(10)] returns all of them. *)
Lemma count_reviews_length (l : list review) :
  (List.length (count_reviews l []) <= 8)%nat.
Proof.
  assert (Hok : counter_ok (count_reviews l [])).
  { apply count_reviews_ok. split; constructor. }
  assert (Hincl : incl (od_keys (count_reviews l [])) (od_keys TAX)).
  { intros k Hk. apply in_map_iff in Hk. destruct Hk as [[k' v] [<- Hin]].
    destruct (counter_ok_get _ _ _ Hok Hin) as [Hv Hpos]. cbn [fst].
    apply (category_count_in_tax l).
    rewrite count_reviews_get in Hv. cbn [counter_get od_get] in Hv. lia. }
  apply (NoDup_incl_length (proj1 Hok)) in Hincl.
  unfold od_keys in Hincl. rewrite !length_map in Hincl. exact Hincl.
Qed.

Lemma most_common_10_complete (l : list review) (c : str) :
  (1 <= category_count c l)%nat ->
  In c (map fst (most_common 10 (count_reviews l []))).
Proof.
  intros H.
  destruct (counter_get_in (count_reviews l []) c) as [v Hv].
  { rewrite count_reviews_get. simpl. exact H. }
  change c with (fst (c, v)). apply in_map.
  apply most_common_all; [|exact Hv].
  pose proof (count_reviews_length l). lia.
Qed.

End CategoryFacts.

(** ** Quotes *)

Lemma join_nonempty (w : str) (ws : list str) :
  nonempty w = true -> nonempty (join (u " ") (w :: ws)) = true.
Proof.
  intros Hw. simpl. destruct w as [|c w]; [discriminate|].
  destruct ws; reflexivity.
Qed.

Lemma excerpt_nonempty (text e : str) (n : nat) :
  excerpt text (S n) = Some e -> nonempty e = true.
Proof.
  rewrite excerpt_unfold.
  pose proof (split_ws_words text [] eq_refl) as Hw.
  fold (findall_nonspace text) in Hw.
  destruct (findall_nonspace text) as [|w ws]; [discriminate|].
  intros H. inversion H. cbn [firstn]. apply join_nonempty.
  inversion Hw as [|? ? Hword _]; subst.
  unfold is_word in Hword. apply andb_true_iff in Hword. tauto.
Qed.

Lemma firstn_app_full {A : Type} (n : nat) (q x : list A) :
  List.length q = n -> firstn n (q ++ x) = q.
Proof.
  intros <-.
  rewrite firstn_app, firstn_all, Nat.sub_diag, firstn_O, app_nil_r.
  reflexivity.
Qed.

Lemma collect_quotes_firstn {F : PyFloat} (l : list review) (q : list str) :
  (List.length q <= 4)%nat ->
  collect_quotes l q
  = firstn 4
      (q ++ flat_map (fun r => match excerpt (or_empty (review_text r)) 25 with
                               | Some e => [e]
                               | None => []
                               end) l).
Proof.
  unfold collect_quotes. revert q.
  induction l as [|r l IH]; intros q Hq.
  - cbn [fold_left flat_map]. rewrite app_nil_r, firstn_all2 by exact Hq.
    reflexivity.
  - cbn [fold_left flat_map].
    destruct (excerpt (or_empty (review_text r)) 25) as [e|] eqn:E;
      cbn [add_quote]; [|apply IH, Hq].
    rewrite (excerpt_nonempty _ _ _ E). cbn [andb].
    destruct (Nat.ltb_spec (List.length q) 4) as [Hlt|Hge].
    + rewrite IH by (rewrite length_app; simpl; lia).
      rewrite <- app_assoc. reflexivity.
    + rewrite IH by exact Hq.
      assert (Hlen : List.length q = 4%nat) by lia.
      rewrite !(firstn_app_full 4) by exact Hlen. reflexivity.
Qed.

Lemma collect_quotes_of {F : PyFloat} (l : list review) :
  collect_quotes l [] = quotes_of l.
Proof. apply (collect_quotes_firstn l []). simpl. lia. Qed.

(** ** The theme loops *)

Section ThemeLoops.
Context {F : PyFloat} {U : UnicodeDB}.

Lemma positive_not_negative (lab : str) :
  str_eqb lab (u "positive") = true -> str_eqb lab (u "negative") = false.
Proof. intros H. apply str_eqb_eq in H. subst lab. reflexivity. Qed.

(** A component of the state that the reviews labelled [lab] update, and no
    other review. *)
Lemma theme_component {A : Type} (proj : theme_state -> A)
    (step : A -> review -> A) (lab : str) :
  (forall st r, proj (theme_review st r)
                = if str_eqb (label_of r) lab then step (proj st) r
                  else proj st) ->
  forall l st, proj (fold_left theme_review l st)
               = fold_left step (labelled lab l) (proj st).
Proof.
  intros Hstep. unfold labelled.
  induction l as [|r l IH]; intros st; simpl; [reflexivity|].
  rewrite IH, Hstep. destruct (str_eqb (label_of r) lab); reflexivity.
Qed.

Ltac theme_cases :=
  let s := fresh "s" in
  let x := fresh "x" in
  let Ep := fresh "Ep" in
  intros s x; unfold theme_review;
  destruct (str_eqb (label_of x) (u "positive")) eqn:Ep;
  [ try rewrite (positive_not_negative _ Ep); reflexivity
  | destruct (str_eqb (label_of x) (u "negative")); reflexivity ].

Lemma theme_reviews_pos (l : list review) (st : theme_state) :
  ts_pos (fold_left theme_review l st)
  = count_reviews (labelled (u "positive") l) (ts_pos st).
Proof.
  apply (theme_component ts_pos
           (fun c r => count_categories (categories_of r) c)).
  theme_cases.
Qed.

Lemma theme_reviews_neg (l : list review) (st : theme_state) :
  ts_neg (fold_left theme_review l st)
  = count_reviews (labelled (u "negative") l) (ts_neg st).
Proof.
  apply (theme_component ts_neg
           (fun c r => count_categories (categories_of r) c)).
  theme_cases.
Qed.

Lemma theme_reviews_overall_pos (l : list review) (st : theme_state) :
  ts_overall_pos (fold_left theme_review l st)
  = count_reviews (labelled (u "positive") l) (ts_overall_pos st).
Proof.
  apply (theme_component ts_overall_pos
           (fun c r => count_categories (categories_of r) c)).
  theme_cases.
Qed.

Lemma theme_reviews_overall_neg (l : list review) (st : theme_state) :
  ts_overall_neg (fold_left theme_review l st)
  = count_reviews (labelled (u "negative") l) (ts_overall_neg st).
Proof.
  apply (theme_component ts_overall_neg
           (fun c r => count_categories (categories_of r) c)).
  theme_cases.
Qed.

Lemma theme_reviews_quotes_pos (l : list review) (st : theme_state) :
  ts_quotes_pos (fold_left theme_review l st)
  = collect_quotes (labelled (u "positive") l) (ts_quotes_pos st).
Proof.
  apply (theme_component ts_quotes_pos
           (fun q r => add_quote (excerpt (or_empty (review_text r)) 25) q)).
  theme_cases.
Qed.

Lemma theme_reviews_quotes_neg (l : list review) (st : theme_state) :
  ts_quotes_neg (fold_left theme_review l st)
  = collect_quotes (labelled (u "negative") l) (ts_quotes_neg st).
Proof.
  apply (theme_component ts_quotes_neg
           (fun q r => add_quote (excerpt (or_empty (review_text r)) 25) q)).
  theme_cases.
Qed.

Lemma existsb_labelled (lab : str) (g : review -> bool) (l : list review) :
  existsb g (labelled lab l)
  = existsb (fun r => str_eqb (label_of r) lab && g r) l.
Proof.
  unfold labelled. induction l as [|r l IH]; simpl; [reflexivity|].
  destruct (str_eqb (label_of r) lab); simpl; rewrite IH; reflexivity.
Qed.

Lemma existsb_either {A : Type} (a b g : A -> bool) (l : list A) :
  existsb (fun x => (a x || b x) && g x) l
  = existsb (fun x => a x && g x) l || existsb (fun x => b x && g x) l.
Proof.
  induction l as [|x l IH]; simpl; [reflexivity|].
  rewrite IH. destruct (a x), (b x), (g x); simpl;
    repeat rewrite orb_true_r; reflexivity.
Qed.

Lemma has_themes_counters (f : firm_obj) :
  od_nonempty (count_reviews (labelled (u "positive") (firm_reviews f)) [])
  || od_nonempty (count_reviews (labelled (u "negative") (firm_reviews f)) [])
  = has_themes f.
Proof.
  rewrite !count_reviews_nonempty, !existsb_labelled. simpl orb.
  unfold has_themes. rewrite existsb_either. reflexivity.
Qed.

Lemma theme_firm_entry (acc : themes_acc) (f : firm_obj) :
  ta_themes_by_firm (theme_firm acc f)
  = ta_themes_by_firm acc
    ++ (if has_themes f then [firm_themes_of f] else []).
Proof.
  unfold theme_firm. cbn [ta_themes_by_firm].
  rewrite theme_reviews_pos, theme_reviews_neg, theme_reviews_quotes_pos,
    theme_reviews_quotes_neg. cbn [ts_pos ts_neg ts_quotes_pos ts_quotes_neg].
  rewrite has_themes_counters.
  destruct (has_themes f); [reflexivity|]. rewrite app_nil_r. reflexivity.
Qed.

Lemma labelled_app (lab : str) (l1 l2 : list review) :
  labelled lab (l1 ++ l2) = labelled lab l1 ++ labelled lab l2.
Proof. unfold labelled. apply filter_app. Qed.

Lemma theme_firms (firms : list firm_obj) (acc : themes_acc) :
  ta_overall_pos (fold_left theme_firm firms acc)
  = count_reviews (labelled (u "positive") (flat_map firm_reviews firms))
      (ta_overall_pos acc)
  /\ ta_overall_neg (fold_left theme_firm firms acc)
     = count_reviews (labelled (u "negative") (flat_map firm_reviews firms))
         (ta_overall_neg acc)
  /\ ta_themes_by_firm (fold_left theme_firm firms acc)
     = ta_themes_by_firm acc ++ map firm_themes_of (filter has_themes firms).
Proof.
  revert acc. induction firms as [|f firms IH]; intros acc.
  - simpl. rewrite app_nil_r. auto.
  - cbn [fold_left flat_map filter].
    destruct (IH (theme_firm acc f)) as (Hp & Hn & Hb).
    rewrite Hp, Hn, Hb, theme_firm_entry, !labelled_app, !count_reviews_app.
    unfold theme_firm at 1 2. cbn [ta_overall_pos ta_overall_neg].
    rewrite theme_reviews_overall_pos, theme_reviews_overall_neg.
    cbn [ts_overall_pos ts_overall_neg].
    split; [reflexivity|]. split; [reflexivity|].
    destruct (has_themes f); simpl; rewrite <- app_assoc; reflexivity.
Qed.

Lemma Forall2_map_self {A B : Type} (R : B -> A -> Prop) (g : A -> B)
    (l : list A) :
  (forall x, In x l -> R (g x) x) -> Forall2 R (map g l) l.
Proof.
  induction l as [|x l IH]; intros H; simpl; constructor.
  - apply H. left. reflexivity.
  - apply IH. intros y Hy. apply H. right. exact Hy.
Qed.

End ThemeLoops.

(** X19.  [themes_by_firm] has one entry for each firm with a positive or
    negative review that has a category, in the order of the firms, under
    the id of the firm, and for no other firm.  Its positive quotes are the
    excerpts of the first four positive reviews of the firm with a text that
    is not blank, in the order of the reviews, its negative quotes those of
    the first four negative reviews. *)
Theorem themes_by_firm_quotes :
  forall (F : PyFloat) (U : UnicodeDB) (merged_firms : list firm_obj),
    let t := build_analysis_themes merged_firms in
    map ft_firm_id (themes_by_firm t)
    = map fo_firm_id (filter has_themes merged_firms)
    /\ Forall2
         (fun ft f =>
            representative_quotes_positive ft
            = quotes_of (labelled (u "positive") (firm_reviews f))
            /\ representative_quotes_negative ft
               = quotes_of (labelled (u "negative") (firm_reviews f))
            /\ (List.length (representative_quotes_positive ft) <= 4)%nat
            /\ (List.length (representative_quotes_negative ft) <= 4)%nat)
         (themes_by_firm t) (filter has_themes merged_firms).
Proof.
  intros F U merged_firms t.
  destruct (theme_firms merged_firms (mk_themes_acc [] [] []))
    as (_ & _ & Hb).
  subst t. unfold build_analysis_themes. cbn [themes_by_firm].
  rewrite Hb. cbn [ta_themes_by_firm app]. split.
  - rewrite map_map. reflexivity.
  - apply Forall2_map_self. intros f _.
    unfold firm_themes_of.
    cbn [representative_quotes_positive representative_quotes_negative].
    rewrite !collect_quotes_of.
    repeat split; unfold quotes_of; apply firstn_le_length.
Qed.

(** X20.  The category lists of the themes are exact.  For a firm with
    themes, the positive list holds at most five categories of the
    taxonomy, each once, from the highest count down, each with the number
    of positive reviews of the firm that have the category, and no category
    left out has a higher count than a listed one; likewise the negative
    list.  The overall lists hold, in the same way, every category that a
    positive (negative) review of any firm has: at most eight, so that
    none is cut. *)
Theorem theme_counts_are_exact :
  forall (F : PyFloat) (U : UnicodeDB) (merged_firms : list firm_obj),
    let t := build_analysis_themes merged_firms in
    let reviews := flat_map firm_reviews merged_firms in
    Forall2
      (fun ft f =>
         top_of (labelled (u "positive") (firm_reviews f))
           (top_positive_categories ft)
         /\ top_of (labelled (u "negative") (firm_reviews f))
              (top_negative_categories ft)
         /\ (List.length (top_positive_categories ft) <= 5)%nat
         /\ (List.length (top_negative_categories ft) <= 5)%nat)
      (themes_by_firm t) (filter has_themes merged_firms)
    /\ top_of (labelled (u "positive") reviews) (overall_top_positive t)
    /\ top_of (labelled (u "negative") reviews) (overall_top_negative t)
    /\ (forall c,
           (1 <= category_count c (labelled (u "positive") reviews))%nat ->
           In c (map fst (overall_top_positive t)))
    /\ (forall c,
           (1 <= category_count c (labelled (u "negative") reviews))%nat ->
           In c (map fst (overall_top_negative t))).
Proof.
  intros F U merged_firms t reviews.
  destruct (theme_firms merged_firms (mk_themes_acc [] [] []))
    as (Hp & Hn & Hb).
  subst t. unfold build_analysis_themes.
  cbn [themes_by_firm overall_top_positive overall_top_negative].
  rewrite Hp, Hn, Hb. cbn [ta_themes_by_firm ta_overall_pos ta_overall_neg app].
  fold reviews. split; [|split; [|split; [|split]]].
  - apply Forall2_map_self. intros f _. unfold firm_themes_of.
    cbn [top_positive_categories top_negative_categories].
    split; [apply most_common_top|]. split; [apply most_common_top|].
    split; apply most_common_length.
  - apply most_common_top.
  - apply most_common_top.
  - intros c. apply most_common_10_complete.
  - intros c. apply most_common_10_complete.
Qed.

(** The themes of the worked example: the firm without a category has no
    entry, and the quotes are trimmed and collapsed. *)
Lemma themed_firms_themes :
  build_analysis_themes (F := exact) (U := czech_db) themed_firms
  = mk_themes
      [(u "professionalism_competence", 1%nat); (u "speed_timeliness", 1%nat);
       (u "outcome_effectiveness", 1%nat)]
      [(u "communication_responsiveness", 1%nat)]
      [mk_firm_themes (u "a")
         [(u "professionalism_competence", 1%nat); (u "speed_timeliness", 1%nat);
          (u "outcome_effectiveness", 1%nat)]
         [(u "communication_responsiveness", 1%nat)]
         [u "Fast and excellent help"] [u "No reply"]].
Proof. vm_compute. reflexivity. Qed.

(** ** Sources met again *)

Lemma Forall2_refl_on {A : Type} (R : A -> A -> Prop) (l : list A) :
  (forall x, R x x) -> Forall2 R l l.
Proof. intros H. induction l; constructor; auto. Qed.

Lemma Forall2_trans_on {A : Type} (R : A -> A -> Prop) (l1 l2 l3 : list A) :
  (forall x y z, R x y -> R y z -> R x z) ->
  Forall2 R l1 l2 -> Forall2 R l2 l3 -> Forall2 R l1 l3.
Proof.
  intros Ht H12. revert l3.
  induction H12 as [|x y l1 l2 Hxy H12 IH]; intros l3 H23;
    inversion H23; subst; constructor; eauto.
Qed.

Lemma Forall2_map_eq {A B : Type} (R : A -> A -> Prop) (g : A -> B)
    (l l' : list A) :
  (forall x x', R x x' -> g x = g x') -> Forall2 R l l' -> map g l = map g l'.
Proof.
  intros Hg. induction 1 as [|x x' l l' Hx Hl IH]; simpl; [reflexivity|].
  rewrite (Hg _ _ Hx), IH. reflexivity.
Qed.

Lemma Forall2_fold_eq {A B : Type} (R : A -> A -> Prop) (h : B -> A -> B)
    (l l' : list A) (b : B) :
  (forall acc x x', R x x' -> h acc x = h acc x') ->
  Forall2 R l l' -> fold_left h l b = fold_left h l' b.
Proof.
  intros Hh H. revert b.
  induction H as [|x x' l l' Hx Hl IH]; intros b; simpl; [reflexivity|].
  rewrite (Hh _ _ _ Hx). apply IH.
Qed.

(** A loop whose every step leaves the state the same, up to [same]. *)
Lemma fold_same {A B : Type} (same : A -> A -> Prop) (absorbs : A -> B -> Prop)
    (step : A -> B -> A) :
  (forall a, same a a) ->
  (forall a1 a2 a3, same a1 a2 -> same a2 a3 -> same a1 a3) ->
  (forall a a' b, same a a' -> absorbs a b -> absorbs a' b) ->
  (forall a b, absorbs a b -> same a (step a b)) ->
  forall (l : list B) (a : A),
    (forall b, In b l -> absorbs a b) -> same a (fold_left step l a).
Proof.
  intros Hrefl Htrans Hinv Hstep l a Hall.
  assert (H : forall a', same a a' -> same a (fold_left step l a')).
  { induction l as [|b l IH]; intros a' Ha'; simpl; [exact Ha'|].
    apply IH.
    - intros b' Hb'. apply Hall. right. exact Hb'.
    - apply (Htrans _ _ _ Ha'). apply Hstep.
      apply (Hinv _ _ _ Ha'). apply Hall. left. reflexivity. }
  apply H, Hrefl.
Qed.

Lemma od_set_same_keys {V : Type} (R : V -> V -> Prop) (k : str) (v v' : V)
    (d : odict V) :
  (forall x, R x x) -> od_get k d = Some v -> R v v' ->
  Forall2 (fun kv kv' => fst kv' = fst kv /\ R (snd kv) (snd kv'))
    d (od_set k v' d).
Proof.
  intros Hrefl. induction d as [|[k' x] d IH]; simpl; [discriminate|].
  destruct (str_eqb k k') eqn:E.
  - intros Hv HR. inversion Hv; subst x. apply str_eqb_eq in E. subst k'.
    constructor; [simpl; auto|].
    apply Forall2_refl_on. intros y. auto.
  - intros Hv HR. constructor; [simpl; auto | apply IH; assumption].
Qed.

Lemma od_get_same_keys {V : Type} (R : V -> V -> Prop) (k : str) (v : V)
    (d d' : odict V) :
  Forall2 (fun kv kv' => fst kv' = fst kv /\ R (snd kv) (snd kv')) d d' ->
  od_get k d = Some v -> exists v', od_get k d' = Some v' /\ R v v'.
Proof.
  induction 1 as [|[k1 x] [k2 x'] d d' [Hk Hx] Hd IH]; simpl; [discriminate|].
  simpl in Hk, Hx. subst k2.
  destruct (str_eqb k k1); [|exact IH].
  intros H. inversion H; subst x. eauto.
Qed.

(** Profiles *)

Lemma profiles_extend_refl (pps : list (str * option str)) :
  profiles_extend pps pps.
Proof.
  exists []. split; [rewrite app_nil_r; reflexivity | intros x []].
Qed.

Lemma profiles_extend_in (pps pps' : list (str * option str))
    (x : str * option str) :
  profiles_extend pps pps' -> In x pps -> In x pps'.
Proof. intros [extra [-> _]] H. apply in_or_app. auto. Qed.

Lemma profiles_extend_trans (p1 p2 p3 : list (str * option str)) :
  profiles_extend p1 p2 -> profiles_extend p2 p3 -> profiles_extend p1 p3.
Proof.
  intros [e1 [-> H1]] [e2 [-> H2]]. exists (e1 ++ e2). split.
  - rewrite app_assoc. reflexivity.
  - intros x Hx. apply in_app_or in Hx. destruct Hx as [Hx|Hx]; [auto|].
    apply H2 in Hx. apply in_app_or in Hx. destruct Hx; auto.
Qed.

Lemma dedup_profile_skip (acc : list (str * option str)) (x : str * option str) :
  In x acc \/ truthy_s (snd x) = false -> dedup_profile acc x = acc.
Proof.
  intros H. unfold dedup_profile.
  destruct (existsb _ acc) eqn:E; [reflexivity|].
  destruct H as [H|H]; [|rewrite H; reflexivity].
  apply profile_seen in H. congruence.
Qed.

Lemma dedup_profiles_extend (pps pps' : list (str * option str)) :
  profiles_extend pps pps' ->
  fold_left dedup_profile pps' [] = fold_left dedup_profile pps [].
Proof.
  intros [extra [-> Hincl]]. rewrite fold_left_app.
  pose proof (dedup_profiles_in pps []) as Hin.
  generalize dependent (fold_left dedup_profile pps []). intros acc Hin.
  induction extra as [|x extra IH]; simpl; [reflexivity|].
  rewrite dedup_profile_skip.
  - apply IH. intros y Hy. apply Hincl. right. exact Hy.
  - destruct (truthy_s (snd x)) eqn:E; [left | right; reflexivity].
    apply Hin. right. split; [|exact E]. apply Hincl. left. reflexivity.
Qed.

Lemma merge_profiles_app {F : PyFloat} {U : UnicodeDB} (l : list profile)
    (pps : list (str * option str)) :
  fold_left merge_profile l pps
  = pps ++ map normalize_profile
             (filter (fun p => truthy_s (pp_source_url p)) l).
Proof.
  revert pps. induction l as [|p l IH]; intros pps; simpl.
  - rewrite app_nil_r. reflexivity.
  - rewrite IH. unfold merge_profile. cbn [normalize_profile snd].
    destruct (truthy_s (pp_source_url p)); [|reflexivity].
    simpl. rewrite <- app_assoc. reflexivity.
Qed.

Section MetAgain.
Context {F : PyFloat} {U : UnicodeDB}.
Variable sha1_hexdigest : str -> str.
Variable float_repr : float -> str.

Local Abbreviation merge_office' := (merge_office sha1_hexdigest float_repr).
Local Abbreviation merge_firm' := (merge_firm sha1_hexdigest float_repr).
Local Abbreviation merge_index' := (merge_index sha1_hexdigest float_repr).
Local Abbreviation update_office' := (update_office sha1_hexdigest float_repr).
Local Abbreviation update_firm' := (update_firm sha1_hexdigest float_repr).
Local Abbreviation office_absorbs' :=
  (office_absorbs sha1_hexdigest float_repr).
Local Abbreviation firm_absorbs' := (firm_absorbs sha1_hexdigest float_repr).
Local Abbreviation index_absorbs' := (index_absorbs sha1_hexdigest float_repr).

(** *** The relation [same] *)

Lemma office_same_refl (mo : moffice) : office_same mo mo.
Proof. repeat split. apply profiles_extend_refl. Qed.

Lemma office_same_trans (m1 m2 m3 : moffice) :
  office_same m1 m2 -> office_same m2 m3 -> office_same m1 m3.
Proof.
  intros (Hc & Ha & Hr & Hp) (Hc' & Ha' & Hr' & Hp').
  repeat split; try congruence.
  apply (profiles_extend_trans _ _ _ Hp Hp').
Qed.

Lemma offices_same_refl (offices : odict moffice) : offices_same offices offices.
Proof.
  apply Forall2_refl_on. intros x. split; [reflexivity | apply office_same_refl].
Qed.

Lemma offices_same_trans (o1 o2 o3 : odict moffice) :
  offices_same o1 o2 -> offices_same o2 o3 -> offices_same o1 o3.
Proof.
  apply Forall2_trans_on. intros x y z [H1 H2] [H3 H4].
  split; [congruence | apply (office_same_trans _ _ _ H2 H4)].
Qed.

Lemma firm_same_refl (mf : mfirm) : firm_same mf mf.
Proof. repeat split. apply offices_same_refl. Qed.

Lemma firm_same_trans (m1 m2 m3 : mfirm) :
  firm_same m1 m2 -> firm_same m2 m3 -> firm_same m1 m3.
Proof.
  intros (Hn & Hw & Hi & Ho) (Hn' & Hw' & Hi' & Ho').
  repeat split; try congruence.
  apply (offices_same_trans _ _ _ Ho Ho').
Qed.

Lemma index_same_refl (idx : odict mfirm) : index_same idx idx.
Proof.
  apply Forall2_refl_on. intros x. split; [reflexivity | apply firm_same_refl].
Qed.

Lemma index_same_trans (i1 i2 i3 : odict mfirm) :
  index_same i1 i2 -> index_same i2 i3 -> index_same i1 i3.
Proof.
  apply Forall2_trans_on. intros x y z [H1 H2] [H3 H4].
  split; [congruence | apply (firm_same_trans _ _ _ H2 H4)].
Qed.

(** *** What an update establishes and keeps *)

Lemma update_office_absorbs (mo : moffice) (o : office) :
  office_absorbs' o (update_office' mo o).
Proof.
  unfold office_absorbs, update_office. cbn [mo_city mo_address
    mo_platform_profiles]. repeat split.
  - intros Ht. rewrite Ht, andb_true_r.
    destruct (truthy_s (mo_city mo)) eqn:E; simpl; assumption.
  - intros Ht. rewrite Ht, andb_true_r.
    destruct (truthy_s (mo_address mo)) eqn:E; simpl; assumption.
  - intros p Hp Hurl. apply merge_profiles_in. right. exists p. auto.
  - intros r Hr. unfold covers. cbn [mo_reviews_map].
    apply merge_reviews_cover. exact Hr.
Qed.

Lemma update_office_keeps_absorbed (o : office) (mo : moffice) (o' : office) :
  office_absorbs' o mo -> office_absorbs' o (update_office' mo o').
Proof.
  intros (Hc & Ha & Hp & Hr).
  unfold office_absorbs, update_office. cbn [mo_city mo_address
    mo_platform_profiles]. repeat split.
  - intros Ht. rewrite (Hc Ht). simpl. apply Hc, Ht.
  - intros Ht. rewrite (Ha Ht). simpl. apply Ha, Ht.
  - intros p Hin Hurl. apply merge_profiles_in. left. apply Hp; assumption.
  - intros r Hin. apply (covers_update sha1_hexdigest float_repr r mo o').
    apply Hr, Hin.
Qed.

Lemma update_firm_absorbs (mf : mfirm) (f : firm) :
  firm_absorbs' f (update_firm' mf f).
Proof.
  unfold firm_absorbs, update_firm.
  cbn [mf_firm_name mf_website mf_firm_ids mf_offices]. repeat split.
  - rewrite H. simpl.
    destruct (truthy_s (mf_firm_name mf)) eqn:E; simpl; [|exact H].
    destruct (len (or_empty (mf_firm_name mf)) <? len (or_empty (f_firm_name f)))%nat;
      assumption.
  - rewrite H. simpl.
    destruct (truthy_s (mf_firm_name mf)) eqn:E; simpl; [|lia].
    destruct (Nat.ltb_spec (len (or_empty (mf_firm_name mf)))
                (len (or_empty (f_firm_name f)))); lia.
  - intros Ht. rewrite Ht, andb_true_r.
    destruct (truthy_s (mf_website mf)) eqn:E; simpl; assumption.
  - intros Ht. rewrite Ht. apply set_add_in. left. reflexivity.
  - intros o Ho.
    apply (merge_offices_reach sha1_hexdigest float_repr
             (office_absorbs' o) o).
    + intros mo o'. apply update_office_keeps_absorbed.
    + intros mo. apply update_office_absorbs.
    + exact Ho.
Qed.

Lemma update_firm_keeps_absorbed (f : firm) (mf : mfirm) (g : firm) :
  firm_absorbs' f mf -> firm_absorbs' f (update_firm' mf g).
Proof.
  intros (Hn & Hw & Hi & Ho).
  unfold firm_absorbs, update_firm.
  cbn [mf_firm_name mf_website mf_firm_ids mf_offices].
  split; [|split; [|split]].
  - intros Ht. destruct (Hn Ht) as [Hmf Hlen]. rewrite Hmf. simpl.
    destruct (truthy_s (f_firm_name g)) eqn:Eg; simpl; [|auto].
    destruct (Nat.ltb_spec (len (or_empty (mf_firm_name mf)))
                (len (or_empty (f_firm_name g)))); [|auto].
    split; [exact Eg | lia].
  - intros Ht. rewrite (Hw Ht). simpl. apply Hw, Ht.
  - intros Ht. destruct (truthy_s (f_firm_id g)); [|apply Hi, Ht].
    apply set_add_in. right. apply Hi, Ht.
  - intros o Hin. apply fold_left_invariant; [|apply Ho, Hin].
    intros a b. apply merge_office_keeps.
    intros mo o'. apply update_office_keeps_absorbed.
Qed.

Lemma merge_firm_absorbs (firms_map : odict mfirm) (f : firm) :
  index_absorbs' (merge_firm' firms_map f) f.
Proof.
  unfold index_absorbs. rewrite merge_firm_update.
  eexists. split; [apply od_get_set_same | apply update_firm_absorbs].
Qed.

Lemma merge_firm_keeps_absorbed (firms_map : odict mfirm) (f g : firm) :
  index_absorbs' firms_map f -> index_absorbs' (merge_firm' firms_map g) f.
Proof.
  apply merge_firm_keeps_firm. intros mf h. apply update_firm_keeps_absorbed.
Qed.

Lemma merge_firms_absorb (l : list firm) (firms_map : odict mfirm) (f : firm) :
  In f l -> index_absorbs' (fold_left merge_firm' l firms_map) f.
Proof.
  revert firms_map. induction l as [|x l IH]; intros firms_map Hf;
    [destruct Hf|].
  simpl. destruct Hf as [->|Hf]; [|apply IH; assumption].
  apply fold_left_invariant; [|apply merge_firm_absorbs].
  intros a b. apply merge_firm_keeps_absorbed.
Qed.

(** *** An absorbed record changes nothing but the profile lists *)

Lemma office_absorbs_same (o : office) (mo mo' : moffice) :
  office_same mo mo' -> office_absorbs' o mo -> office_absorbs' o mo'.
Proof.
  intros (Hc & Ha & Hr & Hp) (Hc' & Ha' & Hp' & Hr').
  unfold office_absorbs. rewrite Hc, Ha. repeat split; try assumption.
  - intros p Hin Hurl.
    apply (profiles_extend_in _ _ _ Hp). apply Hp'; assumption.
  - intros r Hin. unfold covers. rewrite Hr. apply Hr', Hin.
Qed.

Lemma absorbed_office_same (o : office) (mo : moffice) :
  office_absorbs' o mo -> office_same mo (update_office' mo o).
Proof.
  intros (Hc & Ha & Hp & Hr).
  unfold office_same, update_office.
  cbn [mo_city mo_address mo_platform_profiles mo_reviews_map].
  split; [|split; [|split]].
  - destruct (truthy_s (o_city o)) eqn:E.
    + rewrite (Hc eq_refl). reflexivity.
    + rewrite andb_false_r. reflexivity.
  - destruct (truthy_s (o_address o)) eqn:E.
    + rewrite (Ha eq_refl). reflexivity.
    + rewrite andb_false_r. reflexivity.
  - apply merge_reviews_covered. exact Hr.
  - rewrite merge_profiles_app. eexists. split; [reflexivity|].
    intros x Hx. apply in_map_iff in Hx. destruct Hx as [p [<- Hin]].
    apply filter_In in Hin. destruct Hin as [Hin Hurl].
    apply Hp; assumption.
Qed.

Lemma office_has_same (o : office) (offices offices' : odict moffice) :
  offices_same offices offices' ->
  office_has (office_absorbs' o) (office_key o) offices ->
  office_has (office_absorbs' o) (office_key o) offices'.
Proof.
  intros Hsame [mo [Hget Habs]].
  destruct (od_get_same_keys _ _ _ _ _ Hsame Hget) as [mo' [Hget' Hmo]].
  exists mo'. split; [exact Hget'|].
  apply (office_absorbs_same _ _ _ Hmo Habs).
Qed.

Lemma absorbed_merge_office (offices : odict moffice) (o : office) :
  office_has (office_absorbs' o) (office_key o) offices ->
  offices_same offices (merge_office' offices o).
Proof.
  intros [mo [Hget Habs]]. rewrite merge_office_update, Hget.
  apply (od_set_same_keys office_same _ mo); try assumption.
  - apply office_same_refl.
  - apply absorbed_office_same. exact Habs.
Qed.

Lemma absorbed_merge_offices (l : list office) (offices : odict moffice) :
  (forall o, In o l ->
             office_has (office_absorbs' o) (office_key o) offices) ->
  offices_same offices (fold_left merge_office' l offices).
Proof.
  apply (fold_same offices_same
           (fun offs o => office_has (office_absorbs' o) (office_key o) offs)).
  - apply offices_same_refl.
  - apply offices_same_trans.
  - intros a a' o. apply office_has_same.
  - intros a o. apply absorbed_merge_office.
Qed.

Lemma firm_absorbs_same (f : firm) (mf mf' : mfirm) :
  firm_same mf mf' -> firm_absorbs' f mf -> firm_absorbs' f mf'.
Proof.
  intros (Hn & Hw & Hi & Ho) (Hn' & Hw' & Hi' & Ho').
  unfold firm_absorbs. rewrite Hn, Hw, Hi. repeat split; try assumption.
  - apply Hn'. assumption.
  - apply Hn'. assumption.
  - intros o Hin. apply (office_has_same _ _ _ Ho). apply Ho', Hin.
Qed.

Lemma set_add_present (x : str) (s : list str) : In x s -> set_add x s = s.
Proof.
  intros H. unfold set_add.
  assert (E : existsb (str_eqb x) s = true).
  { apply existsb_exists. exists x. split; [exact H | apply str_eqb_refl]. }
  rewrite E. reflexivity.
Qed.

Lemma absorbed_firm_same (f : firm) (mf : mfirm) :
  firm_absorbs' f mf -> firm_same mf (update_firm' mf f).
Proof.
  intros (Hn & Hw & Hi & Ho).
  unfold firm_same, update_firm.
  cbn [mf_firm_name mf_website mf_firm_ids mf_offices].
  split; [|split; [|split]].
  - destruct (truthy_s (f_firm_name f)) eqn:E; [|reflexivity].
    destruct (Hn eq_refl) as [Hmf Hlen]. rewrite Hmf. simpl.
    destruct (Nat.ltb_spec (len (or_empty (mf_firm_name mf)))
                (len (or_empty (f_firm_name f)))); [lia | reflexivity].
  - destruct (truthy_s (f_website f)) eqn:E.
    + rewrite (Hw eq_refl). reflexivity.
    + rewrite andb_false_r. reflexivity.
  - destruct (truthy_s (f_firm_id f)) eqn:E; [|reflexivity].
    apply set_add_present, Hi. reflexivity.
  - apply absorbed_merge_offices. exact Ho.
Qed.

Lemma index_absorbs_same (f : firm) (idx idx' : odict mfirm) :
  index_same idx idx' -> index_absorbs' idx f -> index_absorbs' idx' f.
Proof.
  intros Hsame [mf [Hget Habs]].
  destruct (od_get_same_keys _ _ _ _ _ Hsame Hget) as [mf' [Hget' Hmf]].
  exists mf'. split; [exact Hget'|].
  apply (firm_absorbs_same _ _ _ Hmf Habs).
Qed.

Lemma absorbed_merge_firm (idx : odict mfirm) (f : firm) :
  index_absorbs' idx f -> index_same idx (merge_firm' idx f).
Proof.
  intros [mf [Hget Habs]]. rewrite merge_firm_update, Hget.
  apply (od_set_same_keys firm_same _ mf); try assumption.
  - apply firm_same_refl.
  - apply absorbed_firm_same. exact Habs.
Qed.

Lemma absorbed_merge_firms (l : list firm) (idx : odict mfirm) :
  (forall f, In f l -> index_absorbs' idx f) ->
  index_same idx (fold_left merge_firm' l idx).
Proof.
  apply (fold_same index_same index_absorbs').
  - apply index_same_refl.
  - apply index_same_trans.
  - intros a a' f. apply index_absorbs_same.
  - intros a f. apply absorbed_merge_firm.
Qed.

(** *** The export does not see repeated profiles *)

Lemma finalize_office_same (mo mo' : moffice) :
  office_same mo mo' -> finalize_office mo = finalize_office mo'.
Proof.
  intros (Hc & Ha & Hr & Hp). unfold finalize_office.
  rewrite Hc, Ha, Hr, (dedup_profiles_extend _ _ Hp). reflexivity.
Qed.

Lemma finalize_firm_same (mf mf' : mfirm) :
  firm_same mf mf' -> finalize_firm mf = finalize_firm mf'.
Proof.
  intros (Hn & Hw & Hi & Ho). unfold finalize_firm.
  rewrite Hn, Hw, Hi.
  assert (Hvals : Forall2 office_same (od_values (mf_offices mf))
                    (od_values (mf_offices mf'))).
  { unfold od_values. clear - Ho.
    induction Ho as [|x y l l' [_ Hxy] Hl IH]; simpl; constructor; assumption. }
  rewrite (Forall2_map_eq office_same finalize_office _ _
             finalize_office_same Hvals).
  assert (Htotal :
            fold_left
              (fun n o => (n + List.length (od_values (mo_reviews_map o)))%nat)
              (od_values (mf_offices mf)) 0%nat
            = fold_left
                (fun n o => (n + List.length (od_values (mo_reviews_map o)))%nat)
                (od_values (mf_offices mf')) 0%nat).
  { apply (Forall2_fold_eq office_same); [|exact Hvals].
    intros acc x x' (_ & _ & Hr & _). rewrite Hr. reflexivity. }
  assert (Hplat : fold_left office_platforms (od_values (mf_offices mf)) []
                  = fold_left office_platforms (od_values (mf_offices mf')) []).
  { apply (Forall2_fold_eq office_same); [|exact Hvals].
    intros acc x x' (_ & _ & Hr & _). unfold office_platforms.
    rewrite Hr. reflexivity. }
  assert (Hcity : fold_left office_cities (od_values (mf_offices mf)) []
                  = fold_left office_cities (od_values (mf_offices mf')) []).
  { apply (Forall2_fold_eq office_same); [|exact Hvals].
    intros acc x x' (Hc & _). unfold office_cities. rewrite Hc. reflexivity. }
  rewrite Htotal, Hplat, Hcity.
  reflexivity.
Qed.

Lemma finalize_index_same (idx idx' : odict mfirm) :
  index_same idx idx' ->
  map finalize_firm (od_values idx) = map finalize_firm (od_values idx').
Proof.
  intros H. unfold od_values. rewrite !map_map.
  induction H as [|x y l l' [_ Hxy] Hl IH]; simpl; [reflexivity|].
  rewrite (finalize_firm_same _ _ Hxy), IH. reflexivity.
Qed.

Lemma fold_sources_flat (datasets : list (str * dataset)) (idx : odict mfirm) :
  fold_left (fun firms_map src => fold_left merge_firm' (snd src) firms_map)
    datasets idx
  = fold_left merge_firm' (all_firms datasets) idx.
Proof.
  unfold all_firms. revert idx.
  induction datasets as [|src ds IH]; intros idx; simpl; [reflexivity|].
  rewrite fold_left_app. apply IH.
Qed.

Lemma merge_index_app (first again : list (str * dataset)) :
  merge_index' (first ++ again)
  = fold_left merge_firm' (all_firms again) (merge_index' first).
Proof.
  unfold merge_index. rewrite fold_left_app. apply fold_sources_flat.
Qed.

End MetAgain.

(** X21.  Sources whose firm records all occur in the sources merged
    before them change nothing: the merge of both exports what the merge of
    the first exports, firm for firm and with the same quality record.  In
    particular the merge of a list of sources given twice is the merge of
    the list. *)
Theorem sources_met_again_change_nothing :
  forall (F : PyFloat) (U : UnicodeDB) (sha1_hexdigest : str -> str)
         (float_repr : float -> str) (first again : list (str * dataset)),
    (forall f, In f (all_firms again) -> In f (all_firms first)) ->
    merge_datasets sha1_hexdigest float_repr (first ++ again)
    = merge_datasets sha1_hexdigest float_repr first.
Proof.
  intros F U sha1_hexdigest float_repr first again Hin.
  assert (Hidx : index_same
                   (merge_index sha1_hexdigest float_repr first)
                   (merge_index sha1_hexdigest float_repr (first ++ again))).
  { rewrite merge_index_app.
    apply absorbed_merge_firms. intros f Hf.
    rewrite merge_index_flat. apply merge_firms_absorb, Hin, Hf. }
  apply finalize_index_same in Hidx.
  unfold merge_datasets. rewrite <- Hidx. reflexivity.
Qed.

Lemma sources_met_again_change_nothing_witness :
  merge_datasets (F := exact) (U := czech_db) no_digest fraction_repr
    (acme_twice ++ acme_profiles ++ acme_twice)
  = merge_datasets (F := exact) (U := czech_db) no_digest fraction_repr
      (acme_twice ++ acme_profiles).
Proof.
  rewrite app_assoc.
  apply (sources_met_again_change_nothing exact czech_db no_digest
           fraction_repr (acme_twice ++ acme_profiles) acme_twice).
  intros f Hf. apply in_flat_map in Hf. destruct Hf as [src [Hsrc Hf]].
  apply in_flat_map. exists src. split; [|exact Hf].
  apply in_or_app. left. exact Hsrc.
Defined.

(** ** Keys of reviews with an id *)

Lemma rid_key_parts (p1 p2 s1 s2 : str) :
  In p1 PLATFORMS_PRIORITY -> In p2 PLATFORMS_PRIORITY ->
  p1 ++ u "|rid:" ++ s1 = p2 ++ u "|rid:" ++ s2 ->
  p1 = p2 /\ s1 = s2.
Proof.
  intros H1 H2 H. simpl in H1, H2.
  destruct H1 as [<-|[<-|[<-|[<-|[]]]]];
    destruct H2 as [<-|[<-|[<-|[<-|[]]]]];
    try (vm_compute in H; discriminate H);
    (split; [reflexivity|]);
    apply app_inv_head in H; apply app_inv_head in H; exact H.
Qed.

(** X22.  Two reviews with an id have the same dedupe key exactly when
    their canonical platforms are equal and their ids print alike. *)
Theorem id_keys_agree_iff :
  forall (F : PyFloat) (U : UnicodeDB) (sha1_hexdigest : str -> str)
         (float_repr : float -> str) (r1 r2 : review),
    truthy (review_id r1) = true -> truthy (review_id r2) = true ->
    (review_dedupe_key sha1_hexdigest float_repr r1
     = review_dedupe_key sha1_hexdigest float_repr r2
     <-> norm_platform (platform r1) = norm_platform (platform r2)
         /\ py_str float_repr (review_id r1) = py_str float_repr (review_id r2)).
Proof.
  intros F U sha1_hexdigest float_repr r1 r2 H1 H2.
  unfold review_dedupe_key. rewrite H1, H2. split.
  - apply rid_key_parts; apply norm_platform_in.
  - intros [-> ->]. reflexivity.
Qed.

Lemma id_keys_agree_iff_witness :
  review_dedupe_key (F := exact) (U := czech_db) no_digest fraction_repr
    (review_with_id (u "r9") None)
  = review_dedupe_key (F := exact) (U := czech_db) no_digest fraction_repr
      (review_with_id (u "r9") (Some (u "Great help")))
  <-> norm_platform (U := czech_db)
        (platform (review_with_id (F := exact) (u "r9") None))
      = norm_platform (U := czech_db)
          (platform (review_with_id (F := exact) (u "r9")
                       (Some (u "Great help"))))
      /\ py_str (F := exact) fraction_repr
           (review_id (review_with_id (F := exact) (u "r9") None))
         = py_str (F := exact) fraction_repr
             (review_id (review_with_id (F := exact) (u "r9")
                           (Some (u "Great help")))).
Proof.
  apply (id_keys_agree_iff exact czech_db no_digest fraction_repr); reflexivity.
Defined.

(** X23.  The quality record lists as below the minimum exactly the
    exported firms with fewer than ten exported reviews, in the order of
    the export; a firm that carries the warning of no reviews is among
    them. *)
Theorem firms_below_min_are_the_small_firms :
  forall (F : PyFloat) (U : UnicodeDB) (sha1_hexdigest : str -> str)
         (float_repr : float -> str) (datasets : list (str * dataset)),
    let merged := merge_datasets sha1_hexdigest float_repr datasets in
    firms_below_min_reviews (snd merged)
    = map fo_firm_id
        (filter (fun fo => (List.length (firm_reviews fo) <? 10)%nat)
           (fst merged))
    /\ (forall fo, In fo (fst merged) ->
                   warnings (fo_collection_summary fo) <> None ->
                   firm_reviews fo = []
                   /\ In (fo_firm_id fo) (firms_below_min_reviews (snd merged))).
Proof.
  intros F U sha1_hexdigest float_repr datasets merged.
  assert (Hlist : firms_below_min_reviews (snd merged)
                  = map fo_firm_id
                      (filter (fun fo => (List.length (firm_reviews fo) <? 10)%nat)
                         (fst merged))).
  { subst merged. unfold merge_datasets.
    cbn [snd fst firms_below_min_reviews]. f_equal.
    apply filter_ext_in. intros fo Hfo.
    apply in_map_iff in Hfo. destruct Hfo as [mf [<- _]].
    rewrite reviews_collected_total_finalize. reflexivity. }
  split; [exact Hlist|].
  intros fo Hfo Hwarn.
  assert (Hnil : firm_reviews fo = []).
  { subst merged. unfold merge_datasets in Hfo. cbn [fst] in Hfo.
    apply in_map_iff in Hfo. destruct Hfo as [mf [<- _]].
    pose proof (reviews_collected_total_finalize mf) as Htotal.
    unfold finalize_firm in Hwarn, Htotal.
    cbn [fo_collection_summary warnings reviews_collected_total] in Hwarn, Htotal.
    destruct (Nat.eqb_spec
                (fold_left
                   (fun n o => (n + List.length (od_values (mo_reviews_map o)))%nat)
                   (od_values (mf_offices mf)) 0%nat) 0) as [Hz|Hnz];
      [|congruence].
    rewrite Hz in Htotal. symmetry in Htotal.
    apply length_zero_iff_nil in Htotal. exact Htotal. }
  split; [exact Hnil|].
  rewrite Hlist. apply in_map. apply filter_In. split; [exact Hfo|].
  rewrite Hnil. reflexivity.
Qed.
